(** * Distribuidora Santana Miro storefront: cart, catalog cache and fetch

    A shallow embedding of the cart store ([stores/cartStore]), the Convex
    cart mutations ([convex/mutations/cart/cartOperations.ts]), the two cache
    services, the product fetcher with retry ([hooks/useProductsAPI]) and the
    cross-tab synchronisation hooks ([hooks/useCartSync.ts]), together with
    the properties the specification states about them.

    Modelling conventions.
    - A JavaScript [number] that counts is an integer of [Z]: quantities,
      stock levels and timestamps (epoch milliseconds of [Date.now()] and
      [Date.getTime()]), all below [2^53], where a [number] is exact.
    - A JavaScript [number] that is an amount of money (a price, a unit
      price, a total) is an IEEE 754 binary64 value of [float], added and
      multiplied as the source does, in the order in which it does.
    - [Date.now()], [new Date()], [generateSessionId()] and the network are
      inputs of the operation that reads them.
    - A thrown [Error] is a value of an error type; the state is returned
      unchanged next to it where the source leaves it unchanged.
    - Console output and DOM events are not part of the state. *)

From Stdlib Require Import Floats Sorted.
From stdpp Require Import base option list strings gmap fin_maps pretty.

Local Open Scope Z_scope.
#[local] Set Warnings "-inexact-float".

(** ** JavaScript numbers *)

#[export] Instance float_eq_dec : EqDecision float.
Proof.
  intros x y. destruct (PrimFloat.Leibniz.eqb x y) eqn:H.
  - left. by apply FloatAxioms.Leibniz.eqb_spec.
  - right. intros Heq. apply FloatAxioms.Leibniz.eqb_spec in Heq. congruence.
Defined.

(** A count read as a [number] in an arithmetic expression. *)
Definition toNumber (z : Z) : float :=
  match z with
  | Z0 => 0%float
  | Zpos _ => of_uint63 (Uint63.of_Z z)
  | Zneg _ => (- of_uint63 (Uint63.of_Z (- z)))%float
  end.

(** [!x] on a number: [0], [-0] and [NaN] are falsy. *)
Definition falsy (x : float) : bool := is_zero x || is_nan x.

(** [x === y] on numbers, a [NaN] being taken for equal to a [NaN]: the
    same value, or two zeros. *)
Definition sameNumber (x y : float) : Prop := x = y ∨ (x =? y)%float = true.

(** ** Array helpers shared by the components *)

(** [Array.prototype.findIndex]: position of the first element satisfying
    [p]; [None] stands for [-1]. *)
Fixpoint findIndex {A : Type} (p : A → bool) (l : list A) : option nat :=
  match l with
  | [] => None
  | x :: l' => if p x then Some 0%nat else S <$> findIndex p l'
  end.

(** The first element satisfying [p] together with its position: what
    [findIndex] followed by an index read, [Array.prototype.find] or the
    [first()] of a query yields. *)
Fixpoint findFirst {A : Type} (p : A → bool) (l : list A) : option (nat * A) :=
  match l with
  | [] => None
  | x :: l' => if p x then Some (0%nat, x) else prod_map S id <$> findFirst p l'
  end.

(** [Array.prototype.reduce((acc, x) => f acc x, init)]. *)
Definition reduce {A B : Type} (f : B → A → B) (init : B) (l : list A) : B :=
  fold_left f l init.

(** ** The cart store (zustand store [useCartStore]) *)

Module CartStore.

(** What the field [price] holds at run time: a number, or, for a product
    taken as the product endpoint sent it, a string or nothing.  A string
    comes with the number [parseFloat] reads off its cleaned text (the
    digits, dots and commas of the string, the first comma as a dot). *)
Inductive Price :=
| PriceNumber (n : float)
| PriceString (text : string) (parsed : float)
| PriceAbsent.

(** A [Product], with the fields the store reads. *)
Record Product := mkProduct {
  externalId : string;
  name : string;
  price : Price;
  availableQuantity : Z;
  isActive : bool
}.

Record CartItem := mkCartItem {
  id : string;
  product : Product;
  quantity : Z;
  addedAt : Z
}.

Record CartState := mkCartState {
  items : list CartItem;
  sessionId : string;
  isLoading : bool;
  lastUpdated : Z;
  _itemCount : Z;
  _totalPrice : float
}.

#[export] Instance Price_eq_dec : EqDecision Price.
Proof. solve_decision. Defined.

#[export] Instance Product_eq_dec : EqDecision Product.
Proof. solve_decision. Defined.

#[export] Instance CartItem_eq_dec : EqDecision CartItem.
Proof. solve_decision. Defined.

(** The [price] the reduction of [computeCartValues] works with: the
    parsed number for a non-empty string, the number for a number, [0]
    otherwise. *)
Definition priceNumber (priceValue : Price) : float :=
  match priceValue with
  | PriceString text parsed => if String.eqb text "" then 0%float else parsed
  | PriceNumber n => n
  | PriceAbsent => 0%float
  end.

(** [computeCartValues]: both totals are reductions over the items, from
    the left. *)
Definition computeCartValues (its : list CartItem) : Z * float :=
  let itemCount := reduce (fun total item => total + quantity item) 0 its in
  let totalPrice :=
    reduce (fun total item =>
              (total + priceNumber (price (product item)) * toNumber (quantity item))%float)
           0%float its in
  (itemCount, totalPrice).

(** The initial state of the store, for a generated session id and the
    time of creation. *)
Definition initialState (session : string) (now : Z) : CartState :=
  {| items := []; sessionId := session; isLoading := false;
     lastUpdated := now; _itemCount := 0; _totalPrice := 0%float |}.

Definition withQuantity (q : Z) (item : CartItem) : CartItem :=
  {| id := id item; product := product item; quantity := q;
     addedAt := addedAt item |}.

(** [!product.price || !product.name]: the store refetches a product whose
    price or name is falsy. *)
Definition needsFetch (p : Product) : bool :=
  match price p with
  | PriceNumber n => falsy n
  | PriceString text _ => String.eqb text ""
  | PriceAbsent => true
  end || String.eqb (name p) "".

(** The [productData] of [addToCart]: the product handed in, or the fetched
    one.  [fetchProductData] is the answer of the product endpoint ([None]
    for a failed request). *)
Definition productDataFor (fetchProductData : string → option Product)
    (p : Product) : Product :=
  if needsFetch p then
    match fetchProductData (externalId p) with
    | Some fetched => fetched
    | None => p
    end
  else p.

(** [addToCart(product, quantity)]: the item found by [find] is updated in
    place. *)
Definition addToCart (fetchProductData : string → option Product) (now : Z)
    (p : Product) (qty : Z) (state : CartState) : CartState :=
  let productData := productDataFor fetchProductData p in
  let items' :=
    match findIndex (fun item => String.eqb (id item) (externalId productData))
                    (items state) with
    | Some i => alter (fun item => withQuantity (quantity item + qty) item) i (items state)
    | None =>
        items state ++
        [ {| id := externalId productData; product := productData;
             quantity := qty; addedAt := now |} ]
    end in
  let '(itemCount, totalPrice) := computeCartValues items' in
  {| items := items'; sessionId := sessionId state; isLoading := false;
     lastUpdated := now; _itemCount := itemCount; _totalPrice := totalPrice |}.

(** [removeFromCart(productId)]: [splice(index, 1)] when the id is found,
    nothing otherwise. *)
Definition removeFromCart (now : Z) (productId : string) (state : CartState)
    : CartState :=
  match findIndex (fun item => String.eqb (id item) productId) (items state) with
  | Some index =>
      let items' := delete index (items state) in
      let '(itemCount, totalPrice) := computeCartValues items' in
      {| items := items'; sessionId := sessionId state;
         isLoading := isLoading state; lastUpdated := now;
         _itemCount := itemCount; _totalPrice := totalPrice |}
  | None => state
  end.

(** [updateQuantity(productId, quantity)]. *)
Definition updateQuantity (now : Z) (productId : string) (qty : Z)
    (state : CartState) : CartState :=
  if qty <=? 0 then removeFromCart now productId state
  else
    match findIndex (fun item => String.eqb (id item) productId) (items state) with
    | Some i =>
        let items' := alter (withQuantity qty) i (items state) in
        let '(itemCount, totalPrice) := computeCartValues items' in
        {| items := items'; sessionId := sessionId state;
           isLoading := isLoading state; lastUpdated := now;
           _itemCount := itemCount; _totalPrice := totalPrice |}
    | None => state
    end.

(** [clearCart()]: [newSession] is the value of [generateSessionId()]. *)
Definition clearCart (newSession : string) (now : Z) (state : CartState)
    : CartState :=
  {| items := []; sessionId := newSession; isLoading := isLoading state;
     lastUpdated := now; _itemCount := 0; _totalPrice := 0%float |}.

(** One validation issue of the store carries only a message; the three
    messages the store produces are kept apart by constructor. *)
Inductive Issue :=
| NaoEstaMaisDisponivel (productName : string)
| ApenasUnidadesDisponiveis (productName : string) (available : Z)
| NaoFoiEncontrado (productName : string).

Record Validation := mkValidation {
  hasIssues : bool;
  issues : list Issue
}.

(** The loop of [validateCart]: the issues and the validated items, both in
    the order of the cart. *)
Fixpoint validateItems (fetchProductData : string → option Product)
    (its : list CartItem) : list Issue * list CartItem :=
  match its with
  | [] => ([], [])
  | item :: rest =>
      let '(iss, validated) := validateItems fetchProductData rest in
      match fetchProductData (externalId (product item)) with
      | Some productData =>
          if negb (isActive productData) then
            (NaoEstaMaisDisponivel (name (product item)) :: iss, validated)
          else if availableQuantity productData <? quantity item then
            (ApenasUnidadesDisponiveis (name (product item))
               (availableQuantity productData) :: iss, validated)
          else
            (iss,
             {| id := id item; product := productData;
                quantity := quantity item; addedAt := addedAt item |} :: validated)
      | None => (NaoFoiEncontrado (name (product item)) :: iss, validated)
      end
  end.

(** [validateCart()]: returns the report and writes the validated items
    back into the store. *)
Definition validateCart (fetchProductData : string → option Product) (now : Z)
    (state : CartState) : CartState * Validation :=
  let '(iss, validatedItems) := validateItems fetchProductData (items state) in
  let '(itemCount, totalPrice) := computeCartValues validatedItems in
  ({| items := validatedItems; sessionId := sessionId state;
      isLoading := isLoading state; lastUpdated := now;
      _itemCount := itemCount; _totalPrice := totalPrice |},
   {| hasIssues := bool_decide (0 < length iss)%nat; issues := iss |}).


(** The four cart mutations, with the inputs each one reads. *)
Inductive Mutation :=
| AddToCart (fetchProductData : string → option Product) (now : Z)
    (p : Product) (qty : Z)
| RemoveFromCart (now : Z) (productId : string)
| UpdateQuantity (now : Z) (productId : string) (qty : Z)
| ClearCart (newSession : string) (now : Z).

Definition applyMutation (m : Mutation) (state : CartState) : CartState :=
  match m with
  | AddToCart f now p qty => addToCart f now p qty state
  | RemoveFromCart now productId => removeFromCart now productId state
  | UpdateQuantity now productId qty => updateQuantity now productId qty state
  | ClearCart newSession now => clearCart newSession now state
  end.

(** The store after a sequence of mutations, the first of the list first. *)
Definition runMutations (ms : list Mutation) (state : CartState) : CartState :=
  foldl (fun st m => applyMutation m st) state ms.

(** The totals in the words of the specification: the sum of the
    quantities, and the sum of price times quantity, the amounts added one
    item after the other in the order of the cart. *)
Definition sumQuantity (its : list CartItem) : Z :=
  foldr (fun item acc => quantity item + acc) 0 its.

Definition sumAmount (its : list CartItem) : float :=
  fold_left (fun acc item =>
               (acc + priceNumber (price (product item)) * toNumber (quantity item))%float)
            its 0%float.

Definition totalsConsistent (state : CartState) : Prop :=
  _itemCount state = sumQuantity (items state) ∧
  _totalPrice state = sumAmount (items state).

(** [getCartItem(productId)]: [items.find(item => item.id === productId)]. *)
Definition getCartItem (productId : string) (state : CartState) : option CartItem :=
  snd <$> findFirst (fun item => String.eqb (id item) productId) (items state).

(** [getItemCount()] and [getTotalPrice()] read the stored totals. *)
Definition getItemCount (state : CartState) : Z := _itemCount state.

Definition getTotalPrice (state : CartState) : float := _totalPrice state.

(** [setLoading(loading)]. *)
Definition setLoading (loading : bool) (state : CartState) : CartState :=
  {| items := items state; sessionId := sessionId state; isLoading := loading;
     lastUpdated := lastUpdated state; _itemCount := _itemCount state;
     _totalPrice := _totalPrice state |}.

(** No two items of the cart carry the same id, and the id of an item is the
    external id of its product. *)
Definition wellKeyed (its : list CartItem) : Prop :=
  NoDup (id <$> its) ∧ Forall (fun item => id item = externalId (product item)) its.

(** An item passes [validateCart] when its product is fetched, active and
    has the stock for the quantity in the cart. *)
Definition passes (fetchProductData : string → option Product) (item : CartItem)
    : Prop :=
  ∃ productData,
    fetchProductData (externalId (product item)) = Some productData ∧
    isActive productData = true ∧
    quantity item ≤ availableQuantity productData.

(** The item [validateCart] keeps for an item that passes. *)
Definition refreshed (fetchProductData : string → option Product) (item : CartItem)
    : CartItem :=
  {| id := id item;
     product := default (product item) (fetchProductData (externalId (product item)));
     quantity := quantity item; addedAt := addedAt item |}.

(** Example data: the product ["A"] at price 10 and a store holding two
    units of it. *)
Definition productA : Product :=
  {| externalId := "A"; name := "Produto A"; price := PriceNumber 10;
     availableQuantity := 100; isActive := true |}.

Definition storeWithA : CartState :=
  {| items := [ {| id := "A"; product := productA; quantity := 2; addedAt := 0 |} ];
     sessionId := "cart_0_abc"; isLoading := false; lastUpdated := 0;
     _itemCount := 2; _totalPrice := 20%float |}.

End CartStore.


(** ** The Convex cart mutations ([convex/mutations/cart/cartOperations.ts]) *)

Module CartOperations.

(** A document of the [products] table (the fields the mutations read). *)
Record Product := mkProduct {
  price : float;
  availableQuantity : Z;
  isActive : bool
}.

Record CartItem := mkCartItem {
  productId : string;
  quantity : Z;
  unitPrice : float
}.

(** A document of the [cart_sessions] table. *)
Record CartSession := mkCartSession {
  sessionId : string;
  items : list CartItem;
  totalItems : Z;
  totalAmount : float;
  createdAt : Z;
  updatedAt : Z
}.

(** The database: [products] by document id, [cart_sessions] in creation
    order, the order in which the index [by_session_id] lists the documents
    of one session id.  The position of a cart document stands for its
    [_id]. *)
Record Db := mkDb {
  products : gmap string Product;
  cart_sessions : list CartSession
}.

(** The errors the mutations throw, named after their messages. *)
Inductive CartError :=
| ProdutoNaoEncontrado
| ProdutoNaoEstaDisponivel
| ApenasUnidadesDisponiveis (available : Z)
| QuantidadeDeveSerMaiorQueZero
| CarrinhoNaoEncontrado
| ItemNaoEncontradoNoCarrinho.

(** The outcome of a mutation: the new database and the returned [cartId]
    when there is one, or the thrown error, in which case the transaction
    writes nothing. *)
Inductive Outcome :=
| Success (db : Db) (cartId : option nat)
| Throw (e : CartError).

(** [ctx.db.query("cart_sessions").withIndex(...).first()]. *)
Definition firstSession (sid : string) (db : Db) : option (nat * CartSession) :=
  findFirst (fun c => String.eqb (sessionId c) sid) (cart_sessions db).

Definition sumItems (its : list CartItem) : Z :=
  reduce (fun sum item => sum + quantity item) 0 its.

Definition sumValue (its : list CartItem) : float :=
  reduce (fun sum item => (sum + toNumber (quantity item) * unitPrice item)%float)
         0%float its.

(** [ctx.db.patch(cartSession._id, { items, totalItems, totalAmount,
    updatedAt })]. *)
Definition patchSession (its : list CartItem) (ti : Z) (ta : float) (now : Z)
    (c : CartSession) : CartSession :=
  {| sessionId := sessionId c; items := its; totalItems := ti;
     totalAmount := ta; createdAt := createdAt c; updatedAt := now |}.

Definition patch (i : nat) (f : CartSession → CartSession) (db : Db) : Db :=
  {| products := products db; cart_sessions := alter f i (cart_sessions db) |}.

Definition addToCart (now : Z) (sid pid : string) (qty : Z) (db : Db) : Outcome :=
  match products db !! pid with
  | None => Throw ProdutoNaoEncontrado
  | Some product =>
      if negb (isActive product) then Throw ProdutoNaoEstaDisponivel
      else if availableQuantity product <? qty then
        Throw (ApenasUnidadesDisponiveis (availableQuantity product))
      else if qty <=? 0 then Throw QuantidadeDeveSerMaiorQueZero
      else
        match firstSession sid db with
        | None =>
            Success
              {| products := products db;
                 cart_sessions :=
                   cart_sessions db ++
                   [ {| sessionId := sid;
                        items := [ {| productId := pid; quantity := qty;
                                      unitPrice := price product |} ];
                        totalItems := qty;
                        totalAmount := (price product * toNumber qty)%float;
                        createdAt := now; updatedAt := now |} ] |}
              (Some (length (cart_sessions db)))
        | Some (ci, cartSession) =>
            match findFirst (fun item => String.eqb (productId item) pid)
                            (items cartSession) with
            | Some (existingItemIndex, existingItem) =>
                let newQuantity := quantity existingItem + qty in
                if availableQuantity product <? newQuantity then
                  Throw (ApenasUnidadesDisponiveis (availableQuantity product))
                else
                  let updatedItems :=
                    <[existingItemIndex :=
                        {| productId := productId existingItem;
                           quantity := newQuantity;
                           unitPrice := price product |}]>
                      (items cartSession) in
                  Success
                    (patch ci (patchSession updatedItems (sumItems updatedItems)
                                 (sumValue updatedItems) now) db)
                    (Some ci)
            | None =>
                let updatedItems :=
                  items cartSession ++
                  [ {| productId := pid; quantity := qty;
                       unitPrice := price product |} ] in
                Success
                  (patch ci (patchSession updatedItems (sumItems updatedItems)
                               (sumValue updatedItems) now) db)
                  (Some ci)
            end
        end
  end.

Definition removeFromCart (now : Z) (sid pid : string) (db : Db) : Outcome :=
  match firstSession sid db with
  | None => Throw CarrinhoNaoEncontrado
  | Some (ci, cartSession) =>
      let updatedItems :=
        List.filter (fun item => negb (String.eqb (productId item) pid))
                    (items cartSession) in
      if (length updatedItems =? length (items cartSession))%nat then
        Throw ItemNaoEncontradoNoCarrinho
      else
        Success
          (patch ci (patchSession updatedItems (sumItems updatedItems)
                       (sumValue updatedItems) now) db)
          None
  end.

Definition updateCartItemQuantity (now : Z) (sid pid : string) (qty : Z) (db : Db)
    : Outcome :=
  if qty <=? 0 then Throw QuantidadeDeveSerMaiorQueZero
  else
    match products db !! pid with
    | None => Throw ProdutoNaoEncontrado
    | Some product =>
        if negb (isActive product) then Throw ProdutoNaoEstaDisponivel
        else if availableQuantity product <? qty then
          Throw (ApenasUnidadesDisponiveis (availableQuantity product))
        else
          match firstSession sid db with
          | None => Throw CarrinhoNaoEncontrado
          | Some (ci, cartSession) =>
              match findFirst (fun item => String.eqb (productId item) pid)
                              (items cartSession) with
              | None => Throw ItemNaoEncontradoNoCarrinho
              | Some (itemIndex, old) =>
                  let updatedItems :=
                    <[itemIndex :=
                        {| productId := productId old; quantity := qty;
                           unitPrice := price product |}]>
                      (items cartSession) in
                  Success
                    (patch ci (patchSession updatedItems (sumItems updatedItems)
                                 (sumValue updatedItems) now) db)
                    None
              end
          end
    end.

Definition clearCart (now : Z) (sid : string) (db : Db) : Outcome :=
  match firstSession sid db with
  | None => Success db None
  | Some (ci, _) => Success (patch ci (patchSession [] 0 0%float now) db) None
  end.

(** The four mutations with their arguments; the catalog is written by the
    product synchronisation between two cart mutations, so each step reads
    the [products] table of its own time. *)
Inductive Mutation :=
| AddToCart (now : Z) (sid pid : string) (qty : Z)
| RemoveFromCart (now : Z) (sid pid : string)
| UpdateCartItemQuantity (now : Z) (sid pid : string) (qty : Z)
| ClearCart (now : Z) (sid : string).

Definition run (m : Mutation) (db : Db) : Outcome :=
  match m with
  | AddToCart now sid pid qty => addToCart now sid pid qty db
  | RemoveFromCart now sid pid => removeFromCart now sid pid db
  | UpdateCartItemQuantity now sid pid qty => updateCartItemQuantity now sid pid qty db
  | ClearCart now sid => clearCart now sid db
  end.

(** The database after a mutation: a thrown error aborts the transaction. *)
Definition after (m : Mutation) (db : Db) : Db :=
  match run m db with
  | Success db' _ => db'
  | Throw _ => db
  end.

Definition withProducts (ps : gmap string Product) (db : Db) : Db :=
  {| products := ps; cart_sessions := cart_sessions db |}.

(** A step of the history of the database: a cart mutation, or a rewrite of
    the catalog by the product synchronisation. *)
Inductive Step :=
| Mutate (m : Mutation)
| Catalog (ps : gmap string Product).

Definition step (db : Db) (s : Step) : Db :=
  match s with
  | Mutate m => after m db
  | Catalog ps => withProducts ps db
  end.

Definition runSteps (steps : list Step) (db : Db) : Db := foldl step db steps.

(** A database without carts. *)
Definition noCarts (ps : gmap string Product) : Db :=
  {| products := ps; cart_sessions := [] |}.

(** The totals in the words of the specification: the sum of the
    quantities, and the sum of unit price times quantity, the amounts added
    one item after the other in the order of the cart.  The stored amount
    is that sum as a number ([===]). *)
Definition sumQuantity (its : list CartItem) : Z :=
  foldr (fun item acc => quantity item + acc) 0 its.

Definition sumAmount (its : list CartItem) : float :=
  fold_left (fun acc item => (acc + unitPrice item * toNumber (quantity item))%float)
            its 0%float.

Definition totalsConsistent (c : CartSession) : Prop :=
  totalItems c = sumQuantity (items c) ∧
  sameNumber (totalAmount c) (sumAmount (items c)).


(** The items of a cart after [addToCart] met the product in it. *)
Definition accumulated (product : Product) (qty : Z) (i : nat) (existing : CartItem)
    (its : list CartItem) : list CartItem :=
  <[i := {| productId := productId existing; quantity := quantity existing + qty;
            unitPrice := price product |}]> its.

(** The items of a cart after [updateCartItemQuantity]. *)
Definition requantified (product : Product) (qty : Z) (i : nat) (old : CartItem)
    (its : list CartItem) : list CartItem :=
  <[i := {| productId := productId old; quantity := qty;
            unitPrice := price product |}]> its.



(** The session a mutation is called for. *)
Definition mutationSession (m : Mutation) : string :=
  match m with
  | AddToCart _ sid _ _ => sid
  | RemoveFromCart _ sid _ => sid
  | UpdateCartItemQuantity _ sid _ _ => sid
  | ClearCart _ sid => sid
  end.

(** The items of the cart of a session: those of the first cart document
    of the session, none without one (what [getCartBySession] reads). *)
Definition cartItems (sid : string) (db : Db) : list CartItem :=
  match firstSession sid db with
  | Some (_, cartSession) => items cartSession
  | None => []
  end.

(** The quantity of a product in the cart of a session: that of the first
    item with the product, [0] without. *)
Definition quantityInCart (sid pid : string) (db : Db) : Z :=
  match findFirst (fun item => String.eqb (productId item) pid) (cartItems sid db) with
  | Some (_, existingItem) => quantity existingItem
  | None => 0
  end.

(** Whether the cart of a session lists a product. *)
Definition inCart (sid pid : string) (db : Db) : Prop :=
  pid ∈ productId <$> cartItems sid db.

(** Example data: a catalog with the one product ["A"], and a database in
    which the session ["s"] holds two units of it, bought at 10. *)
Definition productAt (p stock : Z) : Product :=
  {| price := toNumber p; availableQuantity := stock; isActive := true |}.

Definition catalogA (p stock : Z) : gmap string Product :=
  {[ "A" := productAt p stock ]}.

Definition twoAs : CartItem :=
  {| productId := "A"; quantity := 2; unitPrice := 10%float |}.

Definition sessionS : CartSession :=
  {| sessionId := "s"; items := [twoAs]; totalItems := 2; totalAmount := 20%float;
     createdAt := 0; updatedAt := 0 |}.

Definition cartWithA (p stock : Z) : Db :=
  {| products := catalogA p stock; cart_sessions := [sessionS] |}.

End CartOperations.


(** ** The two-tier cache service ([services/cacheService]) *)

Module CacheService.

(** What [localStorage] holds under a key: a string that [JSON.parse] turns
    into a cache item, or one on which it throws.  [JSON.stringify] followed
    by [JSON.parse] is taken to give the payload back. *)
Inductive Stored (T : Type) :=
| Json (item : T)
| Unparsable.
Arguments Json {T} item.
Arguments Unparsable {T}.

(** An exception that leaves a method of the service: the module reads
    [DEBUG] in the handlers of [setToLocalStorage] and does not declare
    it. *)
Inductive Thrown :=
| ReferenceError (identifier : string).

(** What a call comes to: the value it returns, or the exception it
    throws. *)
Inductive Returned (A : Type) :=
| Value (a : A)
| Raised (e : Thrown).
Arguments Value {A} a.
Arguments Raised {A} e.

Section WithPayload.

Context {T : Type}.

Record CacheItem := mkCacheItem {
  data : T;
  timestamp : Z;
  ttl : Z;
  version : string
}.

(** [CacheConfig]; the field [version] of the source is [configVersion]
    here, next to the [version] of an item. *)
Record CacheConfig := mkCacheConfig {
  defaultTTL : Z;
  maxSize : Z;
  configVersion : string
}.

(** The singleton [cacheService]. *)
Definition singletonConfig : CacheConfig :=
  {| defaultTTL := 5 * 60 * 1000; maxSize := 100; configVersion := "1.0.0" |}.

(** The service: its configuration, the [Map] of the memory tier in
    insertion order, and the [localStorage] of the origin. *)
Record Cache := mkCache {
  config : CacheConfig;
  memoryCache : list (string * CacheItem);
  localStorage : gmap string (Stored CacheItem)
}.

(** Whether [localStorage.setItem(key, value)] throws on the given store
    (quota exceeded). *)
Context (quotaExceeded : gmap string (Stored CacheItem) → string → Stored CacheItem → bool).

Definition generateKey (namespace identifier : string) : string :=
  "cache_" +:+ namespace +:+ "_" +:+ identifier.

Definition isExpired (now : Z) (item : CacheItem) : bool :=
  now - timestamp item >? ttl item.

Definition isVersionValid (cfg : CacheConfig) (item : CacheItem) : bool :=
  String.eqb (version item) (configVersion cfg).

(** [Map.prototype.get], [set] and [delete] on the memory tier. *)
Fixpoint mapGet (key : string) (m : list (string * CacheItem)) : option CacheItem :=
  match m with
  | [] => None
  | (k, v) :: m' => if String.eqb k key then Some v else mapGet key m'
  end.

Fixpoint mapSet (key : string) (item : CacheItem) (m : list (string * CacheItem))
    : list (string * CacheItem) :=
  match m with
  | [] => [(key, item)]
  | (k, v) :: m' =>
      if String.eqb k key then (k, item) :: m' else (k, v) :: mapSet key item m'
  end.

Definition mapDelete (key : string) (m : list (string * CacheItem))
    : list (string * CacheItem) :=
  List.filter (fun kv => negb (String.eqb kv.1 key)) m.

(** [getFromLocalStorage(key)]: the item and the store left behind. *)
Definition getFromLocalStorage (cfg : CacheConfig) (now : Z) (key : string)
    (ls : gmap string (Stored CacheItem))
    : option CacheItem * gmap string (Stored CacheItem) :=
  match ls !! key with
  | None => (None, ls)
  | Some Unparsable => (None, ls)
  | Some (Json item) =>
      if negb (isVersionValid cfg item) || isExpired now item
      then (None, delete key ls)
      else (Some item, ls)
  end.

(** The entries [clearExpiredFromLocalStorage] removes.  The method is
    called from the handler of [setToLocalStorage] only, after the read of
    [DEBUG]. *)
Definition toRemoveFromLocalStorage (cfg : CacheConfig) (now : Z)
    (kv : string * Stored CacheItem) : bool :=
  String.prefix "cache_" kv.1 &&
  match kv.2 with
  | Json item => negb (isVersionValid cfg item) || isExpired now item
  | Unparsable => true
  end.

Definition clearExpiredFromLocalStorage (cfg : CacheConfig) (now : Z)
    (ls : gmap string (Stored CacheItem)) : gmap string (Stored CacheItem) :=
  filter (fun kv => toRemoveFromLocalStorage cfg now kv = false) ls.

(** [setToLocalStorage(key, item)]: what the call throws and the store it
    leaves.  When [setItem] throws, the handler starts with
    [if (DEBUG) console.warn(...)]; reading the undeclared [DEBUG] throws a
    [ReferenceError] out of the method, before the clean-up and the second
    attempt that follow in the handler. *)
Definition setToLocalStorage (key : string) (item : CacheItem)
    (ls : gmap string (Stored CacheItem))
    : option Thrown * gmap string (Stored CacheItem) :=
  if quotaExceeded ls key (Json item) then (Some (ReferenceError "DEBUG"), ls)
  else (None, <[key := Json item]> ls).

(** [entries.sort((a, b) => a[1].timestamp - b[1].timestamp)], a stable
    sort. *)
Fixpoint insertByTimestamp (e : string * CacheItem) (l : list (string * CacheItem))
    : list (string * CacheItem) :=
  match l with
  | [] => [e]
  | y :: l' =>
      if timestamp e.2 <=? timestamp y.2 then e :: y :: l'
      else y :: insertByTimestamp e l'
  end.

Definition sortByTimestamp (l : list (string * CacheItem)) : list (string * CacheItem) :=
  foldr insertByTimestamp [] l.

(** Older or of the same age, by the [timestamp]. *)
Definition notNewer (a b : string * CacheItem) : Prop :=
  timestamp a.2 ≤ timestamp b.2.

(** [manageMemoryCacheSize()]: at capacity, the oldest quarter of [maxSize]
    entries leaves the memory tier. *)
Definition manageMemoryCacheSize (cfg : CacheConfig) (m : list (string * CacheItem))
    : list (string * CacheItem) :=
  if Z.of_nat (length m) >=? maxSize cfg then
    let entries := sortByTimestamp m in
    let toRemove := Z.to_nat (maxSize cfg / 4) in
    foldl (fun acc e => mapDelete e.1 acc) m (take toRemove entries)
  else m.

(** [get(namespace, identifier)] at time [now]. *)
Definition get (now : Z) (namespace identifier : string) (c : Cache)
    : option T * Cache :=
  let key := generateKey namespace identifier in
  let fromStorage :=
    match getFromLocalStorage (config c) now key (localStorage c) with
    | (Some localItem, ls) =>
        (Some (data localItem),
         {| config := config c; memoryCache := mapSet key localItem (memoryCache c);
            localStorage := ls |})
    | (None, ls) =>
        (None, {| config := config c; memoryCache := memoryCache c;
                  localStorage := ls |})
    end in
  match mapGet key (memoryCache c) with
  | Some memoryItem =>
      if negb (isExpired now memoryItem) && isVersionValid (config c) memoryItem
      then (Some (data memoryItem), c)
      else fromStorage
  | None => fromStorage
  end.

(** [ttl || this.config.defaultTTL]: an omitted or zero [ttl] gives the
    default. *)
Definition effectiveTTL (cfg : CacheConfig) (ttl' : option Z) : Z :=
  match ttl' with
  | Some t => if t =? 0 then defaultTTL cfg else t
  | None => defaultTTL cfg
  end.

(** [set(namespace, identifier, data, ttl)] at time [now]: the service the
    call leaves behind.  The memory tier is written before
    [setToLocalStorage] runs, so it holds the item also when the call
    throws. *)
Definition set (now : Z) (namespace identifier : string) (d : T) (ttl' : option Z)
    (c : Cache) : Cache :=
  let key := generateKey namespace identifier in
  let item :=
    {| data := d; timestamp := now; ttl := effectiveTTL (config c) ttl';
       version := configVersion (config c) |} in
  {| config := config c;
     memoryCache := mapSet key item (manageMemoryCacheSize (config c) (memoryCache c));
     localStorage := (setToLocalStorage key item (localStorage c)).2 |}.

(** What that call of [set] throws, if it throws. *)
Definition setThrown (now : Z) (namespace identifier : string) (d : T)
    (ttl' : option Z) (c : Cache) : option Thrown :=
  let key := generateKey namespace identifier in
  let item :=
    {| data := d; timestamp := now; ttl := effectiveTTL (config c) ttl';
       version := configVersion (config c) |} in
  (setToLocalStorage key item (localStorage c)).1.

(** [remove(namespace, identifier)]. *)
Definition remove (namespace identifier : string) (c : Cache) : Cache :=
  let key := generateKey namespace identifier in
  {| config := config c; memoryCache := mapDelete key (memoryCache c);
     localStorage := delete key (localStorage c) |}.

(** A fresh service over an empty [localStorage]. *)
Definition emptyCache (cfg : CacheConfig) : Cache :=
  {| config := cfg; memoryCache := []; localStorage := ∅ |}.

(** [clearNamespace(namespace)]: every key that starts with the prefix of
    the namespace leaves both tiers. *)
Definition clearNamespace (namespace : string) (c : Cache) : Cache :=
  let prefix := "cache_" +:+ namespace +:+ "_" in
  {| config := config c;
     memoryCache :=
       List.filter (fun kv => negb (String.prefix prefix kv.1)) (memoryCache c);
     localStorage :=
       filter (fun kv => String.prefix prefix kv.1 = false) (localStorage c) |}.

(** [clearAll()]: the memory tier is emptied, and the keys of the cache
    leave [localStorage]. *)
Definition clearAll (c : Cache) : Cache :=
  {| config := config c; memoryCache := [];
     localStorage :=
       filter (fun kv => String.prefix "cache_" kv.1 = false) (localStorage c) |}.

(** [has(namespace, identifier)]: a [get] whose data is dropped. *)
Definition has (now : Z) (namespace identifier : string) (c : Cache) : bool * Cache :=
  match get now namespace identifier c with
  | (Some _, c') => (true, c')
  | (None, c') => (false, c')
  end.

(** The item [updateTTL] writes back: new [ttl], [timestamp] reset. *)
Definition renewed (now newTTL : Z) (item : CacheItem) : CacheItem :=
  {| data := data item; timestamp := now; ttl := newTTL; version := version item |}.

(** [updateTTL(namespace, identifier, newTTL)] at time [now].  The item of
    the memory tier is changed in place, whatever its age and version, and
    before [setToLocalStorage] runs. *)
Definition updateTTL (now : Z) (namespace identifier : string) (newTTL : Z) (c : Cache)
    : Returned bool * Cache :=
  let key := generateKey namespace identifier in
  let written (item' : CacheItem) (ls : gmap string (Stored CacheItem)) :=
    match setToLocalStorage key item' ls with
    | (Some e, ls') =>
        (Raised e,
         {| config := config c; memoryCache := mapSet key item' (memoryCache c);
            localStorage := ls' |})
    | (None, ls') =>
        (Value true,
         {| config := config c; memoryCache := mapSet key item' (memoryCache c);
            localStorage := ls' |})
    end in
  match mapGet key (memoryCache c) with
  | Some memoryItem => written (renewed now newTTL memoryItem) (localStorage c)
  | None =>
      match getFromLocalStorage (config c) now key (localStorage c) with
      | (Some localItem, ls) => written (renewed now newTTL localItem) ls
      | (None, ls) =>
          (Value false,
           {| config := config c; memoryCache := memoryCache c; localStorage := ls |})
      end
  end.

(** The item [updateTTL] finds: that of the memory tier, else the valid
    one of [localStorage]. *)
Definition heldItem (now : Z) (namespace identifier : string) (c : Cache)
    : option CacheItem :=
  let key := generateKey namespace identifier in
  match mapGet key (memoryCache c) with
  | Some memoryItem => Some memoryItem
  | None => (getFromLocalStorage (config c) now key (localStorage c)).1
  end.

(** The calls of the public interface and the service they leave behind. *)
Inductive Call :=
| CallGet (namespace identifier : string)
| CallHas (namespace identifier : string)
| CallSet (namespace identifier : string) (d : T) (ttl' : option Z)
| CallRemove (namespace identifier : string)
| CallClearNamespace (namespace : string)
| CallClearAll
| CallUpdateTTL (namespace identifier : string) (newTTL : Z).

Definition call (c : Cache) (timed : Z * Call) : Cache :=
  match timed with
  | (now, CallGet namespace identifier) => (get now namespace identifier c).2
  | (now, CallHas namespace identifier) => (has now namespace identifier c).2
  | (now, CallSet namespace identifier d ttl') => set now namespace identifier d ttl' c
  | (_, CallRemove namespace identifier) => remove namespace identifier c
  | (_, CallClearNamespace namespace) => clearNamespace namespace c
  | (_, CallClearAll) => clearAll c
  | (now, CallUpdateTTL namespace identifier newTTL) =>
      (updateTTL now namespace identifier newTTL c).2
  end.

Definition calls (timedCalls : list (Z * Call)) (c : Cache) : Cache :=
  foldl call c timedCalls.

(** The service a page load constructs with the configuration [cfg]: a new
    memory tier over the [localStorage] the previous page left. *)
Definition reloaded (cfg : CacheConfig) (c : Cache) : Cache :=
  {| config := cfg; memoryCache := []; localStorage := localStorage c |}.

End WithPayload.

Arguments CacheItem : clear implicits.
Arguments Cache : clear implicits.
Arguments Call : clear implicits.

(** A tier of four entries under a [maxSize] of four: the [set] of a fifth
    key evicts the entry with the oldest [timestamp], which is the second
    of the tier, and stores the new one last. *)
Definition fullTier : Cache nat :=
  let entry (t : Z) (n : nat) :=
    {| data := n; timestamp := t;
       ttl := 300000; version := "1.0.0" |} in
  {| config :=
       {| defaultTTL := 300000; maxSize := 4;
          configVersion := "1.0.0" |};
     memoryCache :=
       [("cache_products_a", entry 3 1%nat); ("cache_products_b", entry 1 2%nat);
        ("cache_products_c", entry 4 3%nat); ("cache_products_d", entry 2 4%nat)];
     localStorage := ∅ |}.

(** A service whose [localStorage] holds the list [9] under the key of
    the catalog, written at time 0 and valid for 1000000 ms. *)
Definition holdingNine : Cache (list nat) :=
  {| config := singletonConfig; memoryCache := [];
     localStorage :=
       {[ generateKey "products" "all" :=
            Json {| data := [9%nat]; timestamp := 0; ttl := 1000000;
                    version := "1.0.0" |} ]} |}.

End CacheService.

(** ** The single-tier cache service (the second [CacheService] class, with
    the time to live in minutes) *)

Module MemoryCacheService.

Section WithPayload.

Context {T : Type}.

Record CacheItem := mkCacheItem {
  data : T;
  timestamp : Z;
  ttl : Z
}.

(** [set(key, data, ttlMinutes = 5)]. *)
Definition set (now : Z) (key : string) (d : T) (ttlMinutes : option Z)
    (cache : gmap string CacheItem) : gmap string CacheItem :=
  let ttl' := default 5 ttlMinutes * 60 * 1000 in
  <[key := {| data := d; timestamp := now; ttl := ttl' |}]> cache.

(** [get(key)]: an entry past its time to live is deleted and missed. *)
Definition get (now : Z) (key : string) (cache : gmap string CacheItem)
    : option T * gmap string CacheItem :=
  match cache !! key with
  | None => (None, cache)
  | Some item =>
      if now - timestamp item >? ttl item then (None, delete key cache)
      else (Some (data item), cache)
  end.

(** [has(key)]: the test of [get] without the data. *)
Definition has (now : Z) (key : string) (cache : gmap string CacheItem)
    : bool * gmap string CacheItem :=
  match cache !! key with
  | None => (false, cache)
  | Some item =>
      if now - timestamp item >? ttl item then (false, delete key cache)
      else (true, cache)
  end.

(** [cleanup()], run every ten minutes: the entries past their time to
    live are deleted. *)
Definition cleanup (now : Z) (cache : gmap string CacheItem) : gmap string CacheItem :=
  filter (fun kv => (now - timestamp kv.2 >? ttl kv.2) = false) cache.

End WithPayload.

Arguments CacheItem : clear implicits.

End MemoryCacheService.


(** ** Loading the catalog ([useProductsAPI]): fetch, retry, cache fallback *)

Module ProductsAPI.

Import CacheService.

Definition MAX_RETRY_ATTEMPTS : nat := 3.
Definition INITIAL_RETRY_DELAY : Z := 1000.
Definition REQUEST_TIMEOUT : Z := 10000.
Definition DEFAULT_CACHE_TTL : Z := 5 * 60 * 1000.
Definition PRODUCTS_CACHE_KEY : string := "all_products".
Definition PRODUCTS : string := "products".

(** What one [fetch(API_URL)] comes to: a response with its status and
    body, a rejected promise (no connectivity), or the abort of the timeout
    controller. *)
Inductive Body (P : Type) :=
| Dados (dados : list P)
| InvalidShape
| NotJson.
Arguments Dados {P} dados.
Arguments InvalidShape {P}.
Arguments NotJson {P}.

Inductive HttpResult (P : Type) :=
| Response (status : Z) (body : Body P)
| Rejected
| Aborted.
Arguments Response {P} status body.
Arguments Rejected {P}.
Arguments Aborted {P}.

(** The errors one attempt throws, named after their messages. *)
Inductive FetchError :=
| ErroDesconhecido
| ErroDoServidor (status : Z)
| EndpointNaoEncontrado
| AcessoNegado
| ErroHTTP (status : Z)
| FormatoDeRespostaInvalido
| TimeoutNaRequisicao
| FalhaDeRede
| JsonInvalido.

Inductive Attempt (A : Type) :=
| Resolved (value : A)
| Failed (error : FetchError).
Arguments Resolved {A} value.
Arguments Failed {A} error.

(** [response.ok]. *)
Definition ok (status : Z) : bool := (200 <=? status) && (status <=? 299).

Section WithProduct.

(** [P] is a product as the external API sends it, [N] a normalized one. *)
Context {P N : Type} (normalizeProduct : P → N).

(** The function [fetchProductsFromAPI] hands to [retryWithBackoff]: one
    request, classified. *)
Definition fetchOnce (r : HttpResult P) : Attempt (list N) :=
  match r with
  | Response status body =>
      if negb (ok status) then
        if status >=? 500 then Failed (ErroDoServidor status)
        else if status =? 404 then Failed EndpointNaoEncontrado
        else if status =? 403 then Failed AcessoNegado
        else Failed (ErroHTTP status)
      else
        match body with
        | Dados dados => Resolved (normalizeProduct <$> dados)
        | InvalidShape => Failed FormatoDeRespostaInvalido
        | NotJson => Failed JsonInvalido
        end
  | Rejected => Failed FalhaDeRede
  | Aborted => Failed TimeoutNaRequisicao
  end.

(** The trace of a retried call: how many times [fn] ran and the waits
    between the runs (before the jitter of up to 10% is added). *)
Record Trace := mkTrace {
  calls : nat;
  waits : list Z
}.

(** The loop of [retryWithBackoff]: [attempt] is the number of the next
    attempt, [remaining] counts the attempts left up to [maxAttempts].
    [fn k] is what the [k]-th call of the retried function comes to. *)
Fixpoint retryLoop {A : Type} (fn : nat → Attempt A) (initialDelay : Z)
    (attempt remaining : nat) (lastError : FetchError) (tr : Trace)
    : Attempt A * Trace :=
  match remaining with
  | O => (Failed lastError, tr)
  | S remaining' =>
      let tr1 := {| calls := S (calls tr); waits := waits tr |} in
      match fn attempt with
      | Resolved value => (Resolved value, tr1)
      | Failed error =>
          match remaining' with
          | O => (Failed error, tr1)
          | S _ =>
              let delay := initialDelay * 2 ^ (Z.of_nat attempt - 1) in
              retryLoop fn initialDelay (S attempt) remaining' error
                {| calls := calls tr1; waits := waits tr1 ++ [delay] |}
          end
      end
  end.

Definition retryWithBackoff {A : Type} (fn : nat → Attempt A) (maxAttempts : nat)
    (initialDelay : Z) : Attempt A * Trace :=
  retryLoop fn initialDelay 1 maxAttempts ErroDesconhecido
    {| calls := 0; waits := [] |}.

(** [fetchProductsFromAPI()] on a network that answers the [k]-th request
    with [network k]. *)
Definition fetchProductsFromAPI (network : nat → HttpResult P)
    : Attempt (list N) * Trace :=
  retryWithBackoff (fun k => fetchOnce (network k)) MAX_RETRY_ATTEMPTS
    INITIAL_RETRY_DELAY.

(** *** The cache helpers of the hook *)

Context (quotaExceeded :
  gmap string (Stored (CacheItem (list N))) → string →
  Stored (CacheItem (list N)) → bool).

Definition getCachedProducts (now : Z) (c : Cache (list N))
    : option (list N) * Cache (list N) :=
  get now PRODUCTS PRODUCTS_CACHE_KEY c.

(** [getExpiredCachedProducts()]: reads [localStorage] directly, under the
    key [`${CACHE_NAMESPACES.PRODUCTS}:${PRODUCTS_CACHE_KEY}`]. *)
Definition expiredCacheKey : string := PRODUCTS +:+ ":" +:+ PRODUCTS_CACHE_KEY.

Definition getExpiredCachedProducts (c : Cache (list N)) : option (list N) :=
  match localStorage c !! expiredCacheKey with
  | Some (Json parsed) => Some (data parsed)
  | Some Unparsable => None
  | None => None
  end.

(** [setCachedProducts(products, cacheTTL)]: the service it leaves, and
    what it throws. *)
Definition setCachedProducts (now : Z) (products : list N) (cacheTTL : Z)
    (c : Cache (list N)) : Cache (list N) :=
  set quotaExceeded now PRODUCTS PRODUCTS_CACHE_KEY products (Some cacheTTL) c.

Definition setCachedProductsThrown (now : Z) (products : list N) (cacheTTL : Z)
    (c : Cache (list N)) : option Thrown :=
  setThrown quotaExceeded now PRODUCTS PRODUCTS_CACHE_KEY products (Some cacheTTL) c.

(** The messages [loadProducts] hands to [setError]: its own, the message
    of a fetch error, or the message of an exception of the cache
    service. *)
Inductive ErrorMessage :=
| ConectividadeLimitada
| SemConexao
| NenhumDadoDisponivel
| MensagemDoErro (e : FetchError)
| MensagemDaExcecao (e : Thrown).

(** The part of the hook state [loadProducts] writes, with the cache. *)
Record Hook := mkHook {
  allProducts : list N;
  isLoading : bool;
  error : option ErrorMessage;
  cache : Cache (list N)
}.

(** [loadProducts()]: [now] is the time of the cache read, [later] the time
    the fetched products are cached. *)
Definition loadProducts (cacheTTL now later : Z) (network : nat → HttpResult P)
    (h : Hook) : Hook :=
  let '(cached, c1) := getCachedProducts now (cache h) in
  match cached with
  | Some products =>
      {| allProducts := products; isLoading := false; error := None; cache := c1 |}
  | None =>
      match fetchProductsFromAPI network with
      | (Resolved products, _) =>
          let c2 := setCachedProducts later products cacheTTL c1 in
          match setCachedProductsThrown later products cacheTTL c1 with
          | None =>
              {| allProducts := products; isLoading := false; error := None;
                 cache := c2 |}
          | Some thrown =>
              (* the inner [catch] takes the exception for an [apiError] *)
              match getExpiredCachedProducts c2 with
              | Some expired =>
                  {| allProducts := expired; isLoading := false;
                     error := Some ConectividadeLimitada; cache := c2 |}
              | None =>
                  match getExpiredCachedProducts c2 with
                  | Some fallbackProducts =>
                      {| allProducts := fallbackProducts; isLoading := false;
                         error := Some SemConexao; cache := c2 |}
                  | None =>
                      {| allProducts := allProducts h; isLoading := false;
                         error := Some (MensagemDaExcecao thrown); cache := c2 |}
                  end
              end
          end
      | (Failed apiError, _) =>
          match getExpiredCachedProducts c1 with
          | Some products =>
              {| allProducts := products; isLoading := false;
                 error := Some ConectividadeLimitada; cache := c1 |}
          | None =>
              (* [throw apiError], caught by the outer handler *)
              match getExpiredCachedProducts c1 with
              | Some fallbackProducts =>
                  {| allProducts := fallbackProducts; isLoading := false;
                     error := Some SemConexao; cache := c1 |}
              | None =>
                  {| allProducts := allProducts h; isLoading := false;
                     error := Some (MensagemDoErro apiError); cache := c1 |}
              end
          end
      end
  end.

(** [refetch()]: the cache entry is removed, then [loadProducts()] runs. *)
Definition refetch (cacheTTL now later : Z) (network : nat → HttpResult P)
    (h : Hook) : Hook :=
  loadProducts cacheTTL now later network
    {| allProducts := allProducts h; isLoading := isLoading h; error := error h;
       cache := remove PRODUCTS PRODUCTS_CACHE_KEY (cache h) |}.

(** What the caller of [loadProducts] is left with, in the words of the
    specification: the products on display and whether they come with a
    degraded-mode warning. *)
Definition degradedWith (products : list N) (h : Hook) : Prop :=
  allProducts h = products ∧
  (error h = Some ConectividadeLimitada ∨ error h = Some SemConexao).

End WithProduct.

End ProductsAPI.

(** ** The retry of the paginated catalog ([useProductsAPIOptimized]) *)

Module ProductsAPIOptimized.

Definition MAX_RETRIES : nat := 3.

(** A JavaScript [Error]: its [name] and its [message]. *)
Record Error := mkError {
  name : string;
  message : string
}.

Inductive Attempt (A : Type) :=
| Resolved (value : A)
| Failed (error : Error).
Arguments Resolved {A} value.
Arguments Failed {A} error.

(** [String.prototype.includes]. *)
Fixpoint includes (needle hay : string) : bool :=
  String.prefix needle hay ||
  match hay with
  | EmptyString => false
  | String _ rest => includes needle rest
  end.

(** [new Error(`HTTP ${response.status}: ${response.statusText}`)]. *)
Definition httpError (status : Z) (statusText : string) : Error :=
  {| name := "Error";
     message := "HTTP " +:+ pretty status +:+ ": " +:+ statusText |}.

(** The test under the comment "no retry on abort errors or HTTP 4xx". *)
Definition notRetried (e : Error) : bool :=
  String.eqb (name e) "AbortError" ||
  (includes "HTTP 4" (message e) && negb (includes "408" (message e))).

(** The loop of this [retryWithBackoff], [attempt] running from [0] to
    [maxRetries]; the result comes with the number of calls of [fn]. *)
Fixpoint retryLoop {A : Type} (fn : nat → Attempt A) (attempt remaining : nat)
    (lastError : option Error) (calls : nat) : option (Attempt A) * nat :=
  match remaining with
  | O => (Failed <$> lastError, calls)
  | S remaining' =>
      match fn attempt with
      | Resolved value => (Some (Resolved value), S calls)
      | Failed error =>
          if notRetried error then (Some (Failed error), S calls)
          else retryLoop fn (S attempt) remaining' (Some error) (S calls)
      end
  end.

Definition retryWithBackoff {A : Type} (fn : nat → Attempt A) (maxRetries : nat)
    : option (Attempt A) * nat :=
  retryLoop fn 0 (S maxRetries) None 0.

(** *** The staleness mark the hook computes on top of the cache service *)

Definition DEFAULT_CACHE_TTL : Z := 10 * 60 * 1000.
Definition STALE_WHILE_REVALIDATE_TTL : Z := 30 * 60 * 1000.

Section WithResponse.

(** [R] is a page of products; the cached payload is [{ data, timestamp }]. *)
Context {R : Type}.
Context (quotaExceeded :
  gmap string (CacheService.Stored (CacheService.CacheItem (R * Z))) → string →
  CacheService.Stored (CacheService.CacheItem (R * Z)) → bool).

(** [setCachedData(cacheKey, data)]: [stamp] is the [Date.now()] of the
    payload, [now] the one [cacheService.set] reads right after. *)
Definition setCachedData (stamp now : Z) (cacheKey : string) (d : R)
    (c : CacheService.Cache (R * Z)) : CacheService.Cache (R * Z) :=
  CacheService.set quotaExceeded now "products" cacheKey (d, stamp)
    (Some DEFAULT_CACHE_TTL) c.

(** [getCachedData(cacheKey)]: the page with its [isStale] mark. *)
Definition getCachedData (now : Z) (cacheKey : string)
    (c : CacheService.Cache (R * Z))
    : option (R * bool) * CacheService.Cache (R * Z) :=
  match CacheService.get now "products" cacheKey c with
  | (None, c') => (None, c')
  | (Some cached, c') =>
      let isStale := now - cached.2 >? DEFAULT_CACHE_TTL in
      let isExpired := now - cached.2 >? STALE_WHILE_REVALIDATE_TTL in
      if isExpired then (None, CacheService.remove "products" cacheKey c')
      else (Some (cached.1, isStale), c')
  end.

End WithResponse.

End ProductsAPIOptimized.


(** ** Cross-tab synchronisation of the cart ([hooks/useCartSync.ts]) *)

Module CartSync.

Import CartStore.

(** The [state] object persisted under ["cart-storage"]: each field may be
    missing from the stored JSON. *)
Record PersistedState := mkPersistedState {
  storedItems : option (list CartItem);
  storedSessionId : option string;
  storedLastUpdated : option Z
}.

(** A value of the ["cart-storage"] entry: [JSON.parse] throws on it, or it
    parses to an object with or without a [state]. *)
Inductive StorageValue :=
| Malformed
| Parsed (state : option PersistedState).

(** The data of a [CART_UPDATED] broadcast: the sender's [lastUpdated]
    (an ISO date, here its epoch milliseconds) and the send time. *)
Record UpdateData := mkUpdateData {
  dataLastUpdated : Z;
  dataTimestamp : Z
}.

(** The refs of one receiving hook: [isUpdatingRef], and
    [lastSyncTimestampRef] (in [useCartSync]) or [lastProcessedTimestampRef]
    (in [useCartStorageSync]). *)
Record Refs := mkRefs {
  isUpdating : bool;
  lastTimestamp : Z
}.

(** A tab: the store, shared, and the refs of each of the two hooks. *)
Record Tab := mkTab {
  store : CartState;
  broadcastRefs : Refs;
  storageRefs : Refs
}.

(** [JSON.stringify(currentState.items) !== JSON.stringify(newState.items) ||
    currentState.sessionId !== newState.sessionId]. *)
Definition hasChanges (current : CartState) (new : PersistedState) : bool :=
  negb (bool_decide (Some (items current) = storedItems new)) ||
  negb (bool_decide (Some (sessionId current) = storedSessionId new)).

(** [x || fallback] on an optional string: the empty string is falsy. *)
Definition orString (x : option string) (fallback : string) : string :=
  match x with
  | Some s => if String.eqb s "" then fallback else s
  | None => fallback
  end.

(** [useCartStore.setState({ items, sessionId, lastUpdated })]: a partial
    update, the other fields of the store stay. *)
Definition setState (now : Z) (new : PersistedState) (current : CartState)
    : CartState :=
  {| items := default [] (storedItems new);
     sessionId := orString (storedSessionId new) (sessionId current);
     isLoading := isLoading current;
     lastUpdated := default now (storedLastUpdated new);
     _itemCount := _itemCount current;
     _totalPrice := _totalPrice current |}.

(** The common tail of both handlers once the incoming timestamp has passed
    the guard. *)
Definition commit (now newTimestamp : Z) (new : PersistedState)
    (h : CartState * Refs) : CartState * Refs :=
  if hasChanges h.1 new then
    (setState now new h.1, {| isUpdating := true; lastTimestamp := newTimestamp |})
  else h.

(** The [catch] of both handlers: [isUpdatingRef.current = false]. *)
Definition caught (h : CartState * Refs) : CartState * Refs :=
  (h.1, {| isUpdating := false; lastTimestamp := lastTimestamp h.2 |}).

(** The body of [debouncedUpdate(data)] once its timer fires: [storage] is
    the ["cart-storage"] entry at that time, [now] the clock. *)
Definition debouncedUpdate (now : Z) (storage : option StorageValue)
    (data : UpdateData) (h : CartState * Refs) : CartState * Refs :=
  if isUpdating h.2 then h
  else
    let newTimestamp := dataLastUpdated data in
    let currentTimestamp := lastUpdated h.1 in
    if (newTimestamp <=? currentTimestamp) || (newTimestamp <=? lastTimestamp h.2)
    then h
    else
      match storage with
      | None => h
      | Some Malformed => caught h
      | Some (Parsed None) => h
      | Some (Parsed (Some newState)) => commit now newTimestamp newState h
      end.

(** The body of [debouncedStorageUpdate(newValue)] once its timer fires. *)
Definition debouncedStorageUpdate (now : Z) (newValue : StorageValue)
    (h : CartState * Refs) : CartState * Refs :=
  if isUpdating h.2 then h
  else
    match newValue with
    | Malformed => caught h
    | Parsed None => h
    | Parsed (Some newState) =>
        let newTimestamp := default 0 (storedLastUpdated newState) in
        let currentTimestamp := lastUpdated h.1 in
        if (newTimestamp <=? currentTimestamp) || (newTimestamp <=? lastTimestamp h.2)
        then h
        else commit now newTimestamp newState h
    end.

(** The incoming messages and their application: a [CART_UPDATED]
    broadcast carrying a [lastUpdated], taken with the ["cart-storage"]
    entry it announces; a storage event for ["cart-storage"] with its new
    value; and anything else (a broadcast of another type or without
    [lastUpdated], a storage event for another key or without a new value),
    which [handleMessage] and [handleStorageChange] let pass. *)
Inductive SyncMessage :=
| Broadcast (storage : option StorageValue) (data : UpdateData)
| StorageEvent (newValue : StorageValue)
| Ignored.

(** The timestamp a handler compares with the local [lastUpdated]. *)
Definition messageTimestamp (m : SyncMessage) : Z :=
  match m with
  | Broadcast _ data => dataLastUpdated data
  | StorageEvent (Parsed (Some newState)) => default 0 (storedLastUpdated newState)
  | StorageEvent _ => 0
  | Ignored => 0
  end.

Definition applyMessage (now : Z) (m : SyncMessage) (t : Tab) : Tab :=
  match m with
  | Broadcast storage data =>
      let h := debouncedUpdate now storage data (store t, broadcastRefs t) in
      {| store := h.1; broadcastRefs := h.2; storageRefs := storageRefs t |}
  | StorageEvent newValue =>
      let h := debouncedStorageUpdate now newValue (store t, storageRefs t) in
      {| store := h.1; broadcastRefs := broadcastRefs t; storageRefs := h.2 |}
  | Ignored => t
  end.

(** The timers that reset the guard of each hook 100 ms after a commit. *)
Definition resetGuard (t : Tab) : Tab :=
  {| store := store t;
     broadcastRefs :=
       {| isUpdating := false; lastTimestamp := lastTimestamp (broadcastRefs t) |};
     storageRefs :=
       {| isUpdating := false; lastTimestamp := lastTimestamp (storageRefs t) |} |}.

(** The messages a tab receives over time, each with the clock value at
    which its debounce timer fires. *)
Definition applyMessages (timed : list (Z * SyncMessage)) (t : Tab) : Tab :=
  foldl (fun t nm => applyMessage nm.1 nm.2 t) t timed.

(** The persisted state a message carries, when it carries one. *)
Definition carried (m : SyncMessage) : option PersistedState :=
  match m with
  | Broadcast (Some (Parsed newState)) _ => newState
  | StorageEvent (Parsed newState) => newState
  | _ => None
  end.

(** What a handler does to the store and its refs: nothing, or a commit,
    after which the guard is set and the incoming timestamp recorded. *)
Definition handled (ts : Z) (h h' : CartState * Refs) : Prop :=
  h' = h ∨ (isUpdating h.2 = false ∧ isUpdating h'.2 = true ∧ lastTimestamp h'.2 = ts).

(** A handler that is applying an update, has seen the timestamp, or holds
    a store at least as recent, returns at once. *)
Definition blocked (ts : Z) (h : CartState * Refs) : Prop :=
  isUpdating h.2 = true ∨ ts ≤ lastUpdated h.1 ∨ ts ≤ lastTimestamp h.2.

(** No hook of the tab is in the middle of applying an update. *)
Definition idle (t : Tab) : Prop :=
  isUpdating (broadcastRefs t) = false ∧ isUpdating (storageRefs t) = false.

(** Example data: a tab holding two units of ["A"], the state another tab
    persisted after raising them to five at time 5, and two broadcasts
    announcing it, one carrying a stale [lastUpdated]. *)
Definition tabWithA : Tab :=
  {| store := storeWithA;
     broadcastRefs := {| isUpdating := false; lastTimestamp := 0 |};
     storageRefs := {| isUpdating := false; lastTimestamp := 0 |} |}.

Definition fiveAs : PersistedState :=
  {| storedItems :=
       Some [ {| id := "A"; product := productA; quantity := 5; addedAt := 0 |} ];
     storedSessionId := Some "cart_0_abc";
     storedLastUpdated := Some 5 |}.

Definition staleMessage : SyncMessage :=
  Broadcast (Some (Parsed (Some fiveAs)))
    {| dataLastUpdated := 0; dataTimestamp := 1 |}.

Definition freshMessage : SyncMessage :=
  Broadcast (Some (Parsed (Some fiveAs)))
    {| dataLastUpdated := 5; dataTimestamp := 6 |}.

End CartSync.

(** ** Validation in the hook over the Convex cart ([useCartAPI]) *)

Module CartAPI.

(** An item of [cartData.items] and a product of the catalog view. *)
Record CartItem := mkCartItem {
  productId : string;
  quantity : Z;
  unitPrice : float
}.

Record Product := mkProduct {
  externalId : string;
  price : float;
  availableQuantity : Z
}.

Inductive CartValidationIssue :=
| product_not_found (productId : string)
| insufficient_stock (productId : string) (availableQuantity : Z)
| price_changed (productId : string) (oldPrice newPrice : float).

Record CartValidation := mkCartValidation {
  isValid : bool;
  hasIssues : bool;
  issues : list CartValidationIssue
}.

(** What the hook holds: the cart the query delivered, the session and the
    last error. *)
Record Hook := mkHook {
  cartData : option (list CartItem);
  sessionId : string;
  error : option string
}.

(** The issues one item contributes. *)
Definition itemIssues (products : list Product) (item : CartItem)
    : list CartValidationIssue :=
  match List.find (fun p => String.eqb (externalId p) (productId item)) products with
  | None => [product_not_found (productId item)]
  | Some product =>
      (if availableQuantity product <? quantity item
       then [insufficient_stock (productId item) (availableQuantity product)]
       else []) ++
      (if (0.01 <? abs (price product - unitPrice item))%float
       then [price_changed (productId item) (unitPrice item) (price product)]
       else [])
  end.

(** [validateCart()]: the hook after the call and the report. *)
Definition validateCart (products : list Product) (h : Hook) : Hook * CartValidation :=
  match cartData h with
  | None | Some [] => (h, {| isValid := true; hasIssues := false; issues := [] |})
  | Some its =>
      let iss := its ≫= itemIssues products in
      (h, {| isValid := bool_decide (length iss = 0%nat);
             hasIssues := bool_decide (0 < length iss)%nat;
             issues := iss |})
  end.

End CartAPI.


(** * Properties *)

(** ** Facts about the array helpers *)

Lemma reduce_add {A : Type} (f : A → Z) (l : list A) (a : Z) :
  reduce (fun acc x => acc + f x) a l = a + foldr (fun x acc => f x + acc) 0 l.
Proof.
  unfold reduce. revert a.
  induction l as [|x l IH]; intros a; simpl; [lia|].
  rewrite IH. lia.
Qed.

Lemma findIndex_None {A : Type} (p : A → bool) (l : list A) :
  findIndex p l = None ↔ Forall (fun x => p x = false) l.
Proof.
  induction l as [|x l IH]; simpl.
  - split; [constructor | done].
  - destruct (p x) eqn:Hp.
    + split; [done|]. intros H. inversion H; congruence.
    + destruct (findIndex p l); simpl.
      * split; [done|]. intros H. inversion H; subst.
        apply IH in H3. done.
      * split; [|done]. intros _. constructor; [done|]. by apply IH.
Qed.

Lemma findIndex_Some {A : Type} (p : A → bool) (l : list A) (i : nat) :
  findIndex p l = Some i → ∃ x, l !! i = Some x ∧ p x = true.
Proof.
  revert i. induction l as [|x l IH]; intros i; simpl; [done|].
  destruct (p x) eqn:Hp.
  - intros [= <-]. eauto.
  - destruct (findIndex p l) as [j|]; simpl; [|done].
    intros [= <-]. simpl. by apply IH.
Qed.

Lemma findFirst_None {A : Type} (p : A → bool) (l : list A) :
  findFirst p l = None ↔ Forall (fun x => p x = false) l.
Proof.
  induction l as [|x l IH]; simpl.
  - split; [constructor | done].
  - destruct (p x) eqn:Hp.
    + split; [done|]. intros H. inversion H; congruence.
    + destruct (findFirst p l); simpl.
      * split; [done|]. intros H. inversion H; subst.
        apply IH in H3. done.
      * split; [|done]. intros _. constructor; [done|]. by apply IH.
Qed.

Lemma findFirst_Some {A : Type} (p : A → bool) (l : list A) (i : nat) (x : A) :
  findFirst p l = Some (i, x) → l !! i = Some x ∧ p x = true.
Proof.
  revert i. induction l as [|y l IH]; intros i; simpl; [done|].
  destruct (p y) eqn:Hp.
  - intros [= <- <-]. eauto.
  - destruct (findFirst p l) as [[j z]|]; simpl; [|done].
    intros [= <- <-]. simpl. by apply IH.
Qed.

(** ** Facts about numbers *)



(** ** The cart store keeps its totals *)

Section StoreTotals.

Import CartStore.

Lemma computeCartValues_sums (its : list CartItem) :
  computeCartValues its = (sumQuantity its, sumAmount its).
Proof.
  unfold computeCartValues, sumQuantity, sumAmount.
  by rewrite (reduce_add quantity).
Qed.









(** The sum follows the order of the cart: three units priced 0.1, 0.2
    and 0.3 come to 0.6000000000000001 in that order and to 0.6 in the
    reverse order. *)
Lemma sumAmount_follows_cart_order :
  let unit (p : float) :=
    {| id := "x";
       product := {| externalId := "x"; name := "x"; price := PriceNumber p;
                     availableQuantity := 1; isActive := true |};
       quantity := 1; addedAt := 0 |} in
  sumAmount [unit 0.1%float; unit 0.2%float; unit 0.3%float] = 0.6000000000000001%float ∧
  sumAmount [unit 0.3%float; unit 0.2%float; unit 0.1%float] = 0.6%float ∧
  0.6000000000000001%float ≠ 0.6%float.
Proof. split; [|split]; [by vm_compute..|]. intros H. discriminate H. Qed.

End StoreTotals.

(** ** The Convex mutations keep the totals of every cart *)

Section ServerTotals.

Import CartOperations.











End ServerTotals.


(** ** Adding, updating and removing items *)

Section StoreItems.

Import CartStore.

Lemma store_add_absent f now p qty state :
  Forall (fun item => id item ≠ externalId (productDataFor f p)) (items state) →
  items (addToCart f now p qty state) =
    items state ++
    [ {| id := externalId (productDataFor f p); product := productDataFor f p;
         quantity := qty; addedAt := now |} ].
Proof.
  intros H. unfold addToCart.
  assert (findIndex (fun item => String.eqb (id item) (externalId (productDataFor f p)))
            (items state) = None) as ->.
  { apply findIndex_None. eapply Forall_impl; [exact H|].
    intros x Hx. by apply String.eqb_neq. }
  by rewrite computeCartValues_sums.
Qed.

Lemma store_add_present f now p qty state :
  Exists (fun item => id item = externalId (productDataFor f p)) (items state) →
  ∃ i existing,
    items state !! i = Some existing ∧
    id existing = externalId (productDataFor f p) ∧
    items (addToCart f now p qty state) =
      <[i := withQuantity (quantity existing + qty) existing]> (items state).
Proof.
  intros H. unfold addToCart.
  destruct (findIndex (fun item => String.eqb (id item) (externalId (productDataFor f p)))
              (items state)) as [i|] eqn:Hfind.
  - destruct (findIndex_Some _ _ _ Hfind) as (existing & Hi & Hid).
    exists i, existing. split; [done|]. split; [by apply String.eqb_eq|].
    rewrite computeCartValues_sums. simpl.
    apply list_eq. intros j. destruct (decide (i = j)) as [<-|Hne].
    + rewrite list_lookup_alter, Hi. simpl. rewrite decide_True by done.
      rewrite list_lookup_insert_eq; [done|]. by eapply lookup_lt_Some.
    + by rewrite list_lookup_alter_ne, list_lookup_insert_ne.
  - apply findIndex_None in Hfind. exfalso.
    apply Exists_exists in H as (x & Hx & Hid).
    rewrite Forall_forall in Hfind. specialize (Hfind x Hx).
    apply String.eqb_neq in Hfind. done.
Qed.

Lemma productDataFor_complete f p :
  needsFetch p = false → productDataFor f p = p.
Proof. intros H. unfold productDataFor. by rewrite H. Qed.

Lemma needsFetch_priced_and_named p n :
  price p = PriceNumber n → falsy n = false → name p ≠ "" → needsFetch p = false.
Proof.
  intros Hp Hn Hname. unfold needsFetch. rewrite Hp, Hn.
  by apply String.eqb_neq in Hname as ->.
Qed.

(** Two additions of one product to the empty cart, when both get product
    data of the same id. *)
Lemma store_scenario_same_id f1 f2 session t0 t1 t2 p :
  externalId (productDataFor f2 p) = externalId (productDataFor f1 p) →
  addToCart f2 t2 p 3 (addToCart f1 t1 p 2 (initialState session t0)) =
  {| items := [ {| id := externalId (productDataFor f1 p);
                   product := productDataFor f1 p; quantity := 5; addedAt := t1 |} ];
     sessionId := session; isLoading := false; lastUpdated := t2;
     _itemCount := 5;
     _totalPrice := (0 + priceNumber (price (productDataFor f1 p)) * 5)%float |}.
Proof.
  intros Hsame. unfold addToCart at 2. simpl.
  unfold addToCart. simpl. rewrite Hsame, String.eqb_refl. done.
Qed.

Lemma store_remove_absent now productId state :
  Forall (fun item => id item ≠ productId) (items state) →
  removeFromCart now productId state = state.
Proof.
  intros H. unfold removeFromCart.
  assert (findIndex (fun item => String.eqb (id item) productId) (items state) = None) as ->.
  { apply findIndex_None. eapply Forall_impl; [exact H|].
    intros x Hx. by apply String.eqb_neq. }
  done.
Qed.

End StoreItems.

Section ServerItems.

Import CartOperations.

Lemma firstSession_lookup sid db ci c :
  firstSession sid db = Some (ci, c) →
  cart_sessions db !! ci = Some c ∧ sessionId c = sid.
Proof.
  intros H. apply findFirst_Some in H as [H1 H2].
  split; [done|]. by apply String.eqb_eq.
Qed.

Lemma patch_lookup ci f db c :
  cart_sessions db !! ci = Some c →
  cart_sessions (patch ci f db) !! ci = Some (f c).
Proof.
  intros H. simpl. rewrite list_lookup_alter, H. simpl. by rewrite decide_True.
Qed.

Lemma server_add_existing_inv now sid pid qty db db' r ci c i existing :
  firstSession sid db = Some (ci, c) →
  findFirst (fun item => String.eqb (productId item) pid) (items c) = Some (i, existing) →
  addToCart now sid pid qty db = Success db' r →
  ∃ product,
    products db !! pid = Some product ∧
    cart_sessions db' !! ci =
      Some (patchSession (accumulated product qty i existing (items c))
              (sumItems (accumulated product qty i existing (items c)))
              (sumValue (accumulated product qty i existing (items c))) now c).
Proof.
  intros Hs Hi. unfold addToCart.
  destruct (products db !! pid) as [product|]; [|done].
  destruct (negb (isActive product)); [done|].
  destruct (availableQuantity product <? qty); [done|].
  destruct (qty <=? 0); [done|].
  rewrite Hs, Hi.
  destruct (availableQuantity product <? _); [done|].
  intros [= <- _]. exists product. split; [done|].
  apply patch_lookup. by apply firstSession_lookup in Hs as [? _].
Qed.

Lemma server_add_existing now sid pid qty db product ci c i existing :
  products db !! pid = Some product →
  isActive product = true →
  0 < qty →
  quantity existing + qty ≤ availableQuantity product →
  qty ≤ availableQuantity product →
  firstSession sid db = Some (ci, c) →
  findFirst (fun item => String.eqb (productId item) pid) (items c) = Some (i, existing) →
  ∃ db', addToCart now sid pid qty db = Success db' (Some ci).
Proof.
  intros Hp Ha Hq Hstock Hstock' Hs Hi. unfold addToCart.
  rewrite Hp, Ha. simpl.
  destruct (Z.ltb_spec (availableQuantity product) qty); [lia|].
  destruct (Z.leb_spec qty 0); [lia|].
  rewrite Hs, Hi.
  destruct (Z.ltb_spec (availableQuantity product) (quantity existing + qty)); [lia|].
  eauto.
Qed.

Lemma server_update_existing_inv now sid pid qty db db' r ci c i old :
  firstSession sid db = Some (ci, c) →
  findFirst (fun item => String.eqb (productId item) pid) (items c) = Some (i, old) →
  updateCartItemQuantity now sid pid qty db = Success db' r →
  ∃ product,
    products db !! pid = Some product ∧
    cart_sessions db' !! ci =
      Some (patchSession (requantified product qty i old (items c))
              (sumItems (requantified product qty i old (items c)))
              (sumValue (requantified product qty i old (items c))) now c).
Proof.
  intros Hs Hi. unfold updateCartItemQuantity.
  destruct (qty <=? 0); [done|].
  destruct (products db !! pid) as [product|]; [|done].
  destruct (negb (isActive product)); [done|].
  destruct (availableQuantity product <? qty); [done|].
  rewrite Hs, Hi.
  intros [= <- _]. exists product. split; [done|].
  apply patch_lookup. by apply firstSession_lookup in Hs as [? _].
Qed.

Lemma server_remove_absent now sid pid db ci c :
  firstSession sid db = Some (ci, c) →
  Forall (fun item => productId item ≠ pid) (items c) →
  removeFromCart now sid pid db = Throw ItemNaoEncontradoNoCarrinho.
Proof.
  intros Hs Habs. unfold removeFromCart. rewrite Hs.
  assert (List.filter (fun item => negb (String.eqb (productId item) pid)) (items c)
          = items c) as ->.
  { induction Habs as [|x l Hx Hl IH]; simpl; [done|].
    apply String.eqb_neq in Hx. rewrite Hx. simpl. by rewrite IH. }
  by rewrite Nat.eqb_refl.
Qed.

Lemma server_update_nonpositive now sid pid qty db :
  qty ≤ 0 →
  updateCartItemQuantity now sid pid qty db = Throw QuantidadeDeveSerMaiorQueZero.
Proof.
  intros H. unfold updateCartItemQuantity.
  destruct (Z.leb_spec qty 0); [done|lia].
Qed.

End ServerItems.

(** C9, in the cart store: the product of Scenario A, [{id: "A", price:
    10}], carries no name, so [addToCart] refetches it.  With the endpoint
    answering a price of 12 the two additions leave one item of quantity 5
    and a total of 60, not 50; and a product whose refetched data carry
    another id is inserted as a second item although its own id is in the
    cart. *)
Lemma C9_store_refetch_decides :
  (let p := {| CartStore.externalId := "A"; CartStore.name := "";
               CartStore.price := CartStore.PriceNumber 10;
               CartStore.availableQuantity := 100; CartStore.isActive := true |} in
   let endpoint := fun _ : string =>
     Some {| CartStore.externalId := "A"; CartStore.name := "Produto A";
             CartStore.price := CartStore.PriceNumber 12;
             CartStore.availableQuantity := 100; CartStore.isActive := true |} in
   let s := CartStore.addToCart endpoint 2 p 3
              (CartStore.addToCart endpoint 1 p 2
                 (CartStore.initialState "cart_0_abc" 0)) in
   length (CartStore.items s) = 1%nat ∧ CartStore._itemCount s = 5 ∧
   CartStore._totalPrice s = 60%float ∧ CartStore._totalPrice s ≠ 50%float) ∧
  (let p := {| CartStore.externalId := "A"; CartStore.name := "";
               CartStore.price := CartStore.PriceNumber 10;
               CartStore.availableQuantity := 100; CartStore.isActive := true |} in
   let endpoint := fun _ : string =>
     Some {| CartStore.externalId := "Z"; CartStore.name := "Produto Z";
             CartStore.price := CartStore.PriceNumber 10;
             CartStore.availableQuantity := 100; CartStore.isActive := true |} in
   let s := CartStore.addToCart endpoint 7 p 3 CartStore.storeWithA in
   CartStore.id <$> CartStore.items s = ["A"; "Z"] ∧
   CartStore.quantity <$> CartStore.items s = [2; 3]).
Proof.
  split.
  - vm_compute. repeat split. discriminate.
  - vm_compute. by split.
Qed.

(** C9, as the code has it.  In the cart store [addToCart] works with the
    product data: the product handed in when it has a truthy price and a
    name or when the refetch fails, else the product the endpoint returns.
    Scenario A (id "A", price 10, quantities 2 and 3) leaves one item "A"
    of quantity 5 and a total of 50 for a product that carries a name; for
    any product, the two additions leave one item of quantity 5 holding the
    product data of the first addition, with the total computed from its
    price, when both additions get product data of the same id, and two
    items of quantities 2 and 3 otherwise.  Adding a product whose product
    data carry an id of the cart changes only the found item, whose
    quantity becomes existing + qty: no second item is inserted.  In the
    Convex mutation, Scenario A holds for an active product with a stock of
    at least 5; a successful [addToCart] of a product of the cart changes
    only the found item, whose quantity becomes existing + qty, and
    [addToCart] succeeds for an active product whose stock covers that
    quantity. *)
Theorem C9_adding_a_present_id_accumulates :
  (∀ f1 f2 session t0 t1 t2 p,
     CartStore.externalId p = "A" → CartStore.price p = CartStore.PriceNumber 10 →
     CartStore.name p ≠ "" →
     let s := CartStore.addToCart f2 t2 p 3
                (CartStore.addToCart f1 t1 p 2 (CartStore.initialState session t0)) in
     CartStore.items s =
       [ {| CartStore.id := "A"; CartStore.product := p;
            CartStore.quantity := 5; CartStore.addedAt := t1 |} ] ∧
     CartStore._itemCount s = 5 ∧ CartStore._totalPrice s = 50%float) ∧
  (∀ f1 f2 session t0 t1 t2 p,
     let s := CartStore.addToCart f2 t2 p 3
                (CartStore.addToCart f1 t1 p 2 (CartStore.initialState session t0)) in
     let first := CartStore.productDataFor f1 p in
     let second := CartStore.productDataFor f2 p in
     (CartStore.externalId second = CartStore.externalId first →
      CartStore.items s =
        [ {| CartStore.id := CartStore.externalId first; CartStore.product := first;
             CartStore.quantity := 5; CartStore.addedAt := t1 |} ] ∧
      CartStore._itemCount s = 5 ∧
      CartStore._totalPrice s =
        (0 + CartStore.priceNumber (CartStore.price first) * 5)%float) ∧
     (CartStore.externalId second ≠ CartStore.externalId first →
      CartStore.items s =
        [ {| CartStore.id := CartStore.externalId first; CartStore.product := first;
             CartStore.quantity := 2; CartStore.addedAt := t1 |};
          {| CartStore.id := CartStore.externalId second; CartStore.product := second;
             CartStore.quantity := 3; CartStore.addedAt := t2 |} ])) ∧
  (∀ f now p qty state,
     Exists (fun item => CartStore.id item =
                         CartStore.externalId (CartStore.productDataFor f p))
       (CartStore.items state) →
     ∃ i existing,
       CartStore.items state !! i = Some existing ∧
       CartStore.id existing = CartStore.externalId (CartStore.productDataFor f p) ∧
       CartStore.items (CartStore.addToCart f now p qty state) =
         <[i := CartStore.withQuantity (CartStore.quantity existing + qty) existing]>
           (CartStore.items state) ∧
       length (CartStore.items (CartStore.addToCart f now p qty state)) =
         length (CartStore.items state)) ∧
  (∀ ps product sid t1 t2,
     ps !! "A" = Some product →
     CartOperations.price product = 10%float →
     CartOperations.isActive product = true →
     5 ≤ CartOperations.availableQuantity product →
     CartOperations.cart_sessions
       (CartOperations.runSteps
          [ CartOperations.Mutate (CartOperations.AddToCart t1 sid "A" 2);
            CartOperations.Mutate (CartOperations.AddToCart t2 sid "A" 3) ]
          (CartOperations.noCarts ps)) =
       [ {| CartOperations.sessionId := sid;
            CartOperations.items :=
              [ {| CartOperations.productId := "A"; CartOperations.quantity := 5;
                   CartOperations.unitPrice := 10%float |} ];
            CartOperations.totalItems := 5; CartOperations.totalAmount := 50%float;
            CartOperations.createdAt := t1; CartOperations.updatedAt := t2 |} ]) ∧
  (∀ now sid pid qty db db' r ci c i existing,
     CartOperations.firstSession sid db = Some (ci, c) →
     findFirst (fun item => String.eqb (CartOperations.productId item) pid)
       (CartOperations.items c) = Some (i, existing) →
     CartOperations.addToCart now sid pid qty db = CartOperations.Success db' r →
     ∃ c' item',
       CartOperations.cart_sessions db' !! ci = Some c' ∧
       length (CartOperations.items c') = length (CartOperations.items c) ∧
       CartOperations.items c' !! i = Some item' ∧
       CartOperations.productId item' = CartOperations.productId existing ∧
       CartOperations.quantity item' = CartOperations.quantity existing + qty ∧
       ∀ j, j ≠ i → CartOperations.items c' !! j = CartOperations.items c !! j) ∧
  (∀ now sid pid qty db product ci c i existing,
     CartOperations.products db !! pid = Some product →
     CartOperations.isActive product = true →
     0 < qty →
     CartOperations.quantity existing + qty ≤ CartOperations.availableQuantity product →
     qty ≤ CartOperations.availableQuantity product →
     CartOperations.firstSession sid db = Some (ci, c) →
     findFirst (fun item => String.eqb (CartOperations.productId item) pid)
       (CartOperations.items c) = Some (i, existing) →
     ∃ db', CartOperations.addToCart now sid pid qty db =
              CartOperations.Success db' (Some ci)).
Proof.
  split; [|split; [|split; [|split; [|split]]]]; [| | | | |by apply server_add_existing].
  - intros f1 f2 session t0 t1 t2 p Hid Hp Hn s. subst s.
    assert (CartStore.needsFetch p = false) as Hfetch
      by (by apply (needsFetch_priced_and_named p 10)).
    rewrite (store_scenario_same_id f1 f2 session t0 t1 t2 p);
      rewrite !(productDataFor_complete _ p Hfetch); [|done].
    rewrite Hid, Hp. by repeat split.
  - intros f1 f2 session t0 t1 t2 p s first second. subst s first second. split.
    + intros Hsame. rewrite (store_scenario_same_id f1 f2 session t0 t1 t2 p Hsame).
      by repeat split.
    + intros Hother. unfold CartStore.addToCart at 2. simpl.
      unfold CartStore.addToCart. simpl.
      assert (String.eqb (CartStore.externalId (CartStore.productDataFor f1 p))
                (CartStore.externalId (CartStore.productDataFor f2 p)) = false) as ->
        by (apply String.eqb_neq; congruence).
      done.
  - intros f now p qty state H.
    destruct (store_add_present f now p qty state H) as (i & existing & Hi & Hid & Heq).
    exists i, existing. repeat split; try done.
    rewrite Heq. apply length_insert.
  - intros ps product sid t1 t2 Hps Hp Ha Hstock.
    unfold CartOperations.runSteps. simpl.
    unfold CartOperations.after at 2. simpl.
    unfold CartOperations.addToCart at 1. simpl. rewrite Hps, Ha. simpl.
    destruct (Z.ltb_spec (CartOperations.availableQuantity product) 2); [lia|].
    unfold CartOperations.firstSession. simpl.
    unfold CartOperations.after. simpl.
    unfold CartOperations.addToCart. simpl. rewrite Hps, Ha. simpl.
    destruct (Z.ltb_spec (CartOperations.availableQuantity product) 3); [lia|].
    unfold CartOperations.firstSession. simpl. rewrite String.eqb_refl. simpl.
    destruct (Z.ltb_spec (CartOperations.availableQuantity product) (2 + 3)); [lia|].
    simpl. rewrite Hp. done.
  - intros now sid pid qty db db' r ci c i existing Hs Hi Hadd.
    destruct (server_add_existing_inv _ _ _ _ _ _ _ _ _ _ _ Hs Hi Hadd)
      as (product & Hp & Hc').
    apply findFirst_Some in Hi as [Hi _].
    eexists _, _. split; [exact Hc'|]. simpl.
    unfold CartOperations.accumulated.
    split; [apply length_insert|].
    split; [apply list_lookup_insert_eq; by eapply lookup_lt_Some|].
    repeat split. intros j Hj. by apply list_lookup_insert_ne.
Qed.

Lemma C9_adding_a_present_id_accumulates_witness :
  (let s := CartStore.addToCart (fun _ => None) 2 CartStore.productA 3
              (CartStore.addToCart (fun _ => None) 1 CartStore.productA 2
                 (CartStore.initialState "cart_0_abc" 0)) in
   CartStore.items s =
     [ {| CartStore.id := "A"; CartStore.product := CartStore.productA;
          CartStore.quantity := 5; CartStore.addedAt := 1 |} ] ∧
   CartStore._itemCount s = 5 ∧ CartStore._totalPrice s = 50%float) ∧
  (∃ i existing,
     CartStore.items CartStore.storeWithA !! i = Some existing ∧
     CartStore.id existing = "A" ∧
     CartStore.items
       (CartStore.addToCart (fun _ => None) 7 CartStore.productA 3 CartStore.storeWithA) =
       <[i := CartStore.withQuantity (CartStore.quantity existing + 3) existing]>
         (CartStore.items CartStore.storeWithA) ∧
     length (CartStore.items
       (CartStore.addToCart (fun _ => None) 7 CartStore.productA 3 CartStore.storeWithA)) =
       1%nat) ∧
  (∃ c' item',
     CartOperations.cart_sessions
       (CartOperations.after (CartOperations.AddToCart 7 "s" "A" 3)
          (CartOperations.cartWithA 10 100)) !! 0%nat = Some c' ∧
     length (CartOperations.items c') = 1%nat ∧
     CartOperations.items c' !! 0%nat = Some item' ∧
     CartOperations.productId item' = "A" ∧
     CartOperations.quantity item' = 2 + 3 ∧
     ∀ j, j ≠ 0%nat → CartOperations.items c' !! j =
       [ CartOperations.twoAs ] !! j) ∧
  (∃ db', CartOperations.addToCart 7 "s" "A" 3 (CartOperations.cartWithA 10 100) =
            CartOperations.Success db' (Some 0%nat)) ∧
  CartOperations.cart_sessions
    (CartOperations.runSteps
       [ CartOperations.Mutate (CartOperations.AddToCart 1 "s" "A" 2);
         CartOperations.Mutate (CartOperations.AddToCart 2 "s" "A" 3) ]
       (CartOperations.noCarts (CartOperations.catalogA 10 100))) =
    [ {| CartOperations.sessionId := "s";
         CartOperations.items :=
           [ {| CartOperations.productId := "A"; CartOperations.quantity := 5;
                CartOperations.unitPrice := 10%float |} ];
         CartOperations.totalItems := 5; CartOperations.totalAmount := 50%float;
         CartOperations.createdAt := 1; CartOperations.updatedAt := 2 |} ].
Proof.
  destruct C9_adding_a_present_id_accumulates
    as (Hscen & _ & Hgen & Hscen' & Hsrv & Htot).
  split; [|split; [|split; [|split]]].
  - apply Hscen; [reflexivity | reflexivity | discriminate].
  - apply (Hgen (fun _ => None) 7 CartStore.productA 3 CartStore.storeWithA).
    constructor. reflexivity.
  - apply (Hsrv 7 "s" "A" 3 (CartOperations.cartWithA 10 100)
             (CartOperations.after (CartOperations.AddToCart 7 "s" "A" 3)
                (CartOperations.cartWithA 10 100))
             (Some 0%nat) 0%nat CartOperations.sessionS 0%nat CartOperations.twoAs);
      reflexivity.
  - apply (Htot 7 "s" "A" 3 (CartOperations.cartWithA 10 100)
             (CartOperations.productAt 10 100) 0%nat CartOperations.sessionS
             0%nat CartOperations.twoAs);
      first [reflexivity | simpl; lia].
  - apply (Hscen' (CartOperations.catalogA 10 100)
             (CartOperations.productAt 10 100) "s" 1 2);
      first [reflexivity | simpl; lia].
Defined.

(** C4, on the Convex mutation: a quantity of zero sent to
    updateCartItemQuantity is rejected with "Quantidade deve ser maior que
    zero" and the item stays, whereas removeFromCart takes it out of the
    cart. *)
Lemma C4_server_rejects_zero_quantity :
  CartOperations.updateCartItemQuantity 5 "s" "A" 0 (CartOperations.cartWithA 10 100) =
    CartOperations.Throw CartOperations.QuantidadeDeveSerMaiorQueZero ∧
  CartOperations.after (CartOperations.UpdateCartItemQuantity 5 "s" "A" 0)
    (CartOperations.cartWithA 10 100) ≠
  CartOperations.after (CartOperations.RemoveFromCart 5 "s" "A")
    (CartOperations.cartWithA 10 100).
Proof.
  split; [reflexivity|].
  intros H. apply (f_equal CartOperations.cart_sessions) in H.
  vm_compute in H. discriminate H.
Qed.

(** C4, as the code has it.  In the cart store, updateQuantity with a
    quantity of zero or less gives exactly the state removeFromCart gives
    for the same id, and raises nothing.  The Convex mutation
    updateCartItemQuantity rejects such a quantity with "Quantidade deve ser
    maior que zero" and writes nothing. *)
Theorem C4_update_to_nonpositive_quantity :
  ∀ now productId qty state now' sid pid db,
    qty ≤ 0 →
    CartStore.updateQuantity now productId qty state =
      CartStore.removeFromCart now productId state ∧
    CartOperations.updateCartItemQuantity now' sid pid qty db =
      CartOperations.Throw CartOperations.QuantidadeDeveSerMaiorQueZero ∧
    CartOperations.after (CartOperations.UpdateCartItemQuantity now' sid pid qty) db = db.
Proof.
  intros now productId qty state now' sid pid db Hq.
  split; [|split].
  - unfold CartStore.updateQuantity. by destruct (Z.leb_spec qty 0); [|lia].
  - by apply server_update_nonpositive.
  - unfold CartOperations.after. simpl. by rewrite server_update_nonpositive.
Qed.

Lemma C4_update_to_nonpositive_quantity_witness :
  CartStore.updateQuantity 5 "A" 0 CartStore.storeWithA =
    CartStore.removeFromCart 5 "A" CartStore.storeWithA ∧
  CartOperations.updateCartItemQuantity 5 "s" "A" 0 (CartOperations.cartWithA 10 100) =
    CartOperations.Throw CartOperations.QuantidadeDeveSerMaiorQueZero ∧
  CartOperations.after (CartOperations.UpdateCartItemQuantity 5 "s" "A" 0)
    (CartOperations.cartWithA 10 100) = CartOperations.cartWithA 10 100.
Proof.
  apply (C4_update_to_nonpositive_quantity 5 "A" 0 CartStore.storeWithA 5 "s" "A"
           (CartOperations.cartWithA 10 100)).
  lia.
Defined.

(** C7, on the Convex mutation: removing an id the cart does not hold
    throws "Item nao encontrado no carrinho". *)
Lemma C7_server_remove_absent_throws :
  CartOperations.removeFromCart 5 "s" "B" (CartOperations.cartWithA 10 100) =
    CartOperations.Throw CartOperations.ItemNaoEncontradoNoCarrinho.
Proof. reflexivity. Qed.

(** C7, as the code has it.  In the cart store, removeFromCart of an id
    that is not in the cart returns the state as it was: items, totals,
    session id and lastUpdated are untouched and nothing is raised.  The
    Convex mutation removeFromCart, for a session whose cart lacks the id,
    throws "Item nao encontrado no carrinho" and writes nothing. *)
Theorem C7_removing_an_absent_id :
  ∀ now productId state now' sid pid db ci c,
    Forall (fun item => CartStore.id item ≠ productId) (CartStore.items state) →
    CartOperations.firstSession sid db = Some (ci, c) →
    Forall (fun item => CartOperations.productId item ≠ pid) (CartOperations.items c) →
    CartStore.removeFromCart now productId state = state ∧
    CartOperations.removeFromCart now' sid pid db =
      CartOperations.Throw CartOperations.ItemNaoEncontradoNoCarrinho ∧
    CartOperations.after (CartOperations.RemoveFromCart now' sid pid) db = db.
Proof.
  intros now productId state now' sid pid db ci c Hst Hs Habs.
  split; [by apply store_remove_absent|].
  pose proof (server_remove_absent now' sid pid db ci c Hs Habs) as Hthrow.
  split; [done|]. unfold CartOperations.after. simpl. by rewrite Hthrow.
Qed.

Lemma C7_removing_an_absent_id_witness :
  CartStore.removeFromCart 5 "B" CartStore.storeWithA = CartStore.storeWithA ∧
  CartOperations.removeFromCart 5 "s" "B" (CartOperations.cartWithA 10 100) =
    CartOperations.Throw CartOperations.ItemNaoEncontradoNoCarrinho ∧
  CartOperations.after (CartOperations.RemoveFromCart 5 "s" "B")
    (CartOperations.cartWithA 10 100) = CartOperations.cartWithA 10 100.
Proof.
  apply (C7_removing_an_absent_id 5 "B" CartStore.storeWithA 5 "s" "B"
           (CartOperations.cartWithA 10 100) 0%nat
           CartOperations.sessionS).
  - repeat constructor. discriminate.
  - reflexivity.
  - repeat constructor. discriminate.
Defined.

(** C10. When the Convex addToCart succeeds on a product the cart already
    holds, and when updateCartItemQuantity succeeds, the stored item takes
    the catalog price of the product at that time as its unit price,
    whatever unit price it carried before.  Both happen: for an active
    product with enough stock and a positive quantity,
    updateCartItemQuantity succeeds and leaves the item with the requested
    quantity at the catalog price, and addToCart (when the stock also
    covers the accumulated quantity) succeeds and leaves the item with the
    accumulated quantity at the catalog price. *)
Theorem C10_unit_price_follows_the_catalog :
  ∀ now sid pid qty db ci c i existing,
    CartOperations.firstSession sid db = Some (ci, c) →
    findFirst (fun item => String.eqb (CartOperations.productId item) pid)
      (CartOperations.items c) = Some (i, existing) →
    (∀ db' r,
       CartOperations.addToCart now sid pid qty db = CartOperations.Success db' r ∨
       CartOperations.updateCartItemQuantity now sid pid qty db =
         CartOperations.Success db' r →
       ∃ product c' item',
         CartOperations.products db !! pid = Some product ∧
         CartOperations.cart_sessions db' !! ci = Some c' ∧
         CartOperations.items c' !! i = Some item' ∧
         CartOperations.productId item' = CartOperations.productId existing ∧
         CartOperations.unitPrice item' = CartOperations.price product) ∧
    (∀ product,
       CartOperations.products db !! pid = Some product →
       CartOperations.isActive product = true →
       0 < qty →
       qty ≤ CartOperations.availableQuantity product →
       (∃ db' c',
          CartOperations.updateCartItemQuantity now sid pid qty db =
            CartOperations.Success db' None ∧
          CartOperations.cart_sessions db' !! ci = Some c' ∧
          CartOperations.items c' !! i =
            Some {| CartOperations.productId := CartOperations.productId existing;
                    CartOperations.quantity := qty;
                    CartOperations.unitPrice := CartOperations.price product |}) ∧
       (CartOperations.quantity existing + qty
          ≤ CartOperations.availableQuantity product →
        ∃ db' c',
          CartOperations.addToCart now sid pid qty db =
            CartOperations.Success db' (Some ci) ∧
          CartOperations.cart_sessions db' !! ci = Some c' ∧
          CartOperations.items c' !! i =
            Some {| CartOperations.productId := CartOperations.productId existing;
                    CartOperations.quantity := CartOperations.quantity existing + qty;
                    CartOperations.unitPrice := CartOperations.price product |})).
Proof.
  intros now sid pid qty db ci c i existing Hs Hi.
  pose proof (findFirst_Some _ _ _ _ Hi) as [Hlookup _].
  pose proof (firstSession_lookup _ _ _ _ Hs) as [Hci _].
  split.
  - intros db' r [Hadd|Hupd].
    + destruct (server_add_existing_inv _ _ _ _ _ _ _ _ _ _ _ Hs Hi Hadd)
        as (product & Hp & Hc').
      eexists product, _, _. split; [done|]. split; [exact Hc'|]. simpl.
      split.
      { unfold CartOperations.accumulated.
        apply list_lookup_insert_eq. by eapply lookup_lt_Some. }
      done.
    + destruct (server_update_existing_inv _ _ _ _ _ _ _ _ _ _ _ Hs Hi Hupd)
        as (product & Hp & Hc').
      eexists product, _, _. split; [done|]. split; [exact Hc'|]. simpl.
      split.
      { unfold CartOperations.requantified.
        apply list_lookup_insert_eq. by eapply lookup_lt_Some. }
      done.
  - intros product Hp Ha Hqty Hstock. split.
    + unfold CartOperations.updateCartItemQuantity. rewrite Hp, Ha. simpl.
      destruct (Z.leb_spec qty 0); [lia|].
      destruct (Z.ltb_spec (CartOperations.availableQuantity product) qty); [lia|].
      rewrite Hs, Hi. eexists _, _. split; [reflexivity|].
      split; [by apply patch_lookup|]. simpl.
      apply list_lookup_insert_eq. by eapply lookup_lt_Some.
    + intros Hsum. unfold CartOperations.addToCart. rewrite Hp, Ha. simpl.
      destruct (Z.ltb_spec (CartOperations.availableQuantity product) qty); [lia|].
      destruct (Z.leb_spec qty 0); [lia|].
      rewrite Hs, Hi.
      destruct (Z.ltb_spec (CartOperations.availableQuantity product)
                  (CartOperations.quantity existing + qty)); [lia|].
      eexists _, _. split; [reflexivity|].
      split; [by apply patch_lookup|]. simpl.
      apply list_lookup_insert_eq. by eapply lookup_lt_Some.
Qed.

(** The session holds two units of "A" bought at 10 and the catalog now
    lists "A" at 12: updateCartItemQuantity to 3 units leaves the item with
    3 units at 12, and addToCart of 3 units leaves it with 5 units at 12. *)
Lemma C10_unit_price_follows_the_catalog_witness :
  (∃ product c' item',
     CartOperations.products (CartOperations.cartWithA 12 100) !! "A" = Some product ∧
     CartOperations.cart_sessions
       (CartOperations.after (CartOperations.AddToCart 7 "s" "A" 3)
          (CartOperations.cartWithA 12 100)) !! 0%nat = Some c' ∧
     CartOperations.items c' !! 0%nat = Some item' ∧
     CartOperations.productId item' = "A" ∧
     CartOperations.unitPrice item' = CartOperations.price product) ∧
  (∃ product c' item',
     CartOperations.products (CartOperations.cartWithA 12 100) !! "A" = Some product ∧
     CartOperations.cart_sessions
       (CartOperations.after (CartOperations.UpdateCartItemQuantity 7 "s" "A" 3)
          (CartOperations.cartWithA 12 100)) !! 0%nat = Some c' ∧
     CartOperations.items c' !! 0%nat = Some item' ∧
     CartOperations.productId item' = "A" ∧
     CartOperations.unitPrice item' = CartOperations.price product) ∧
  (∃ db' c',
     CartOperations.updateCartItemQuantity 7 "s" "A" 3 (CartOperations.cartWithA 12 100) =
       CartOperations.Success db' None ∧
     CartOperations.cart_sessions db' !! 0%nat = Some c' ∧
     CartOperations.items c' !! 0%nat =
       Some {| CartOperations.productId := "A"; CartOperations.quantity := 3;
               CartOperations.unitPrice := 12%float |}) ∧
  (∃ db' c',
     CartOperations.addToCart 7 "s" "A" 3 (CartOperations.cartWithA 12 100) =
       CartOperations.Success db' (Some 0%nat) ∧
     CartOperations.cart_sessions db' !! 0%nat = Some c' ∧
     CartOperations.items c' !! 0%nat =
       Some {| CartOperations.productId := "A"; CartOperations.quantity := 5;
               CartOperations.unitPrice := 12%float |}).
Proof.
  destruct (C10_unit_price_follows_the_catalog 7 "s" "A" 3
              (CartOperations.cartWithA 12 100) 0%nat CartOperations.sessionS 0%nat
              CartOperations.twoAs eq_refl eq_refl) as [Hany Hsucceeds].
  split; [apply (Hany _ (Some 0%nat)); left; reflexivity|].
  split; [apply (Hany _ None); right; reflexivity|].
  destruct (Hsucceeds (CartOperations.productAt 12 100)) as [Hupd Hadd];
    [reflexivity | reflexivity | lia | vm_compute; discriminate |].
  split; [exact Hupd|]. apply Hadd. vm_compute. discriminate.
Defined.

(** ** Validation *)

Section StoreValidation.

Import CartStore.

Lemma validateItems_lengths f its :
  (length (validateItems f its).1 + length (validateItems f its).2)%nat = length its.
Proof.
  induction its as [|item rest IH]; simpl; [done|].
  destruct (validateItems f rest) as [iss validated]. simpl in IH.
  destruct (f (externalId (product item))) as [productData|]; simpl; [|lia].
  destruct (negb (isActive productData)); simpl; [lia|].
  destruct (availableQuantity productData <? quantity item); simpl; lia.
Qed.

Lemma validateCart_writes f now state :
  (validateCart f now state).1 =
    {| items := (validateItems f (items state)).2;
       sessionId := sessionId state; isLoading := isLoading state;
       lastUpdated := now;
       _itemCount := sumQuantity (validateItems f (items state)).2;
       _totalPrice := sumAmount (validateItems f (items state)).2 |} ∧
  issues (validateCart f now state).2 = (validateItems f (items state)).1.
Proof.
  unfold validateCart. destruct (validateItems f (items state)) as [iss validated].
  by rewrite computeCartValues_sums.
Qed.

End StoreValidation.

(** C5, on the cart store: validating a cart whose product the endpoint no
    longer knows empties the cart (and resets its totals and its
    lastUpdated), besides reporting the issue. *)
Lemma C5_store_validateCart_rewrites_items :
  CartStore.items (CartStore.validateCart (fun _ => None) 9 CartStore.storeWithA).1 = [] ∧
  CartStore._itemCount (CartStore.validateCart (fun _ => None) 9 CartStore.storeWithA).1 = 0 ∧
  CartStore.lastUpdated (CartStore.validateCart (fun _ => None) 9 CartStore.storeWithA).1 = 9 ∧
  (CartStore.validateCart (fun _ => None) 9 CartStore.storeWithA).1 ≠ CartStore.storeWithA.
Proof.
  repeat split. intros H. apply (f_equal CartStore.items) in H. discriminate H.
Qed.

(** C5, as the code has it.  The validateCart of the useCartAPI hook only
    computes its report and changes nothing of the hook: cart, session and
    error stay.  The validateCart of the cart store returns its report and
    also writes the store: the items become those that passed validation
    (one item leaves the cart for each issue reported), both totals are
    recomputed from them and lastUpdated is set to the time of the call;
    only the session id and the loading flag are left as they were. *)
Theorem C5_validation_and_the_cart :
  ∀ products h f now state,
    (CartAPI.validateCart products h).1 = h ∧
    CartStore.sessionId (CartStore.validateCart f now state).1 =
      CartStore.sessionId state ∧
    CartStore.isLoading (CartStore.validateCart f now state).1 =
      CartStore.isLoading state ∧
    CartStore.items (CartStore.validateCart f now state).1 =
      (CartStore.validateItems f (CartStore.items state)).2 ∧
    CartStore.issues (CartStore.validateCart f now state).2 =
      (CartStore.validateItems f (CartStore.items state)).1 ∧
    (length (CartStore.issues (CartStore.validateCart f now state).2) +
     length (CartStore.items (CartStore.validateCart f now state).1))%nat =
      length (CartStore.items state) ∧
    CartStore.lastUpdated (CartStore.validateCart f now state).1 = now ∧
    CartStore.totalsConsistent (CartStore.validateCart f now state).1.
Proof.
  intros products h f now state.
  destruct (validateCart_writes f now state) as [Hst Hiss].
  split.
  { unfold CartAPI.validateCart. destruct (CartAPI.cartData h) as [[|]|]; done. }
  rewrite Hiss, Hst. simpl.
  repeat split. apply validateItems_lengths.
Qed.

(** ** The cache services *)

Section CacheFacts.

Import CacheService.

Context {T : Type}.
Context (quotaExceeded :
  gmap string (Stored (CacheItem T)) → string → Stored (CacheItem T) → bool).

Lemma mapGet_mapSet key (item : CacheItem T) m :
  mapGet key (mapSet key item m) = Some item.
Proof.
  induction m as [|[k v] m IH]; simpl.
  - by rewrite String.eqb_refl.
  - destruct (String.eqb k key) eqn:Hk; simpl; by rewrite Hk.
Qed.

(** The item [set] writes. *)
Lemma set_memory now namespace identifier (d : T) ttl' c :
  mapGet (generateKey namespace identifier)
    (memoryCache (set quotaExceeded now namespace identifier d ttl' c)) =
  Some {| data := d; timestamp := now; ttl := effectiveTTL (config c) ttl';
          version := configVersion (config c) |}.
Proof. apply mapGet_mapSet. Qed.

Lemma set_storage_accepted now namespace identifier (d : T) ttl' c :
  quotaExceeded (localStorage c) (generateKey namespace identifier)
    (Json {| data := d; timestamp := now; ttl := effectiveTTL (config c) ttl';
             version := configVersion (config c) |}) = false →
  localStorage (set quotaExceeded now namespace identifier d ttl' c)
    !! generateKey namespace identifier =
  Some (Json {| data := d; timestamp := now; ttl := effectiveTTL (config c) ttl';
                version := configVersion (config c) |}).
Proof.
  intros Hq. simpl. unfold setToLocalStorage. rewrite Hq.
  apply lookup_insert_eq.
Qed.

Lemma get_within_ttl now t0 namespace identifier (d : T) ttl' c :
  now - t0 ≤ effectiveTTL (config c) ttl' →
  get now namespace identifier (set quotaExceeded t0 namespace identifier d ttl' c) =
    (Some d, set quotaExceeded t0 namespace identifier d ttl' c).
Proof.
  intros Hfresh. unfold get. rewrite set_memory.
  unfold isExpired, isVersionValid. simpl.
  destruct (Z.gtb_spec (now - t0) (effectiveTTL (config c) ttl')); [lia|].
  by rewrite String.eqb_refl.
Qed.

Lemma get_past_ttl now t0 namespace identifier (d : T) ttl' c :
  now - t0 > effectiveTTL (config c) ttl' →
  quotaExceeded (localStorage c) (generateKey namespace identifier)
    (Json {| data := d; timestamp := t0; ttl := effectiveTTL (config c) ttl';
             version := configVersion (config c) |}) = false →
  (get now namespace identifier
     (set quotaExceeded t0 namespace identifier d ttl' c)).1 = None ∧
  localStorage
    (get now namespace identifier
       (set quotaExceeded t0 namespace identifier d ttl' c)).2
    !! generateKey namespace identifier = None.
Proof.
  intros Hstale Hq. unfold get. rewrite set_memory.
  unfold getFromLocalStorage. rewrite (set_storage_accepted _ _ _ _ _ _ Hq).
  unfold isExpired, isVersionValid. simpl.
  destruct (Z.gtb_spec (now - t0) (effectiveTTL (config c) ttl')); [|lia].
  simpl. rewrite String.eqb_refl. simpl.
  split; [done|]. apply lookup_delete_eq.
Qed.

(** A [set] whose write [localStorage] refuses throws, and leaves
    [localStorage] as it was: past the time to live of the refused entry,
    [get] answers from what [localStorage] held under the key before. *)
Lemma get_past_ttl_refused now t0 namespace identifier (d : T) ttl' c :
  now - t0 > effectiveTTL (config c) ttl' →
  quotaExceeded (localStorage c) (generateKey namespace identifier)
    (Json {| data := d; timestamp := t0; ttl := effectiveTTL (config c) ttl';
             version := configVersion (config c) |}) = true →
  setThrown quotaExceeded t0 namespace identifier d ttl' c =
    Some (ReferenceError "DEBUG") ∧
  (get now namespace identifier
     (set quotaExceeded t0 namespace identifier d ttl' c)).1 =
    data <$> (getFromLocalStorage (config c) now (generateKey namespace identifier)
                (localStorage c)).1.
Proof.
  intros Hstale Hq. unfold setThrown, setToLocalStorage. rewrite Hq.
  split; [done|]. unfold get. rewrite set_memory.
  unfold isExpired at 1. cbn [timestamp ttl].
  destruct (Z.gtb_spec (now - t0) (effectiveTTL (config c) ttl')); [|lia].
  cbn [negb andb]. unfold set. cbn [config localStorage].
  unfold setToLocalStorage. rewrite Hq. cbn [snd].
  by destruct (getFromLocalStorage _ _ _ _) as [[localItem|] ls].
Qed.

End CacheFacts.

Section MemoryCacheFacts.

Import MemoryCacheService.

Context {T : Type}.

Lemma memory_get_within_ttl now t0 key (d : T) ttlMinutes cache :
  now - t0 ≤ default 5 ttlMinutes * 60 * 1000 →
  get now key (set t0 key d ttlMinutes cache) =
    (Some d, set t0 key d ttlMinutes cache).
Proof.
  intros H. unfold get, set. rewrite lookup_insert_eq. simpl.
  by destruct (Z.gtb_spec (now - t0) (default 5 ttlMinutes * 60 * 1000)); [lia|].
Qed.

Lemma memory_get_past_ttl now t0 key (d : T) ttlMinutes cache :
  now - t0 > default 5 ttlMinutes * 60 * 1000 →
  get now key (set t0 key d ttlMinutes cache) = (None, delete key cache).
Proof.
  intros H. unfold get, set. rewrite lookup_insert_eq. simpl.
  destruct (Z.gtb_spec (now - t0) (default 5 ttlMinutes * 60 * 1000)); [|lia].
  by rewrite delete_insert_eq.
Qed.

End MemoryCacheFacts.

(** C2, on the cache service: the entry of scenario B, written at time 0
    with a time to live of 300000 ms, is missed one millisecond after the
    time to live; no window after the time to live serves it as a stale
    hit. *)
Lemma C2_no_stale_hit_after_ttl :
  (CacheService.get 300001 "products" "all"
     (CacheService.set (fun _ _ _ => false) 0 "products" "all" [1%nat; 2%nat]
        (Some 300000) (CacheService.emptyCache CacheService.singletonConfig))).1 = None ∧
  ¬ ∃ grace, 300000 < grace ∧
      ∀ now, 300000 < now - 0 → now - 0 ≤ grace →
        (CacheService.get now "products" "all"
           (CacheService.set (fun _ _ _ => false) 0 "products" "all" [1%nat; 2%nat]
              (Some 300000) (CacheService.emptyCache CacheService.singletonConfig))).1 =
        Some [1%nat; 2%nat].
Proof.
  assert ((CacheService.get 300001 "products" "all"
     (CacheService.set (fun _ _ _ => false) 0 "products" "all" [1%nat; 2%nat]
        (Some 300000) (CacheService.emptyCache CacheService.singletonConfig))).1 = None)
    as Hmiss by (vm_compute; reflexivity).
  split; [exact Hmiss|].
  intros (grace & Hg & H). specialize (H 300001).
  rewrite Hmiss in H. discriminate H; lia.
Qed.

(** C2, as the code has it.  For an entry written by set(namespace, key,
    data, ttl) at time t0 (an omitted or zero ttl standing for the default):
    a get at a time within ttl of the write returns the data and leaves the
    cache as it is, whether localStorage accepted the write or not.  When
    localStorage accepted the write, a get at any later time is a miss and
    deletes the entry from localStorage.  When localStorage refused the
    write, set throws a ReferenceError (for the undeclared DEBUG of its
    handler) with the entry stored in memory only, and a get at any later
    time answers from what localStorage held under the key before the
    write: a miss, or the data of an entry that is still valid.  The result
    of get carries no staleness mark and there is no grace window.  The
    single-tier cache service hits within its time to live, given in
    minutes, and misses after it, deleting the entry. *)
Theorem C2_hit_within_ttl_miss_after :
  ∀ (T : Type)
    (quotaExceeded :
       gmap string (CacheService.Stored (CacheService.CacheItem T)) → string →
       CacheService.Stored (CacheService.CacheItem T) → bool)
    (now t0 : Z) (namespace identifier : string) (d : T) (ttl' : option Z)
    (c : CacheService.Cache T)
    (key : string) (ttlMinutes : option Z)
    (m : gmap string (MemoryCacheService.CacheItem T)),
    (now - t0 ≤ CacheService.effectiveTTL (CacheService.config c) ttl' →
     CacheService.get now namespace identifier
       (CacheService.set quotaExceeded t0 namespace identifier d ttl' c) =
     (Some d, CacheService.set quotaExceeded t0 namespace identifier d ttl' c)) ∧
    (now - t0 > CacheService.effectiveTTL (CacheService.config c) ttl' →
     quotaExceeded (CacheService.localStorage c)
       (CacheService.generateKey namespace identifier)
       (CacheService.Json
          {| CacheService.data := d; CacheService.timestamp := t0;
             CacheService.ttl :=
               CacheService.effectiveTTL (CacheService.config c) ttl';
             CacheService.version :=
               CacheService.configVersion (CacheService.config c) |}) = false →
     (CacheService.get now namespace identifier
        (CacheService.set quotaExceeded t0 namespace identifier d ttl' c)).1 = None ∧
     CacheService.localStorage
       (CacheService.get now namespace identifier
          (CacheService.set quotaExceeded t0 namespace identifier d ttl' c)).2
       !! CacheService.generateKey namespace identifier = None) ∧
    (now - t0 > CacheService.effectiveTTL (CacheService.config c) ttl' →
     quotaExceeded (CacheService.localStorage c)
       (CacheService.generateKey namespace identifier)
       (CacheService.Json
          {| CacheService.data := d; CacheService.timestamp := t0;
             CacheService.ttl :=
               CacheService.effectiveTTL (CacheService.config c) ttl';
             CacheService.version :=
               CacheService.configVersion (CacheService.config c) |}) = true →
     CacheService.setThrown quotaExceeded t0 namespace identifier d ttl' c =
       Some (CacheService.ReferenceError "DEBUG") ∧
     (CacheService.get now namespace identifier
        (CacheService.set quotaExceeded t0 namespace identifier d ttl' c)).1 =
       CacheService.data <$>
         (CacheService.getFromLocalStorage (CacheService.config c) now
            (CacheService.generateKey namespace identifier)
            (CacheService.localStorage c)).1) ∧
    (now - t0 ≤ default 5 ttlMinutes * 60 * 1000 →
     MemoryCacheService.get now key (MemoryCacheService.set t0 key d ttlMinutes m) =
     (Some d, MemoryCacheService.set t0 key d ttlMinutes m)) ∧
    (now - t0 > default 5 ttlMinutes * 60 * 1000 →
     MemoryCacheService.get now key (MemoryCacheService.set t0 key d ttlMinutes m) =
     (None, delete key m)).
Proof.
  intros. split; [|split; [|split; [|split]]].
  - apply get_within_ttl.
  - apply get_past_ttl.
  - apply get_past_ttl_refused.
  - apply memory_get_within_ttl.
  - apply memory_get_past_ttl.
Qed.

(** Scenario B on both services: fresh at 300000 ms, missed at 300001 ms.
    When [localStorage] holds the list [9] under the key, valid for
    1000000 ms, and refuses the write of scenario B, the [get] at
    300001 ms returns that list. *)
Lemma C2_hit_within_ttl_miss_after_witness :
  (CacheService.get 300000 "products" "all"
     (CacheService.set (fun _ _ _ => false) 0 "products" "all" [1%nat; 2%nat]
        (Some 300000) (CacheService.emptyCache CacheService.singletonConfig))).1 =
    Some [1%nat; 2%nat] ∧
  (CacheService.get 300001 "products" "all"
     (CacheService.set (fun _ _ _ => false) 0 "products" "all" [1%nat; 2%nat]
        (Some 300000) (CacheService.emptyCache CacheService.singletonConfig))).1 = None ∧
  (CacheService.setThrown (fun _ _ _ => true) 0 "products" "all" [1%nat; 2%nat]
     (Some 300000) CacheService.holdingNine =
     Some (CacheService.ReferenceError "DEBUG") ∧
   (CacheService.get 300001 "products" "all"
      (CacheService.set (fun _ _ _ => true) 0 "products" "all" [1%nat; 2%nat]
         (Some 300000) CacheService.holdingNine)).1 = Some [9%nat]) ∧
  (MemoryCacheService.get 300000 "all"
     (MemoryCacheService.set 0 "all" [1%nat; 2%nat] (Some 5) ∅)).1 =
    Some [1%nat; 2%nat] ∧
  (MemoryCacheService.get 300001 "all"
     (MemoryCacheService.set 0 "all" [1%nat; 2%nat] (Some 5) ∅)).1 = None.
Proof.
  split; [|split; [|split; [|split]]].
  - destruct (C2_hit_within_ttl_miss_after (list nat) (fun _ _ _ => false)
                300000 0 "products" "all" [1%nat; 2%nat] (Some 300000)
                (CacheService.emptyCache CacheService.singletonConfig)
                "all" (Some 5) ∅) as (H & _).
    rewrite H; [reflexivity | simpl; lia].
  - destruct (C2_hit_within_ttl_miss_after (list nat) (fun _ _ _ => false)
                300001 0 "products" "all" [1%nat; 2%nat] (Some 300000)
                (CacheService.emptyCache CacheService.singletonConfig)
                "all" (Some 5) ∅) as (_ & H & _).
    apply H; [simpl; lia | reflexivity].
  - destruct (C2_hit_within_ttl_miss_after (list nat) (fun _ _ _ => true)
                300001 0 "products" "all" [1%nat; 2%nat] (Some 300000)
                CacheService.holdingNine
                "all" (Some 5) ∅) as (_ & _ & H & _).
    destruct H as [Hthrown Hget]; [simpl; lia | reflexivity |].
    split; [exact Hthrown|]. rewrite Hget. reflexivity.
  - destruct (C2_hit_within_ttl_miss_after (list nat) (fun _ _ _ => false)
                300000 0 "products" "all" [1%nat; 2%nat] (Some 300000)
                (CacheService.emptyCache CacheService.singletonConfig)
                "all" (Some 5) ∅) as (_ & _ & _ & H & _).
    rewrite H; [reflexivity | simpl; lia].
  - destruct (C2_hit_within_ttl_miss_after (list nat) (fun _ _ _ => false)
                300001 0 "products" "all" [1%nat; 2%nat] (Some 300000)
                (CacheService.emptyCache CacheService.singletonConfig)
                "all" (Some 5) ∅) as (_ & _ & _ & _ & H).
    rewrite H; [reflexivity | simpl; lia].
Defined.

(** ** Retrying the catalog request *)

Section RetryFacts.

Import ProductsAPI.

(** A call that always fails with [e] is repeated until the attempts are
    used up, whatever [e] is. *)
Lemma retryLoop_always_failing {A : Type} (e : FetchError) initialDelay
    remaining attempt lastError tr :
  (0 < remaining)%nat →
  (retryLoop (A := A) (fun _ => Failed e) initialDelay attempt remaining lastError tr).1 =
    Failed e ∧
  calls (retryLoop (A := A) (fun _ => Failed e) initialDelay attempt remaining
           lastError tr).2 = (calls tr + remaining)%nat.
Proof.
  revert attempt lastError tr.
  induction remaining as [|remaining IH]; intros attempt lastError tr Hpos; [lia|].
  simpl. destruct remaining as [|remaining'].
  - simpl. split; [done|lia].
  - destruct (IH (S attempt) e
                {| calls := S (calls tr);
                   waits := waits tr ++ [initialDelay * 2 ^ (Z.of_nat attempt - 1)] |})
      as [H1 H2]; [lia|].
    split; [exact H1|]. rewrite H2. simpl. lia.
Qed.

End RetryFacts.

(** C3: a 404 is retried.  Against a server that answers every request
    with 404, fetchProductsFromAPI sends all three requests of its budget,
    waiting 1000 ms and 2000 ms (plus jitter) in between, before the error
    reaches the caller; more generally its retryWithBackoff repeats a call
    failing with any error, server-side or client-side, until the attempts
    are used up.  The retryWithBackoff of the paginated catalog hook, on the
    same answer, gives up after the first request: it does not retry an
    error whose message contains "HTTP 4" and not "408". *)
Theorem C3_client_errors_are_retried :
  ProductsAPI.fetchProductsFromAPI (P := nat) id
    (fun _ => ProductsAPI.Response 404 ProductsAPI.InvalidShape) =
    (ProductsAPI.Failed ProductsAPI.EndpointNaoEncontrado,
     {| ProductsAPI.calls := 3; ProductsAPI.waits := [1000; 2000] |}) ∧
  (∀ (e : ProductsAPI.FetchError) (initialDelay : Z),
     ProductsAPI.retryWithBackoff (A := list nat) (fun _ => ProductsAPI.Failed e)
       ProductsAPI.MAX_RETRY_ATTEMPTS initialDelay =
     (ProductsAPI.Failed e,
      {| ProductsAPI.calls := 3;
         ProductsAPI.waits := [initialDelay * 2 ^ 0; initialDelay * 2 ^ 1] |})) ∧
  (∀ (e : ProductsAPI.FetchError) (maxAttempts : nat) (initialDelay : Z),
     ProductsAPI.calls
       (ProductsAPI.retryWithBackoff (A := list nat) (fun _ => ProductsAPI.Failed e)
          (S maxAttempts) initialDelay).2 = S maxAttempts) ∧
  ProductsAPIOptimized.retryWithBackoff (A := list nat)
    (fun _ => ProductsAPIOptimized.Failed
                (ProductsAPIOptimized.httpError 404 "Not Found"))
    ProductsAPIOptimized.MAX_RETRIES =
    (Some (ProductsAPIOptimized.Failed
             (ProductsAPIOptimized.httpError 404 "Not Found")), 1%nat).
Proof.
  split; [|split; [|split]].
  - reflexivity.
  - intros e initialDelay. reflexivity.
  - intros e maxAttempts initialDelay. unfold ProductsAPI.retryWithBackoff.
    destruct (retryLoop_always_failing (A := list nat) e initialDelay (S maxAttempts)
                1%nat ProductsAPI.ErroDesconhecido
                {| ProductsAPI.calls := 0; ProductsAPI.waits := [] |}) as [_ H]; [lia|].
    exact H.
  - vm_compute. reflexivity.
Qed.

(** Server errors and timeouts are retried while attempts remain: two
    answers 503 and a timeout in between do not keep a third request from
    succeeding, and the paginated hook retries a 503 and a 408 as well. *)
Lemma server_errors_are_retried :
  ProductsAPI.fetchProductsFromAPI (P := nat) id
    (fun k => match k with
              | 1%nat => ProductsAPI.Response 503 ProductsAPI.InvalidShape
              | 2%nat => ProductsAPI.Aborted
              | _ => ProductsAPI.Response 200 (ProductsAPI.Dados [7%nat])
              end) =
    (ProductsAPI.Resolved [7%nat],
     {| ProductsAPI.calls := 3; ProductsAPI.waits := [1000; 2000] |}) ∧
  ProductsAPIOptimized.retryWithBackoff (A := list nat)
    (fun k => match k with
              | 0%nat => ProductsAPIOptimized.Failed
                           (ProductsAPIOptimized.httpError 503 "Service Unavailable")
              | 1%nat => ProductsAPIOptimized.Failed
                           (ProductsAPIOptimized.httpError 408 "Request Timeout")
              | _ => ProductsAPIOptimized.Resolved [7%nat]
              end)
    ProductsAPIOptimized.MAX_RETRIES =
    (Some (ProductsAPIOptimized.Resolved [7%nat]), 3%nat).
Proof. split; [reflexivity | vm_compute; reflexivity]. Qed.

(** ** Falling back to an expired catalog *)

Section FallbackFacts.

Import CacheService ProductsAPI.

(** No key of the cache service is the key the fallback reads. *)
Lemma generateKey_not_expiredCacheKey namespace identifier :
  generateKey namespace identifier ≠ expiredCacheKey.
Proof. unfold generateKey, expiredCacheKey. simpl. discriminate. Qed.

End FallbackFacts.

(** C6: the expired catalog is not served.  The catalog [1; 2] is cached at
    time 0 for 300000 ms and sits in localStorage under
    "cache_products_all_products"; the page is loaded again (the memory tier
    starts empty) and at time 400000 every request fails with 503.  The fallback reads the key "products:all_products", which the
    cache service never writes, and the cache read before it has already
    deleted the expired entry from localStorage: loadProducts leaves the
    product list as it was (empty) and reports only the server error, not
    the expired data with a degraded-mode warning. *)
Theorem C6_expired_catalog_is_not_served :
  let cached :=
    CacheService.set (fun _ _ _ => false) 0 "products" "all_products"
      [1%nat; 2%nat] (Some 300000)
      (CacheService.emptyCache CacheService.singletonConfig) in
  let reloaded :=
    {| CacheService.config := CacheService.singletonConfig;
       CacheService.memoryCache := [];
       CacheService.localStorage := CacheService.localStorage cached |} in
  let before :=
    {| ProductsAPI.allProducts := []; ProductsAPI.isLoading := true;
       ProductsAPI.error := None; ProductsAPI.cache := reloaded |} in
  let after :=
    ProductsAPI.loadProducts (P := nat) id (fun _ _ _ => false) 300000 400000 400500
      (fun _ => ProductsAPI.Response 503 ProductsAPI.InvalidShape) before in
  (∃ item, CacheService.localStorage cached !! "cache_products_all_products" =
             Some (CacheService.Json item) ∧
           CacheService.data item = [1%nat; 2%nat]) ∧
  ProductsAPI.getExpiredCachedProducts reloaded = None ∧
  CacheService.localStorage (ProductsAPI.cache after)
    !! "cache_products_all_products" = None ∧
  ProductsAPI.allProducts after = [] ∧
  ProductsAPI.isLoading after = false ∧
  ProductsAPI.error after =
    Some (ProductsAPI.MensagemDoErro (ProductsAPI.ErroDoServidor 503)) ∧
  ¬ ProductsAPI.degradedWith [1%nat; 2%nat] after.
Proof.
  intros cached reloaded before after.
  assert (ProductsAPI.allProducts after = []) as Hall by (vm_compute; reflexivity).
  assert (ProductsAPI.error after =
          Some (ProductsAPI.MensagemDoErro (ProductsAPI.ErroDoServidor 503))) as Herr
    by (vm_compute; reflexivity).
  split; [|split; [|split; [|split; [|split; [|split]]]]].
  - eexists. split; vm_compute; reflexivity.
  - vm_compute. reflexivity.
  - vm_compute. reflexivity.
  - exact Hall.
  - vm_compute. reflexivity.
  - exact Herr.
  - intros [H _]. rewrite Hall in H. discriminate H.
Qed.

Section FallbackGeneral.

Import CacheService ProductsAPI.

Context {P N : Type} (normalizeProduct : P → N).
Context (quotaExceeded :
  gmap string (Stored (CacheItem (list N))) → string →
  Stored (CacheItem (list N)) → bool).

Lemma get_keeps_fallback_key_absent now namespace identifier (c : Cache (list N)) :
  localStorage c !! expiredCacheKey = None →
  localStorage (get now namespace identifier c).2 !! expiredCacheKey = None.
Proof.
  intros H. unfold get, getFromLocalStorage.
  destruct (mapGet _ _) as [memoryItem|];
    [destruct (negb (isExpired now memoryItem) && isVersionValid (config c) memoryItem);
       [done|] |];
    (destruct (localStorage c !! generateKey namespace identifier) as [[item|]|];
      [destruct (negb (isVersionValid (config c) item) || isExpired now item); simpl;
         [by rewrite lookup_delete_ne by apply generateKey_not_expiredCacheKey | done]
      | done | done]).
Qed.

(** As long as nothing but the cache service wrote the fallback key, a
    failed fetch after a cache miss leaves the caller with the error
    alone. *)
Lemma loadProducts_without_fallback cacheTTL now later network h e :
  localStorage (cache h) !! expiredCacheKey = None →
  (getCachedProducts now (cache h)).1 = None →
  (fetchProductsFromAPI normalizeProduct network).1 = Failed e →
  allProducts (loadProducts normalizeProduct quotaExceeded cacheTTL now later network h) =
    allProducts h ∧
  error (loadProducts normalizeProduct quotaExceeded cacheTTL now later network h) =
    Some (MensagemDoErro e).
Proof.
  intros Habs Hmiss Hfail. unfold loadProducts.
  pose proof (get_keeps_fallback_key_absent now PRODUCTS PRODUCTS_CACHE_KEY (cache h) Habs)
    as Hkeep.
  unfold getCachedProducts in *.
  destruct (get now PRODUCTS PRODUCTS_CACHE_KEY (cache h)) as [cached c1].
  simpl in Hmiss, Hkeep. subst cached.
  destruct (fetchProductsFromAPI normalizeProduct network) as [res tr].
  simpl in Hfail. subst res.
  unfold getExpiredCachedProducts. rewrite Hkeep. done.
Qed.

End FallbackGeneral.

(** ** Applying a synchronisation message *)

Section SyncFacts.

Import CartStore CartSync.

Lemma caught_idle h : isUpdating h.2 = false → caught h = h.
Proof. destruct h as [st [u l]]; simpl. by intros ->. Qed.

Lemma commit_handled now ts new h :
  isUpdating h.2 = false → handled ts h (commit now ts new h).
Proof.
  intros Hu. unfold commit. destruct (hasChanges h.1 new); [by right|by left].
Qed.

Lemma debouncedUpdate_handled now storage data h :
  handled (dataLastUpdated data) h (debouncedUpdate now storage data h).
Proof.
  unfold debouncedUpdate. destruct (isUpdating h.2) eqn:Hu; [by left|].
  destruct (_ || _); [by left|].
  destruct storage as [[|[newState|]]|]; try by left.
  - left. by apply caught_idle.
  - by apply commit_handled.
Qed.

Lemma debouncedStorageUpdate_handled now newValue h :
  handled (messageTimestamp (StorageEvent newValue)) h
    (debouncedStorageUpdate now newValue h).
Proof.
  unfold debouncedStorageUpdate. destruct (isUpdating h.2) eqn:Hu; [by left|].
  destruct newValue as [|[newState|]]; try by left.
  - left. by apply caught_idle.
  - destruct (_ || _); [by left|]. by apply commit_handled.
Qed.

Lemma guard_blocked ts h :
  isUpdating h.2 = false → ts ≤ lastUpdated h.1 ∨ ts ≤ lastTimestamp h.2 →
  (ts <=? lastUpdated h.1) || (ts <=? lastTimestamp h.2) = true.
Proof.
  intros _ [H|H]; apply orb_true_iff; [left|right]; by apply Z.leb_le.
Qed.

Lemma debouncedUpdate_blocked now storage data h :
  blocked (dataLastUpdated data) h → debouncedUpdate now storage data h = h.
Proof.
  intros Hb. unfold debouncedUpdate. destruct (isUpdating h.2) eqn:Hu; [done|].
  destruct Hb as [Hb|Hb]; [congruence|]. by rewrite guard_blocked.
Qed.

Lemma debouncedStorageUpdate_blocked now newValue h :
  blocked (messageTimestamp (StorageEvent newValue)) h →
  debouncedStorageUpdate now newValue h = h.
Proof.
  intros Hb. unfold debouncedStorageUpdate. destruct (isUpdating h.2) eqn:Hu; [done|].
  destruct Hb as [Hb|Hb]; [congruence|].
  destruct newValue as [|[newState|]]; [by apply caught_idle| |done].
  simpl in Hb. by rewrite guard_blocked.
Qed.

(** Whether a handler commits does not depend on the clock. *)
Lemma debouncedUpdate_same_decision now now' storage data h :
  debouncedUpdate now storage data h = h → debouncedUpdate now' storage data h = h.
Proof.
  unfold debouncedUpdate. destruct (isUpdating h.2) eqn:Hu; [done|].
  destruct (_ || _); [done|].
  destruct storage as [[|[newState|]]|]; try done.
  unfold commit. destruct (hasChanges _ _); [|done].
  intros H. apply (f_equal (fun x => isUpdating x.2)) in H. simpl in H. congruence.
Qed.

Lemma debouncedStorageUpdate_same_decision now now' newValue h :
  debouncedStorageUpdate now newValue h = h →
  debouncedStorageUpdate now' newValue h = h.
Proof.
  unfold debouncedStorageUpdate. destruct (isUpdating h.2) eqn:Hu; [done|].
  destruct newValue as [|[newState|]]; try done.
  destruct (_ || _); [done|].
  unfold commit. destruct (hasChanges _ _); [|done].
  intros H. apply (f_equal (fun x => isUpdating x.2)) in H. simpl in H. congruence.
Qed.

Lemma applyMessage_stale now m t :
  messageTimestamp m ≤ lastUpdated (store t) → applyMessage now m t = t.
Proof.
  intros Hle. destruct m as [storage data|newValue|]; simpl; [| |done].
  - rewrite debouncedUpdate_blocked; [by destruct t|]. right; by left.
  - rewrite debouncedStorageUpdate_blocked; [by destruct t|]. right; by left.
Qed.

Lemma applyMessage_twice now now' m t :
  applyMessage now' m (applyMessage now m t) = applyMessage now m t.
Proof.
  destruct m as [storage data|newValue|]; simpl; [| |done].
  - destruct (debouncedUpdate_handled now storage data (store t, broadcastRefs t))
      as [Hsame|(_ & Hguard & _)].
    + rewrite Hsame. simpl.
      by rewrite (debouncedUpdate_same_decision now now' _ _ _ Hsame).
    + rewrite <- surjective_pairing.
      rewrite debouncedUpdate_blocked; [done|]. by left.
  - destruct (debouncedStorageUpdate_handled now newValue (store t, storageRefs t))
      as [Hsame|(_ & Hguard & _)].
    + rewrite Hsame. simpl.
      by rewrite (debouncedStorageUpdate_same_decision now now' _ _ Hsame).
    + rewrite <- surjective_pairing.
      rewrite debouncedStorageUpdate_blocked; [done|]. by left.
Qed.

Lemma refs_idle r :
  isUpdating r = false →
  {| isUpdating := false; lastTimestamp := lastTimestamp r |} = r.
Proof. destruct r; simpl. by intros ->. Qed.

Lemma resetGuard_idle t : idle t → resetGuard t = t.
Proof.
  destruct t as [st [u1 l1] [u2 l2]]. unfold idle, resetGuard. simpl.
  by intros [-> ->].
Qed.

Lemma applyMessage_after_reset now now' m t :
  idle t →
  applyMessage now' m (resetGuard (applyMessage now m t)) =
    resetGuard (applyMessage now m t).
Proof.
  intros [Hb Hs]. destruct m as [storage data|newValue|]; [| |done].
  - unfold applyMessage, resetGuard. cbn [store broadcastRefs storageRefs].
    destruct (debouncedUpdate_handled now storage data (store t, broadcastRefs t))
      as [Hsame|(_ & _ & Hts)].
    + rewrite Hsame. cbn [fst snd]. rewrite (refs_idle _ Hb).
      by rewrite (debouncedUpdate_same_decision now now' _ _ _ Hsame).
    + rewrite debouncedUpdate_blocked; [done|].
      right; right. cbn [fst snd lastTimestamp]. lia.
  - unfold applyMessage, resetGuard. cbn [store broadcastRefs storageRefs].
    destruct (debouncedStorageUpdate_handled now newValue (store t, storageRefs t))
      as [Hsame|(_ & _ & Hts)].
    + rewrite Hsame. cbn [fst snd]. rewrite (refs_idle _ Hs).
      by rewrite (debouncedStorageUpdate_same_decision now now' _ _ Hsame).
    + rewrite debouncedStorageUpdate_blocked; [done|].
      right; right. cbn [fst snd lastTimestamp]. lia.
Qed.

End SyncFacts.

(** C8. An incoming message whose timestamp (the sender's lastUpdated) is
    at or before the local lastUpdated leaves the tab unchanged: store and
    refs.  Applying the same message a second time changes nothing, both
    right after the first application and after the guards have been reset
    (for a tab that was not applying an update when the message first
    arrived): the second application is a no-op. *)
Theorem C8_stale_and_repeated_messages_are_dropped :
  ∀ now now' m t,
    (CartSync.messageTimestamp m ≤ CartStore.lastUpdated (CartSync.store t) →
     CartSync.applyMessage now m t = t) ∧
    CartSync.applyMessage now' m (CartSync.applyMessage now m t) =
      CartSync.applyMessage now m t ∧
    (CartSync.idle t →
     CartSync.applyMessage now' m
       (CartSync.resetGuard (CartSync.applyMessage now m t)) =
     CartSync.resetGuard (CartSync.applyMessage now m t)).
Proof.
  intros now now' m t. split; [apply applyMessage_stale|]. split.
  - apply applyMessage_twice.
  - apply applyMessage_after_reset.
Qed.

Lemma C8_stale_and_repeated_messages_are_dropped_witness :
  CartSync.applyMessage 9 CartSync.staleMessage CartSync.tabWithA = CartSync.tabWithA ∧
  CartSync.applyMessage 10 CartSync.freshMessage
    (CartSync.applyMessage 9 CartSync.freshMessage CartSync.tabWithA) =
    CartSync.applyMessage 9 CartSync.freshMessage CartSync.tabWithA ∧
  CartSync.applyMessage 10 CartSync.freshMessage
    (CartSync.resetGuard (CartSync.applyMessage 9 CartSync.freshMessage CartSync.tabWithA)) =
    CartSync.resetGuard (CartSync.applyMessage 9 CartSync.freshMessage CartSync.tabWithA).
Proof.
  destruct (C8_stale_and_repeated_messages_are_dropped 9 10 CartSync.staleMessage
              CartSync.tabWithA) as (Hstale & _ & _).
  destruct (C8_stale_and_repeated_messages_are_dropped 9 10 CartSync.freshMessage
              CartSync.tabWithA) as (_ & Htwice & Hreset).
  split; [|split].
  - apply Hstale. vm_compute. discriminate.
  - exact Htwice.
  - apply Hreset. split; reflexivity.
Defined.

(** The fresh message of the example is committed: the items of the other
    tab arrive, while the stored totals of the receiving store stay as they
    were, since a synchronisation writes items, session id and lastUpdated
    only. *)
Lemma fresh_message_is_committed :
  CartStore.items (CartSync.store
    (CartSync.applyMessage 9 CartSync.freshMessage CartSync.tabWithA)) =
    [ {| CartStore.id := "A"; CartStore.product := CartStore.productA;
         CartStore.quantity := 5; CartStore.addedAt := 0 |} ] ∧
  CartStore.lastUpdated (CartSync.store
    (CartSync.applyMessage 9 CartSync.freshMessage CartSync.tabWithA)) = 5 ∧
  CartStore._itemCount (CartSync.store
    (CartSync.applyMessage 9 CartSync.freshMessage CartSync.tabWithA)) = 2.
Proof. repeat split. Qed.

(** ** The staleness mark of the paginated hook *)

Section StaleMark.

Import ProductsAPIOptimized.

Context {R : Type}.
Context (quotaExceeded :
  gmap string (CacheService.Stored (CacheService.CacheItem (R * Z))) → string →
  CacheService.Stored (CacheService.CacheItem (R * Z)) → bool).

(** A page cached by [setCachedData] (payload and entry stamped with the
    same clock value, the write accepted by localStorage) comes back from
    [getCachedData] either unmarked or not at all: the cache service misses
    the entry from the moment [isStale] would become true. *)
Lemma getCachedData_never_stale now t0 cacheKey (d : R) c :
  quotaExceeded (CacheService.localStorage c)
    (CacheService.generateKey "products" cacheKey)
    (CacheService.Json
       {| CacheService.data := (d, t0); CacheService.timestamp := t0;
          CacheService.ttl :=
            CacheService.effectiveTTL (CacheService.config c) (Some DEFAULT_CACHE_TTL);
          CacheService.version := CacheService.configVersion (CacheService.config c) |})
    = false →
  (getCachedData now cacheKey (setCachedData quotaExceeded t0 t0 cacheKey d c)).1 =
    if now - t0 <=? DEFAULT_CACHE_TTL then Some (d, false) else None.
Proof.
  intros Hq. unfold getCachedData, setCachedData.
  destruct (Z.leb_spec (now - t0) DEFAULT_CACHE_TTL) as [Hle|Hgt].
  - rewrite get_within_ttl by (simpl; unfold DEFAULT_CACHE_TTL in *; lia).
    simpl.
    destruct (Z.gtb_spec (now - t0) STALE_WHILE_REVALIDATE_TTL);
      [unfold DEFAULT_CACHE_TTL, STALE_WHILE_REVALIDATE_TTL in *; lia|].
    destruct (Z.gtb_spec (now - t0) DEFAULT_CACHE_TTL); [lia|done].
  - destruct (get_past_ttl quotaExceeded now t0 "products" cacheKey (d, t0)
                (Some DEFAULT_CACHE_TTL) c) as [Hnone _];
      [simpl; unfold DEFAULT_CACHE_TTL in *; lia | exact Hq |].
    destruct (CacheService.get _ _ _ _) as [[cached|] c']; simpl in *; done.
Qed.

End StaleMark.

(** ** Broadcasts stamped by the sender *)

(** The sender stamps a broadcast with its send time after the cart's
    lastUpdated; such a broadcast sent at or before the local lastUpdated
    is dropped as well. *)
Lemma broadcast_sent_before_local_update now storage data t :
  CartSync.dataLastUpdated data ≤ CartSync.dataTimestamp data →
  CartSync.dataTimestamp data ≤ CartStore.lastUpdated (CartSync.store t) →
  CartSync.applyMessage now (CartSync.Broadcast storage data) t = t.
Proof. intros H1 H2. apply applyMessage_stale. simpl. lia. Qed.

(** * Further properties of the modelled code *)

(** ** The cart store: keys, lookups and totals *)

Section StoreKeys.

Import CartStore.

Lemma findIndex_findFirst {A : Type} (p : A → bool) (l : list A) :
  findIndex p l = fst <$> findFirst p l.
Proof.
  induction l as [|x l IH]; simpl; [done|].
  destruct (p x); [done|]. rewrite IH. by destruct (findFirst p l) as [[]|].
Qed.

Lemma getCartItem_None productId state :
  getCartItem productId state = None ↔ productId ∉ id <$> items state.
Proof.
  unfold getCartItem. destruct (findFirst _ _) as [[i x]|] eqn:Hf; simpl.
  - split; [done|]. intros Hnot. exfalso. apply Hnot.
    apply findFirst_Some in Hf as [Hi Hx]. apply String.eqb_eq in Hx. subst.
    apply list_elem_of_fmap. exists x. split; [done|]. by eapply list_elem_of_lookup_2.
  - split; [|done]. intros _ Hin. apply findFirst_None in Hf.
    apply list_elem_of_fmap in Hin as (x & -> & Hx).
    rewrite Forall_forall in Hf. specialize (Hf x Hx). simpl in Hf.
    by rewrite String.eqb_refl in Hf.
Qed.

Lemma sumQuantity_app l1 l2 :
  sumQuantity (l1 ++ l2) = sumQuantity l1 + sumQuantity l2.
Proof. induction l1; simpl in *; lia. Qed.

Lemma sums_delete i item its :
  its !! i = Some item →
  sumQuantity (delete i its) = sumQuantity its - quantity item.
Proof.
  revert i. induction its as [|x its IH]; intros [|i] H; simpl in *; try done.
  - injection H as ->. lia.
  - pose proof (IH i H). lia.
Qed.

Lemma sums_alter (f : CartItem → CartItem) i item its :
  its !! i = Some item →
  sumQuantity (alter f i its) = sumQuantity its - quantity item + quantity (f item).
Proof.
  revert i. induction its as [|x its IH]; intros [|i] H; try done.
  - injection H as ->. unfold sumQuantity. simpl. ring.
  - pose proof (IH i H) as H1.
    change (alter f (S i) (x :: its)) with (x :: alter f i its).
    unfold sumQuantity in *. simpl. rewrite H1. ring.
Qed.

Lemma ids_alter_withQuantity (g : CartItem → Z) (i : nat) (its : list CartItem) :
  id <$> alter (fun item => withQuantity (g item) item) i its = id <$> its.
Proof.
  revert i. induction its as [|x its IH]; intros [|i]; try done.
  change (alter (fun item => withQuantity (g item) item) (S i) (x :: its))
    with (x :: alter (fun item => withQuantity (g item) item) i its).
  rewrite !fmap_cons. by rewrite IH.
Qed.

Lemma wellKeyed_alter (g : CartItem → Z) (i : nat) (its : list CartItem) :
  wellKeyed its → wellKeyed (alter (fun item => withQuantity (g item) item) i its).
Proof.
  intros [Hnd Hk]. split; [by rewrite ids_alter_withQuantity|].
  apply Forall_alter; [done|]. by intros x Hx Hid.
Qed.

Lemma wellKeyed_delete (i : nat) (its : list CartItem) :
  wellKeyed its → wellKeyed (delete i its).
Proof.
  intros [Hnd Hk]. split; [|by apply Forall_delete].
  rewrite list_fmap_delete. exact (sublist_NoDup _ _ Hnd (sublist_delete _ _)).
Qed.

Lemma findIndex_None_ids productId (its : list CartItem) :
  findIndex (fun item => String.eqb (id item) productId) its = None ↔
  productId ∉ id <$> its.
Proof.
  rewrite findIndex_None. split.
  - intros Hall Hin. apply list_elem_of_fmap in Hin as (x & -> & Hx).
    rewrite Forall_forall in Hall. specialize (Hall x Hx). simpl in Hall.
    by rewrite String.eqb_refl in Hall.
  - intros Hnot. apply Forall_forall. intros x Hx. apply String.eqb_neq.
    intros Heq. apply Hnot. apply list_elem_of_fmap. by exists x.
Qed.

Lemma store_addToCart_wellKeyed f now p qty state :
  wellKeyed (items state) → wellKeyed (items (addToCart f now p qty state)).
Proof.
  intros Hwk. unfold addToCart.
  destruct (findIndex _ (items state)) as [i|] eqn:Hfind;
    rewrite computeCartValues_sums; simpl.
  - by apply (wellKeyed_alter (fun item => quantity item + qty)).
  - apply findIndex_None_ids in Hfind. destruct Hwk as [Hnd Hk]. split.
    + rewrite fmap_app. apply NoDup_app. split; [done|]. split.
      * intros x Hx Hin. apply list_elem_of_singleton in Hin. by subst.
      * apply NoDup_singleton.
    + apply Forall_app. split; [done|]. by constructor.
Qed.

Lemma store_removeFromCart_wellKeyed now productId state :
  wellKeyed (items state) → wellKeyed (items (removeFromCart now productId state)).
Proof.
  intros Hwk. unfold removeFromCart. destruct (findIndex _ _); [|done].
  rewrite computeCartValues_sums. simpl. by apply wellKeyed_delete.
Qed.

Lemma store_updateQuantity_wellKeyed now productId qty state :
  wellKeyed (items state) → wellKeyed (items (updateQuantity now productId qty state)).
Proof.
  intros Hwk. unfold updateQuantity.
  destruct (qty <=? 0); [by apply store_removeFromCart_wellKeyed|].
  destruct (findIndex _ _); [|done].
  rewrite computeCartValues_sums. simpl.
  by apply (wellKeyed_alter (fun _ => qty)).
Qed.

Lemma store_applyMutation_wellKeyed m state :
  wellKeyed (items state) → wellKeyed (items (applyMutation m state)).
Proof.
  destruct m; simpl; intros H.
  - by apply store_addToCart_wellKeyed.
  - by apply store_removeFromCart_wellKeyed.
  - by apply store_updateQuantity_wellKeyed.
  - split; [constructor|constructor].
Qed.

(** X1. Whatever sequence of addToCart, removeFromCart, updateQuantity and
    clearCart the store goes through from its initial state, no two items of
    the cart carry the same id, and the id of every item is the external id
    of the product it holds. *)
Theorem store_items_stay_well_keyed :
  ∀ session t0 ms,
    wellKeyed (items (runMutations ms (initialState session t0))).
Proof.
  intros session t0 ms. unfold runMutations.
  assert (wellKeyed (items (initialState session t0))) as H
    by (split; constructor).
  revert H. generalize (initialState session t0).
  induction ms as [|m ms IH]; intros state H; simpl; [done|].
  apply IH. by apply store_applyMutation_wellKeyed.
Qed.

End StoreKeys.


Section StoreLookups.

Import CartStore.

Lemma findFirst_delete_other {A : Type} (q : A → bool) (i : nat) (x : A) (l : list A) :
  l !! i = Some x → q x = false →
  snd <$> findFirst q (delete i l) = snd <$> findFirst q l.
Proof.
  revert i. induction l as [|y l IH]; intros [|i] Hi Hq; try done.
  - injection Hi as ->. simpl. rewrite Hq.
    by destruct (findFirst q l) as [[]|].
  - change (delete (S i) (y :: l)) with (y :: delete i l). simpl.
    destruct (q y); [done|].
    specialize (IH i Hi Hq).
    destruct (findFirst q (delete i l)) as [[]|], (findFirst q l) as [[]|];
      simpl in *; congruence.
Qed.

Lemma findFirst_alter_other {A : Type} (q : A → bool) (f : A → A) (i : nat) (x : A)
    (l : list A) :
  l !! i = Some x → q x = false → q (f x) = false →
  findFirst q (alter f i l) = findFirst q l.
Proof.
  revert i. induction l as [|y l IH]; intros [|i] Hi Hq Hq'; try done.
  - injection Hi as ->. change (alter f 0%nat (x :: l)) with (f x :: l).
    simpl. by rewrite Hq, Hq'.
  - change (alter f (S i) (y :: l)) with (y :: alter f i l). simpl.
    destruct (q y); [done|]. by rewrite (IH i Hi Hq Hq').
Qed.

Lemma findFirst_alter_same {A : Type} (q : A → bool) (f : A → A) (i : nat) (x : A)
    (l : list A) :
  findFirst q l = Some (i, x) → q (f x) = true →
  findFirst q (alter f i l) = Some (i, f x).
Proof.
  revert i. induction l as [|y l IH]; intros i Hf Hq'; simpl in Hf; [done|].
  destruct (q y) eqn:Hy.
  - injection Hf as <- <-. change (alter f 0%nat (y :: l)) with (f y :: l).
    simpl. by rewrite Hq'.
  - destruct (findFirst q l) as [[j z]|] eqn:Hl; simpl in Hf; [|done].
    injection Hf as <- <-.
    change (alter f (S j) (y :: l)) with (y :: alter f j l). simpl.
    rewrite Hy. by rewrite (IH j eq_refl Hq').
Qed.

Lemma findFirst_app_new {A : Type} (q : A → bool) (x : A) (l : list A) :
  findFirst q l = None → q x = true →
  findFirst q (l ++ [x]) = Some (length l, x).
Proof.
  induction l as [|y l IH]; simpl; intros Hf Hq; [by rewrite Hq|].
  destruct (q y); [done|].
  destruct (findFirst q l) as [[]|]; [done|]. by rewrite IH.
Qed.

Lemma findFirst_app_other {A : Type} (q : A → bool) (x : A) (l : list A) :
  q x = false → snd <$> findFirst q (l ++ [x]) = snd <$> findFirst q l.
Proof.
  intros Hq. induction l as [|y l IH]; simpl; [by rewrite Hq|].
  destruct (q y); [done|].
  destruct (findFirst q (l ++ [x])) as [[]|], (findFirst q l) as [[]|];
    simpl in *; congruence.
Qed.

Lemma getCartItem_found productId state item :
  getCartItem productId state = Some item →
  ∃ i, findFirst (fun it => String.eqb (id it) productId) (items state) = Some (i, item) ∧
       findIndex (fun it => String.eqb (id it) productId) (items state) = Some i ∧
       items state !! i = Some item ∧ id item = productId.
Proof.
  unfold getCartItem. intros H.
  destruct (findFirst _ _) as [[i x]|] eqn:Hf; [|done]. injection H as ->.
  exists i. split; [done|]. rewrite findIndex_findFirst, Hf. split; [done|].
  apply findFirst_Some in Hf as [Hi Hx]. split; [done|]. by apply String.eqb_eq.
Qed.

Lemma NoDup_delete_first (ids : list string) (i : nat) (x : string) :
  NoDup ids → ids !! i = Some x → x ∉ delete i ids.
Proof.
  intros Hnd Hi Hin.
  apply list_elem_of_lookup in Hin as [j Hj].
  destruct (decide (j < i)%nat).
  - rewrite list_lookup_delete_lt in Hj by done.
    pose proof (NoDup_lookup _ _ _ _ Hnd Hi Hj). lia.
  - rewrite list_lookup_delete_ge in Hj by lia.
    pose proof (NoDup_lookup _ _ _ _ Hnd Hi Hj). lia.
Qed.

(** X2. Removing an id the cart holds (in a cart without duplicate ids and
    with consistent totals): the id is gone, every other id is found as
    before, the cart is one item shorter, the item count drops by the
    quantity of the removed item, the total price is the sum over the items
    that remain, lastUpdated is the time of the call and the session id
    stays. *)
Theorem store_remove_present :
  ∀ now productId state item,
    NoDup (id <$> items state) →
    totalsConsistent state →
    getCartItem productId state = Some item →
    getCartItem productId (removeFromCart now productId state) = None ∧
    (∀ other, other ≠ productId →
       getCartItem other (removeFromCart now productId state) =
       getCartItem other state) ∧
    S (length (items (removeFromCart now productId state))) = length (items state) ∧
    _itemCount (removeFromCart now productId state) = _itemCount state - quantity item ∧
    _totalPrice (removeFromCart now productId state) =
      sumAmount (items (removeFromCart now productId state)) ∧
    lastUpdated (removeFromCart now productId state) = now ∧
    sessionId (removeFromCart now productId state) = sessionId state.
Proof.
  intros now productId state item Hnd [Hc Ht] Hget.
  destruct (getCartItem_found _ _ _ Hget) as (i & Hff & Hfi & Hi & Hid).
  unfold removeFromCart. rewrite Hfi, computeCartValues_sums.
  pose proof (sums_delete i item (items state) Hi) as Hq.
  repeat split; simpl.
  - apply getCartItem_None. simpl. rewrite list_fmap_delete.
    apply NoDup_delete_first; [done|]. by rewrite list_lookup_fmap, Hi, <- Hid.
  - intros other Hne. unfold getCartItem. simpl.
    apply (findFirst_delete_other _ i item); [done|].
    apply String.eqb_neq. congruence.
  - rewrite length_delete by eauto.
    apply lookup_lt_Some in Hi. lia.
  - rewrite Hq, Hc. done.
Qed.

Lemma store_remove_present_witness :
  getCartItem "A" (removeFromCart 5 "A" storeWithA) = None ∧
  _itemCount (removeFromCart 5 "A" storeWithA) = 2 - 2 ∧
  _totalPrice (removeFromCart 5 "A" storeWithA) =
    sumAmount (items (removeFromCart 5 "A" storeWithA)).
Proof.
  destruct (store_remove_present 5 "A" storeWithA
              {| id := "A"; product := productA; quantity := 2; addedAt := 0 |})
    as (H1 & _ & _ & H2 & H3 & _).
  - apply NoDup_singleton.
  - split; reflexivity.
  - reflexivity.
  - repeat split; assumption.
Defined.

End StoreLookups.

Section StoreUpdates.

Import CartStore.

(** X3. updateQuantity with a positive quantity: for an id the cart holds,
    that item (the first with the id) takes the new quantity and keeps its
    product and its place, every other id is found as before, the item
    count moves by the difference of the quantities and the total price is
    the sum over the items as they then are; for an id the cart does not
    hold, the store is left as it is, lastUpdated included. *)
Theorem store_update_positive :
  ∀ now productId qty state,
    0 < qty →
    totalsConsistent state →
    (∀ item,
       getCartItem productId state = Some item →
       getCartItem productId (updateQuantity now productId qty state) =
         Some (withQuantity qty item) ∧
       (∀ other, other ≠ productId →
          getCartItem other (updateQuantity now productId qty state) =
          getCartItem other state) ∧
       length (items (updateQuantity now productId qty state)) = length (items state) ∧
       _itemCount (updateQuantity now productId qty state) =
         _itemCount state - quantity item + qty ∧
       _totalPrice (updateQuantity now productId qty state) =
         sumAmount (items (updateQuantity now productId qty state)) ∧
       lastUpdated (updateQuantity now productId qty state) = now) ∧
    (getCartItem productId state = None →
     updateQuantity now productId qty state = state).
Proof.
  intros now productId qty state Hq [Hc Ht]. unfold updateQuantity.
  destruct (Z.leb_spec qty 0); [lia|]. split.
  - intros item Hget.
    destruct (getCartItem_found _ _ _ Hget) as (i & Hff & Hfi & Hi & Hid).
    rewrite Hfi, computeCartValues_sums.
    pose proof (sums_alter (withQuantity qty) i item (items state) Hi) as Hsq.
    repeat split; simpl.
    + unfold getCartItem. simpl.
      rewrite (findFirst_alter_same _ (withQuantity qty) i item); [done|done|].
      simpl. rewrite Hid. apply String.eqb_refl.
    + intros other Hne. unfold getCartItem. simpl.
      rewrite (findFirst_alter_other _ (withQuantity qty) i item); try done.
      * apply String.eqb_neq. congruence.
      * simpl. apply String.eqb_neq. congruence.
    + apply length_alter.
    + rewrite Hsq, Hc. done.
  - intros Hnone. unfold getCartItem in Hnone. rewrite findIndex_findFirst.
    by destruct (findFirst _ _).
Qed.

Lemma store_update_positive_witness :
  getCartItem "A" (updateQuantity 5 "A" 7 storeWithA) =
    Some {| id := "A"; product := productA; quantity := 7; addedAt := 0 |} ∧
  _itemCount (updateQuantity 5 "A" 7 storeWithA) = 2 - 2 + 7 ∧
  updateQuantity 5 "B" 7 storeWithA = storeWithA.
Proof.
  destruct (store_update_positive 5 "A" 7 storeWithA) as [Hpresent _];
    [lia | split; reflexivity |].
  destruct (store_update_positive 5 "B" 7 storeWithA) as [_ Habsent];
    [lia | split; reflexivity |].
  destruct (Hpresent {| id := "A"; product := productA; quantity := 2; addedAt := 0 |})
    as (H1 & _ & _ & H2 & _); [reflexivity|].
  split; [exact H1|]. split; [exact H2|]. apply Habsent. reflexivity.
Defined.

(** X4. addToCart, on a store with consistent totals, works with the
    product data: the product handed in, or the refetched one when the
    product handed in lacks a truthy price or a name and the refetch
    succeeds.  The id of the product data is found afterwards; the item
    count grows by the quantity added and the total price is the sum over
    the items as they then are.  The found item holds the product data and
    exactly the quantity added when the id was new, and the product stored
    before, with the quantities added up, when the id was already in the
    cart: the price of a product added again is not taken over. *)
Theorem store_add_lookup_and_totals :
  ∀ f now p qty state,
    totalsConsistent state →
    ∃ item',
      getCartItem (externalId (productDataFor f p)) (addToCart f now p qty state) =
        Some item' ∧
      _itemCount (addToCart f now p qty state) = _itemCount state + qty ∧
      _totalPrice (addToCart f now p qty state) =
        sumAmount (items (addToCart f now p qty state)) ∧
      item' =
        match getCartItem (externalId (productDataFor f p)) state with
        | Some existing => withQuantity (quantity existing + qty) existing
        | None =>
            {| id := externalId (productDataFor f p); product := productDataFor f p;
               quantity := qty; addedAt := now |}
        end.
Proof.
  intros f now p qty state [Hc Ht].
  destruct (getCartItem (externalId (productDataFor f p)) state) as [existing|] eqn:Hget.
  - destruct (getCartItem_found _ _ _ Hget) as (i & Hff & Hfi & Hi & Hid).
    exists (withQuantity (quantity existing + qty) existing).
    unfold addToCart. rewrite Hfi, computeCartValues_sums.
    pose proof (sums_alter (fun item => withQuantity (quantity item + qty) item) i
                  existing (items state) Hi) as Hsq.
    repeat split; simpl.
    + unfold getCartItem. simpl.
      rewrite (findFirst_alter_same _
                 (fun item => withQuantity (quantity item + qty) item) i existing);
        [done|done|].
      simpl. rewrite Hid. apply String.eqb_refl.
    + rewrite Hsq, Hc. simpl. ring.
  - exists {| id := externalId (productDataFor f p); product := productDataFor f p;
              quantity := qty; addedAt := now |}.
    unfold getCartItem in Hget.
    assert (findFirst
              (fun item => String.eqb (id item) (externalId (productDataFor f p)))
              (items state) = None) as Hnone by (by destruct (findFirst _ _)).
    unfold addToCart. rewrite findIndex_findFirst, Hnone, computeCartValues_sums.
    repeat split; simpl.
    + unfold getCartItem. simpl. rewrite findFirst_app_new; [done|done|].
      simpl. apply String.eqb_refl.
    + rewrite sumQuantity_app, Hc. simpl. ring.
Qed.

(** An item bought at 10 and added again at a catalog price of 12 keeps the
    product at 10: the total is 50, not 56 or 60. *)
Lemma store_add_lookup_and_totals_witness :
  ∃ item',
    getCartItem "A"
      (addToCart (fun _ => None) 7
         {| externalId := "A"; name := "Produto A"; price := PriceNumber 12;
            availableQuantity := 100; isActive := true |} 3 storeWithA) = Some item' ∧
    _itemCount
      (addToCart (fun _ => None) 7
         {| externalId := "A"; name := "Produto A"; price := PriceNumber 12;
            availableQuantity := 100; isActive := true |} 3 storeWithA) = 2 + 3 ∧
    _totalPrice
      (addToCart (fun _ => None) 7
         {| externalId := "A"; name := "Produto A"; price := PriceNumber 12;
            availableQuantity := 100; isActive := true |} 3 storeWithA) =
      sumAmount [ {| id := "A"; product := productA; quantity := 5; addedAt := 0 |} ] ∧
    item' = {| id := "A"; product := productA; quantity := 2 + 3; addedAt := 0 |}.
Proof.
  apply (store_add_lookup_and_totals (fun _ => None) 7
           {| externalId := "A"; name := "Produto A"; price := PriceNumber 12;
              availableQuantity := 100; isActive := true |} 3 storeWithA).
  split; reflexivity.
Defined.

Lemma validateItems_clean f (its : list CartItem) :
  (validateItems f its).1 = [] ↔ Forall (passes f) its.
Proof.
  induction its as [|item rest IH]; simpl.
  - split; [constructor | done].
  - destruct (validateItems f rest) as [iss validated]. simpl in IH.
    destruct (f (externalId (product item))) as [productData|] eqn:Hf; simpl.
    + destruct (isActive productData) eqn:Ha; simpl.
      * destruct (Z.ltb_spec (availableQuantity productData) (quantity item))
          as [Hlt|Hge]; simpl.
        -- split; [done|]. intros Hall.
           inversion Hall as [|? ? (pd & Hpd & _ & Hle) _]; subst.
           rewrite Hf in Hpd. injection Hpd as <-. lia.
        -- rewrite IH. split.
           ++ intros Hall. constructor; [|done]. by exists productData.
           ++ intros Hall. by inversion Hall.
      * split; [done|]. intros Hall.
        inversion Hall as [|? ? (pd & Hpd & Hact & _) _]; subst.
        rewrite Hf in Hpd. injection Hpd as <-. congruence.
    + split; [done|]. intros Hall.
      inversion Hall as [|? ? (pd & Hpd & _) _]; subst. congruence.
Qed.

Lemma validateItems_refreshed f (its : list CartItem) :
  Forall (passes f) its → (validateItems f its).2 = refreshed f <$> its.
Proof.
  induction 1 as [|item rest (pd & Hpd & Ha & Hle) Hrest IH]; simpl; [done|].
  destruct (validateItems f rest) as [iss validated]. simpl in IH.
  rewrite Hpd, Ha. simpl.
  destruct (Z.ltb_spec (availableQuantity pd) (quantity item)) as [Hlt|Hge]; [lia|].
  simpl. rewrite IH. unfold refreshed at 2. by rewrite Hpd.
Qed.

(** X5. The store's validateCart reports no issue exactly when every item of
    the cart passes: its product is fetched, active and in stock for the
    quantity.  In that case the cart keeps all its items, in order, each
    with its id, quantity and time of adding, and with the fetched product
    in place of the stored one. *)
Theorem store_validateCart_clean :
  ∀ f now state,
    (hasIssues (validateCart f now state).2 = false ↔
     Forall (passes f) (items state)) ∧
    (Forall (passes f) (items state) →
     items (validateCart f now state).1 = refreshed f <$> items state).
Proof.
  intros f now state.
  destruct (validateCart_writes f now state) as [Hst Hiss].
  pose proof (validateItems_clean f (items state)) as Hclean.
  split.
  - rewrite <- Hclean. unfold validateCart.
    destruct (validateItems f (items state)) as [iss validated].
    rewrite computeCartValues_sums. simpl.
    destruct iss; simpl; split; done.
  - intros Hall. rewrite Hst. simpl. by apply validateItems_refreshed.
Qed.

Lemma store_validateCart_clean_witness :
  hasIssues (validateCart (fun _ => Some productA) 9 storeWithA).2 = false ∧
  items (validateCart (fun _ => Some productA) 9 storeWithA).1 =
    refreshed (fun _ => Some productA) <$> items storeWithA.
Proof.
  destruct (store_validateCart_clean (fun _ => Some productA) 9 storeWithA)
    as [Hiff Hitems].
  assert (Forall (passes (fun _ => Some productA)) (items storeWithA)) as Hall.
  { repeat constructor. exists productA. repeat split. simpl. lia. }
  split; [by apply Hiff | by apply Hitems].
Defined.

End StoreUpdates.

(** ** The Convex mutations: well-formed carts, acceptance, frame *)

Section ServerInvariants.

Import CartOperations.

Lemma filter_sublist {A : Type} (p : A → bool) (l : list A) :
  List.filter p l `sublist_of` l.
Proof.
  induction l as [|x l IH]; simpl; [constructor|].
  destruct (p x); by constructor.
Qed.

Lemma findFirst_None_keys {A : Type} (key : A → string) (k : string) (l : list A) :
  findFirst (fun x => String.eqb (key x) k) l = None ↔ k ∉ key <$> l.
Proof.
  rewrite findFirst_None. split.
  - intros Hall Hin. apply list_elem_of_fmap in Hin as (x & -> & Hx).
    rewrite Forall_forall in Hall. specialize (Hall x Hx). simpl in Hall.
    by rewrite String.eqb_refl in Hall.
  - intros Hnot. apply Forall_forall. intros x Hx. apply String.eqb_neq.
    intros Heq. apply Hnot. apply list_elem_of_fmap. by exists x.
Qed.









End ServerInvariants.

Section ServerCarts.

Import CartOperations.

Lemma findFirst_insert_same {A : Type} (q : A → bool) (i : nat) (x v : A) (l : list A) :
  findFirst q l = Some (i, x) → q v = true →
  findFirst q (<[i := v]> l) = Some (i, v).
Proof.
  revert i. induction l as [|y l IH]; intros i Hf Hv; simpl in Hf; [done|].
  destruct (q y) eqn:Hy.
  - injection Hf as <- <-. simpl. by rewrite Hv.
  - destruct (findFirst q l) as [[j z]|] eqn:Hl; simpl in Hf; [|done].
    injection Hf as <- <-. simpl. rewrite Hy. by rewrite (IH j eq_refl Hv).
Qed.

Lemma findFirst_insert_other {A : Type} (q : A → bool) (i : nat) (x v : A) (l : list A) :
  l !! i = Some x → q x = false → q v = false →
  findFirst q (<[i := v]> l) = findFirst q l.
Proof.
  revert i. induction l as [|y l IH]; intros [|i] Hi Hq Hv; try done.
  - injection Hi as ->. simpl. by rewrite Hq, Hv.
  - simpl. destruct (q y); [done|]. by rewrite (IH i Hi Hq Hv).
Qed.

Lemma findFirst_filter_other {A : Type} (q p : A → bool) (l : list A) :
  (∀ x, q x = true → p x = true) →
  snd <$> findFirst q (List.filter p l) = snd <$> findFirst q l.
Proof.
  intros Hqp. induction l as [|y l IH]; simpl; [done|].
  destruct (p y) eqn:Hp; simpl.
  - destruct (q y); [done|].
    destruct (findFirst q (List.filter p l)) as [[]|], (findFirst q l) as [[]|];
      simpl in *; congruence.
  - destruct (q y) eqn:Hq; [apply Hqp in Hq; congruence|].
    rewrite IH. by destruct (findFirst q l) as [[]|].
Qed.

Lemma filter_length_le {A : Type} (p : A → bool) (l : list A) :
  (length (List.filter p l) ≤ length l)%nat.
Proof.
  induction l as [|y l IH]; simpl; [done|]. destruct (p y); simpl; lia.
Qed.

Lemma filter_length_eq {A : Type} (p : A → bool) (l : list A) :
  length (List.filter p l) = length l ↔ Forall (fun x => p x = true) l.
Proof.
  induction l as [|y l IH]; simpl; [split; [constructor|done]|].
  pose proof (filter_length_le p l). destruct (p y) eqn:Hp; simpl.
  - split.
    + intros [= H']. constructor; [done|]. by apply IH.
    + intros Hall. inversion Hall; subst. f_equal. by apply IH.
  - split; [lia|]. intros Hall. inversion Hall; congruence.
Qed.

Lemma filter_drops_key (pid : string) (its : list CartItem) :
  pid ∉ productId <$> List.filter (fun item => negb (String.eqb (productId item) pid)) its.
Proof.
  intros Hin. apply list_elem_of_fmap in Hin as (x & -> & Hx).
  apply list_elem_of_In, List.filter_In in Hx as [_ Hx].
  by rewrite String.eqb_refl in Hx.
Qed.

Lemma firstSession_patch sid db ci c its ti ta now :
  firstSession sid db = Some (ci, c) →
  firstSession sid (patch ci (patchSession its ti ta now) db) =
    Some (ci, patchSession its ti ta now c).
Proof.
  intros Hfs. unfold firstSession, patch. simpl.
  apply findFirst_alter_same; [done|]. simpl.
  by apply findFirst_Some in Hfs as [_ Hq].
Qed.

Lemma firstSession_patch_other sid sid' db ci c its ti ta now :
  firstSession sid db = Some (ci, c) → sid' ≠ sid →
  firstSession sid' (patch ci (patchSession its ti ta now) db) = firstSession sid' db.
Proof.
  intros Hfs Hne. apply firstSession_lookup in Hfs as [Hci Hsid].
  unfold firstSession, patch. simpl.
  eapply findFirst_alter_other; [exact Hci| |]; simpl;
    apply String.eqb_neq; congruence.
Qed.

Lemma cartItems_patch sid db ci c its ti ta now :
  firstSession sid db = Some (ci, c) →
  cartItems sid (patch ci (patchSession its ti ta now) db) = its.
Proof.
  intros Hfs. unfold cartItems. by erewrite firstSession_patch.
Qed.

Lemma cartItems_patch_other sid sid' db ci c its ti ta now :
  firstSession sid db = Some (ci, c) → sid' ≠ sid →
  cartItems sid' (patch ci (patchSession its ti ta now) db) = cartItems sid' db.
Proof.
  intros Hfs Hne. unfold cartItems. by erewrite firstSession_patch_other.
Qed.

Lemma cartItems_found sid db ci c :
  firstSession sid db = Some (ci, c) → cartItems sid db = items c.
Proof. intros Hfs. unfold cartItems. by rewrite Hfs. Qed.

Lemma cartItems_none sid db : firstSession sid db = None → cartItems sid db = [].
Proof. intros Hfs. unfold cartItems. by rewrite Hfs. Qed.

Lemma inCart_found sid pid db :
  inCart sid pid db ↔
  ∃ i item, findFirst (fun item => String.eqb (productId item) pid) (cartItems sid db) =
              Some (i, item).
Proof.
  unfold inCart.
  destruct (findFirst _ (cartItems sid db)) as [[i item]|] eqn:Hf.
  - split; [eauto|]. intros _. apply findFirst_Some in Hf as [Hi Hq].
    apply String.eqb_eq in Hq. subst. apply list_elem_of_fmap.
    exists item. split; [done|]. by eapply list_elem_of_lookup_2.
  - split; [|by intros (?&?&?)]. intros Hin.
    by apply findFirst_None_keys in Hf.
Qed.

Lemma frame_same sid' db :
  products db = products db ∧ cartItems sid' db = cartItems sid' db ∧
  ∀ i c0, cart_sessions db !! i = Some c0 → sessionId c0 = sid' →
          cart_sessions db !! i = Some c0.
Proof. done. Qed.

Lemma frame_patch sid sid' db ci c its ti ta now :
  firstSession sid db = Some (ci, c) → sid' ≠ sid →
  products (patch ci (patchSession its ti ta now) db) = products db ∧
  cartItems sid' (patch ci (patchSession its ti ta now) db) = cartItems sid' db ∧
  ∀ i c0, cart_sessions db !! i = Some c0 → sessionId c0 = sid' →
          cart_sessions (patch ci (patchSession its ti ta now) db) !! i = Some c0.
Proof.
  intros Hfs Hne. split; [done|]. split; [by eapply cartItems_patch_other|].
  intros i c0 Hi Hc0. apply firstSession_lookup in Hfs as [Hci Hsid].
  simpl. rewrite list_lookup_alter_ne; [done|]. intros ->. congruence.
Qed.

Lemma frame_new sid sid' db new :
  sessionId new = sid → sid' ≠ sid →
  cartItems sid' {| products := products db; cart_sessions := cart_sessions db ++ [new] |} =
    cartItems sid' db ∧
  ∀ i c0, cart_sessions db !! i = Some c0 → sessionId c0 = sid' →
          (cart_sessions db ++ [new]) !! i = Some c0.
Proof.
  intros Hnew Hne. split.
  - unfold cartItems, firstSession. simpl.
    assert (String.eqb (sessionId new) sid' = false) as Hq
      by (apply String.eqb_neq; congruence).
    pose proof (findFirst_app_other (fun c => String.eqb (sessionId c) sid') new
                  (cart_sessions db) Hq) as Heq.
    destruct (findFirst _ (cart_sessions db ++ [new])) as [[]|],
             (findFirst _ (cart_sessions db)) as [[]|]; simpl in Heq; congruence.
  - intros i c0 Hi _. by apply lookup_app_l_Some.
Qed.

(** X7. A cart mutation called for one session leaves the catalog as it
    is, and every cart document of any other session exactly as it is
    (items, totals and timestamps), whether it succeeds or throws. *)
Theorem server_other_sessions_untouched :
  ∀ m db sid',
    sid' ≠ mutationSession m →
    products (after m db) = products db ∧
    cartItems sid' (after m db) = cartItems sid' db ∧
    ∀ i c, cart_sessions db !! i = Some c → sessionId c = sid' →
           cart_sessions (after m db) !! i = Some c.
Proof.
  intros m db sid' Hne. unfold after.
  destruct m as [now sid pid qty|now sid pid|now sid pid qty|now sid]; simpl in *.
  - unfold addToCart.
    destruct (products db !! pid) as [product|]; [|apply frame_same].
    destruct (negb (isActive product)); [apply frame_same|].
    destruct (availableQuantity product <? qty); [apply frame_same|].
    destruct (qty <=? 0); [apply frame_same|].
    destruct (firstSession sid db) as [[ci c]|] eqn:Hfs.
    + destruct (findFirst _ (items c)) as [[ei existingItem]|].
      * destruct (availableQuantity product <? _); [apply frame_same|].
        by eapply frame_patch.
      * by eapply frame_patch.
    + split; [done|]. by apply (frame_new sid).
  - unfold removeFromCart.
    destruct (firstSession sid db) as [[ci c]|] eqn:Hfs; [|apply frame_same].
    destruct (_ =? _)%nat; [apply frame_same|]. by eapply frame_patch.
  - unfold updateCartItemQuantity.
    destruct (qty <=? 0); [apply frame_same|].
    destruct (products db !! pid) as [product|]; [|apply frame_same].
    destruct (negb (isActive product)); [apply frame_same|].
    destruct (availableQuantity product <? qty); [apply frame_same|].
    destruct (firstSession sid db) as [[ci c]|] eqn:Hfs; [|apply frame_same].
    destruct (findFirst _ (items c)) as [[ei old]|]; [|apply frame_same].
    by eapply frame_patch.
  - unfold clearCart.
    destruct (firstSession sid db) as [[ci c]|] eqn:Hfs; [|apply frame_same].
    by eapply frame_patch.
Qed.

Lemma server_other_sessions_untouched_witness :
  products (after (AddToCart 9 "t" "A" 1) (cartWithA 10 100)) = products (cartWithA 10 100) ∧
  cartItems "s" (after (AddToCart 9 "t" "A" 1) (cartWithA 10 100)) =
    cartItems "s" (cartWithA 10 100) ∧
  ∀ i c, cart_sessions (cartWithA 10 100) !! i = Some c → sessionId c = "s" →
         cart_sessions (after (AddToCart 9 "t" "A" 1) (cartWithA 10 100)) !! i = Some c.
Proof.
  apply (server_other_sessions_untouched (AddToCart 9 "t" "A" 1) (cartWithA 10 100) "s").
  simpl. discriminate.
Defined.

Lemma quantity_snd (a b : option (nat * CartItem)) :
  snd <$> a = snd <$> b →
  match a with Some (_, x) => quantity x | None => 0 end =
  match b with Some (_, x) => quantity x | None => 0 end.
Proof. destruct a as [[]|], b as [[]|]; simpl; congruence. Qed.



Lemma quantityInCart_nocart sid pid db :
  firstSession sid db = None → quantityInCart sid pid db = 0.
Proof. intros Hfs. unfold quantityInCart. by rewrite (cartItems_none _ _ Hfs). Qed.

Lemma firstSession_new sid db new :
  firstSession sid db = None → sessionId new = sid →
  firstSession sid {| products := products db;
                      cart_sessions := cart_sessions db ++ [new] |} =
    Some (length (cart_sessions db), new).
Proof.
  intros Hfs Hnew. unfold firstSession. simpl.
  apply findFirst_app_new; [done|]. by apply String.eqb_eq.
Qed.


(** X9. After a successful [addToCart] the cart of the session lists the
    product with the quantity it held before plus the added one (the added
    one when it held none, also when the cart is created by the call), the
    quantity of every other product of the cart is as before, and the
    returned [cartId] is the cart document of the session. *)
Theorem server_addToCart_quantities :
  ∀ now sid pid qty db db' r,
    addToCart now sid pid qty db = Success db' r →
    inCart sid pid db' ∧
    quantityInCart sid pid db' = quantityInCart sid pid db + qty ∧
    (∀ pid', pid' ≠ pid → quantityInCart sid pid' db' = quantityInCart sid pid' db) ∧
    r = fst <$> firstSession sid db'.
Proof.
  intros now sid pid qty db db' r. unfold addToCart.
  destruct (products db !! pid) as [product|]; [|done].
  destruct (negb (isActive product)); [done|].
  destruct (availableQuantity product <? qty); [done|].
  destruct (qty <=? 0); [done|].
  destruct (firstSession sid db) as [[ci c]|] eqn:Hfs.
  - destruct (findFirst _ (items c)) as [[ei existingItem]|] eqn:Hfi.
    + destruct (availableQuantity product <? _); [done|]. intros [= <- <-].
      pose proof (findFirst_Some _ _ _ _ Hfi) as [Hei Hq].
      assert (findFirst (fun item => String.eqb (productId item) pid)
                (<[ei := {| productId := productId existingItem;
                            quantity := quantity existingItem + qty;
                            unitPrice := price product |}]> (items c)) =
              Some (ei, {| productId := productId existingItem;
                           quantity := quantity existingItem + qty;
                           unitPrice := price product |})) as Hnew
        by (by eapply findFirst_insert_same).
      split; [|split; [|split]].
      * apply inCart_found. rewrite (cartItems_patch _ _ _ _ _ _ _ _ Hfs). eauto.
      * unfold quantityInCart.
        rewrite (cartItems_patch _ _ _ _ _ _ _ _ Hfs), (cartItems_found _ _ _ _ Hfs).
        by rewrite Hnew, Hfi.
      * intros pid' Hne. unfold quantityInCart.
        rewrite (cartItems_patch _ _ _ _ _ _ _ _ Hfs), (cartItems_found _ _ _ _ Hfs).
        apply String.eqb_eq in Hq.
        erewrite findFirst_insert_other; [done|exact Hei| |]; simpl;
          apply String.eqb_neq; congruence.
      * by rewrite (firstSession_patch _ _ _ _ _ _ _ _ Hfs).
    + intros [= <- <-].
      assert (findFirst (fun item => String.eqb (productId item) pid)
                (items c ++ [ {| productId := pid; quantity := qty;
                                 unitPrice := price product |} ]) =
              Some (length (items c),
                    {| productId := pid; quantity := qty;
                       unitPrice := price product |})) as Hnew
        by (apply findFirst_app_new; [done|apply String.eqb_refl]).
      split; [|split; [|split]].
      * apply inCart_found. rewrite (cartItems_patch _ _ _ _ _ _ _ _ Hfs). eauto.
      * unfold quantityInCart.
        rewrite (cartItems_patch _ _ _ _ _ _ _ _ Hfs), (cartItems_found _ _ _ _ Hfs).
        rewrite Hnew, Hfi. simpl. lia.
      * intros pid' Hne. unfold quantityInCart.
        rewrite (cartItems_patch _ _ _ _ _ _ _ _ Hfs), (cartItems_found _ _ _ _ Hfs).
        assert (String.eqb pid pid' = false) as Hq'
          by (apply String.eqb_neq; congruence).
        apply quantity_snd. by apply findFirst_app_other.
      * by rewrite (firstSession_patch _ _ _ _ _ _ _ _ Hfs).
  - intros [= <- <-].
    pose proof (firstSession_new sid db
                  {| sessionId := sid;
                     items := [ {| productId := pid; quantity := qty;
                                   unitPrice := price product |} ];
                     totalItems := qty;
                     totalAmount := (price product * toNumber qty)%float;
                     createdAt := now; updatedAt := now |} Hfs eq_refl) as Hnew.
    split; [|split; [|split]].
    + unfold inCart, cartItems. rewrite Hnew. simpl. apply list_elem_of_singleton. done.
    + unfold quantityInCart at 1. unfold cartItems. rewrite Hnew. simpl.
      rewrite String.eqb_refl. rewrite (quantityInCart_nocart _ _ _ Hfs). simpl. lia.
    + intros pid' Hne. rewrite (quantityInCart_nocart _ _ _ Hfs).
      unfold quantityInCart, cartItems. rewrite Hnew. simpl.
      assert (String.eqb pid pid' = false) as -> by (apply String.eqb_neq; congruence).
      done.
    + by rewrite Hnew.
Qed.

Lemma server_addToCart_quantities_witness :
  inCart "s" "A" (after (AddToCart 7 "s" "A" 3) (cartWithA 10 100)) ∧
  quantityInCart "s" "A" (after (AddToCart 7 "s" "A" 3) (cartWithA 10 100)) =
    quantityInCart "s" "A" (cartWithA 10 100) + 3 ∧
  (∀ pid', pid' ≠ "A" →
     quantityInCart "s" pid' (after (AddToCart 7 "s" "A" 3) (cartWithA 10 100)) =
     quantityInCart "s" pid' (cartWithA 10 100)) ∧
  Some 0%nat = fst <$> firstSession "s" (after (AddToCart 7 "s" "A" 3) (cartWithA 10 100)).
Proof.
  apply (server_addToCart_quantities 7 "s" "A" 3 (cartWithA 10 100)
           (after (AddToCart 7 "s" "A" 3) (cartWithA 10 100)) (Some 0%nat)).
  reflexivity.
Defined.


(** X11. After a successful [updateCartItemQuantity] the cart lists the
    product with exactly the requested quantity, the cart lists the same
    products in the same order, and the quantity of every other product is
    as before. *)
Theorem server_update_sets_quantity :
  ∀ now sid pid qty db db' r,
    updateCartItemQuantity now sid pid qty db = Success db' r →
    quantityInCart sid pid db' = qty ∧
    productId <$> cartItems sid db' = productId <$> cartItems sid db ∧
    (∀ pid', pid' ≠ pid → quantityInCart sid pid' db' = quantityInCart sid pid' db).
Proof.
  intros now sid pid qty db db' r. unfold updateCartItemQuantity.
  destruct (qty <=? 0); [done|].
  destruct (products db !! pid) as [product|]; [|done].
  destruct (negb (isActive product)); [done|].
  destruct (availableQuantity product <? qty); [done|].
  destruct (firstSession sid db) as [[ci c]|] eqn:Hfs; [|done].
  destruct (findFirst _ (items c)) as [[ei old]|] eqn:Hfi; [|done].
  intros [= <- <-].
  pose proof (findFirst_Some _ _ _ _ Hfi) as [Hei Hq].
  rewrite (cartItems_found _ _ _ _ Hfs).
  unfold quantityInCart.
  rewrite (cartItems_patch _ _ _ _ _ _ _ _ Hfs), (cartItems_found _ _ _ _ Hfs).
  split; [|split].
  - by erewrite findFirst_insert_same.
  - rewrite list_fmap_insert. simpl. apply list_insert_id.
    by rewrite list_lookup_fmap, Hei.
  - intros pid' Hne. apply String.eqb_eq in Hq.
    erewrite findFirst_insert_other; [done|exact Hei| |]; simpl;
      apply String.eqb_neq; congruence.
Qed.

Lemma server_update_sets_quantity_witness :
  quantityInCart "s" "A" (after (UpdateCartItemQuantity 7 "s" "A" 5) (cartWithA 10 100)) = 5 ∧
  productId <$> cartItems "s" (after (UpdateCartItemQuantity 7 "s" "A" 5) (cartWithA 10 100)) =
    productId <$> cartItems "s" (cartWithA 10 100) ∧
  (∀ pid', pid' ≠ "A" →
     quantityInCart "s" pid' (after (UpdateCartItemQuantity 7 "s" "A" 5) (cartWithA 10 100)) =
     quantityInCart "s" pid' (cartWithA 10 100)).
Proof.
  apply (server_update_sets_quantity 7 "s" "A" 5 (cartWithA 10 100)
           (after (UpdateCartItemQuantity 7 "s" "A" 5) (cartWithA 10 100)) None).
  reflexivity.
Defined.

(** X12. [removeFromCart] succeeds exactly when the cart of the session
    lists the product. *)
Theorem server_remove_accepts :
  ∀ now sid pid db,
    (∃ db' r, removeFromCart now sid pid db = Success db' r) ↔ inCart sid pid db.
Proof.
  intros now sid pid db. unfold removeFromCart, inCart, cartItems.
  destruct (firstSession sid db) as [[ci c]|] eqn:Hfs.
  - destruct (Nat.eqb_spec
                (length (List.filter (fun item => negb (String.eqb (productId item) pid))
                           (items c)))
                (length (items c))) as [Heq|Hne].
    + split; [by intros (?&?&?)|]. intros Hin. exfalso.
      apply filter_length_eq in Heq. rewrite Forall_forall in Heq.
      apply list_elem_of_fmap in Hin as (x & -> & Hx).
      specialize (Heq x Hx). simpl in Heq. by rewrite String.eqb_refl in Heq.
    + split; [|by eauto]. intros _.
      destruct (decide (pid ∈ productId <$> items c)) as [|Hnot]; [done|].
      exfalso. apply Hne. apply filter_length_eq. apply Forall_forall.
      intros x Hx. apply negb_true_iff, String.eqb_neq. intros Heq.
      apply Hnot. apply list_elem_of_fmap. by exists x.
  - split; [by intros (?&?&?)|]. intros Hin. by apply elem_of_nil in Hin.
Qed.

(** X13. After a successful [removeFromCart] the cart no longer lists the
    product (every item of the product is dropped), it is shorter than
    before, and the quantity of every other product is as before. *)
Theorem server_remove_drops_product :
  ∀ now sid pid db db' r,
    removeFromCart now sid pid db = Success db' r →
    ¬ inCart sid pid db' ∧ quantityInCart sid pid db' = 0 ∧
    (length (cartItems sid db') < length (cartItems sid db))%nat ∧
    (∀ pid', pid' ≠ pid → quantityInCart sid pid' db' = quantityInCart sid pid' db).
Proof.
  intros now sid pid db db' r. unfold removeFromCart.
  destruct (firstSession sid db) as [[ci c]|] eqn:Hfs; [|done].
  destruct (Nat.eqb_spec
              (length (List.filter (fun item => negb (String.eqb (productId item) pid))
                         (items c)))
              (length (items c))) as [Heq|Hne]; [done|].
  intros [= <- <-]. unfold inCart, quantityInCart.
  rewrite (cartItems_patch _ _ _ _ _ _ _ _ Hfs), (cartItems_found _ _ _ _ Hfs).
  pose proof (filter_drops_key pid (items c)) as Hnot.
  split; [done|]. split; [|split].
  - apply findFirst_None_keys in Hnot. by rewrite Hnot.
  - pose proof (filter_length_le
                  (fun item => negb (String.eqb (productId item) pid)) (items c)).
    lia.
  - intros pid' Hne'. apply quantity_snd. apply findFirst_filter_other.
    intros x Hx. apply String.eqb_eq in Hx. apply negb_true_iff, String.eqb_neq.
    congruence.
Qed.

Lemma server_remove_drops_product_witness :
  ¬ inCart "s" "A" (after (RemoveFromCart 7 "s" "A") (cartWithA 10 100)) ∧
  quantityInCart "s" "A" (after (RemoveFromCart 7 "s" "A") (cartWithA 10 100)) = 0 ∧
  (length (cartItems "s" (after (RemoveFromCart 7 "s" "A") (cartWithA 10 100))) <
   length (cartItems "s" (cartWithA 10 100)))%nat ∧
  (∀ pid', pid' ≠ "A" →
     quantityInCart "s" pid' (after (RemoveFromCart 7 "s" "A") (cartWithA 10 100)) =
     quantityInCart "s" pid' (cartWithA 10 100)).
Proof.
  apply (server_remove_drops_product 7 "s" "A" (cartWithA 10 100)
           (after (RemoveFromCart 7 "s" "A") (cartWithA 10 100)) None).
  reflexivity.
Defined.

Lemma patch_patch ci (f g : CartSession → CartSession) db :
  patch ci g (patch ci f db) = patch ci (g ∘ f) db.
Proof.
  unfold patch. simpl. f_equal. apply list_eq. intros i.
  destruct (decide (i = ci)) as [->|Hne].
  - rewrite !list_lookup_alter, !decide_True by done.
    by destruct (cart_sessions db !! ci).
  - by rewrite !list_lookup_alter_ne.
Qed.

(** X14. [clearCart] never throws: it leaves a session without a cart as
    it is, and otherwise keeps the cart document with no items and both
    totals at [0]; no cart document is deleted, and clearing again gives
    what one clearing at the later time gives. *)
Theorem server_clearCart_empties :
  ∀ now sid db,
    ∃ db', clearCart now sid db = Success db' None ∧
           cartItems sid db' = [] ∧
           (fst <$> firstSession sid db') = (fst <$> firstSession sid db) ∧
           (totalItems ∘ snd <$> firstSession sid db') =
             ((fun _ => 0) <$> firstSession sid db) ∧
           (totalAmount ∘ snd <$> firstSession sid db') =
             ((fun _ => 0%float) <$> firstSession sid db) ∧
           length (cart_sessions db') = length (cart_sessions db) ∧
           ∀ now', clearCart now' sid db' = clearCart now' sid db.
Proof.
  intros now sid db. unfold clearCart.
  destruct (firstSession sid db) as [[ci c]|] eqn:Hfs.
  - eexists. split; [done|].
    rewrite (cartItems_patch _ _ _ _ _ _ _ _ Hfs).
    rewrite (firstSession_patch _ _ _ _ _ _ _ _ Hfs). simpl.
    repeat (split; [done|]). split.
    + by rewrite length_alter.
    + intros now'. by rewrite patch_patch.
  - exists db. rewrite Hfs. unfold cartItems. by rewrite Hfs.
Qed.

End ServerCarts.

(** ** The cache service: removal, repeated reads, foreign keys, reloads *)

Section CacheCalls.

Import CacheService.

Context {T : Type}.
Context (quotaExceeded :
  gmap string (Stored (CacheItem T)) → string → Stored (CacheItem T) → bool).

Lemma lookup_filter_keep {A : Type} (P : string * A → Prop)
    `{!∀ x, Decision (P x)} (m : gmap string A) (k : string) :
  (∀ v, P (k, v)) → filter P m !! k = m !! k.
Proof.
  intros HP. apply option_eq. intros v. rewrite map_lookup_filter_Some.
  split; [by intros [? _]|]. intros Hv. split; [done|apply HP].
Qed.

Lemma lookup_filter_drop {A : Type} (P : string * A → Prop)
    `{!∀ x, Decision (P x)} (m : gmap string A) (k : string) :
  (∀ v, ¬ P (k, v)) → filter P m !! k = None.
Proof.
  intros HP. apply eq_None_not_Some. intros [v Hv].
  apply map_lookup_filter_Some in Hv as [_ Hv]. by apply (HP v).
Qed.

Lemma mapGet_mapDelete key (m : list (string * CacheItem T)) :
  mapGet key (mapDelete key m) = None.
Proof.
  induction m as [|[k v] m IH]; simpl; [done|].
  destruct (String.eqb k key) eqn:Hk; simpl; [done|]. by rewrite Hk.
Qed.

Lemma mapGet_mapDelete_ne key key' (m : list (string * CacheItem T)) :
  key' ≠ key → mapGet key' (mapDelete key m) = mapGet key' m.
Proof.
  intros Hne. induction m as [|[k v] m IH]; simpl; [done|].
  destruct (String.eqb k key) eqn:Hk; simpl.
  - apply String.eqb_eq in Hk. subst.
    by assert (String.eqb key key' = false) as -> by (apply String.eqb_neq; congruence).
  - by rewrite IH.
Qed.

Lemma mapGet_mapSet_ne key key' (item : CacheItem T) m :
  key' ≠ key → mapGet key' (mapSet key item m) = mapGet key' m.
Proof.
  intros Hne. induction m as [|[k v] m IH]; simpl.
  - by assert (String.eqb key key' = false) as -> by (apply String.eqb_neq; congruence).
  - destruct (String.eqb k key) eqn:Hk; simpl.
    + apply String.eqb_eq in Hk. subst.
      by assert (String.eqb key key' = false) as -> by (apply String.eqb_neq; congruence).
    + by rewrite IH.
Qed.

(** What [get] returns depends on the configuration and on what the two
    tiers hold under the key. *)
Lemma get_result_local now namespace identifier (c c' : Cache T) :
  config c = config c' →
  mapGet (generateKey namespace identifier) (memoryCache c) =
    mapGet (generateKey namespace identifier) (memoryCache c') →
  localStorage c !! generateKey namespace identifier =
    localStorage c' !! generateKey namespace identifier →
  (get now namespace identifier c).1 = (get now namespace identifier c').1.
Proof.
  intros Hcfg Hm Hls. unfold get, getFromLocalStorage. rewrite Hcfg, Hm, Hls.
  destruct (mapGet _ (memoryCache c')) as [memoryItem|].
  - destruct (negb (isExpired now memoryItem) && isVersionValid (config c') memoryItem);
      [done|].
    destruct (localStorage c' !! _) as [[item|]|]; [|done..].
    by destruct (negb (isVersionValid (config c') item) || isExpired now item).
  - destruct (localStorage c' !! _) as [[item|]|]; [|done..].
    by destruct (negb (isVersionValid (config c') item) || isExpired now item).
Qed.

Lemma get_after_remove now namespace identifier (c : Cache T) :
  get now namespace identifier (remove namespace identifier c) =
    (None, remove namespace identifier c).
Proof.
  unfold get, remove, getFromLocalStorage. simpl.
  by rewrite mapGet_mapDelete, lookup_delete_eq.
Qed.

(** X15. After [remove] a [get] of the same pair misses at any time and
    changes nothing, and a [get] of any pair with another key returns what
    it returned before the removal. *)
Theorem cache_remove_then_get :
  ∀ now namespace identifier (c : Cache T),
    get now namespace identifier (remove namespace identifier c) =
      (None, remove namespace identifier c) ∧
    ∀ namespace' identifier',
      generateKey namespace' identifier' ≠ generateKey namespace identifier →
      (get now namespace' identifier' (remove namespace identifier c)).1 =
      (get now namespace' identifier' c).1.
Proof.
  intros now namespace identifier c. split; [apply get_after_remove|].
  intros namespace' identifier' Hne. apply get_result_local; simpl; [done| |].
    + by apply mapGet_mapDelete_ne.
    + by apply lookup_delete_ne.
Qed.

(** The storage half of [get]: what a [get] does once the memory tier has
    no valid item. *)
Lemma get_from_storage_again now key (cfg : CacheConfig) (m : list (string * CacheItem T))
    (ls : gmap string (Stored (CacheItem T))) :
  match getFromLocalStorage cfg now key ls with
  | (Some localItem, ls') =>
      ls' = ls ∧ isExpired now localItem = false ∧ isVersionValid cfg localItem = true
  | (None, ls') => ∀ now', getFromLocalStorage cfg now' key ls' = (None, ls')
  end.
Proof.
  unfold getFromLocalStorage.
  destruct (ls !! key) as [[item|]|] eqn:Hls.
  - destruct (negb (isVersionValid cfg item) || isExpired now item) eqn:Hbad.
    + intros now'. by rewrite lookup_delete_eq.
    + apply orb_false_iff in Hbad as [Hv He]. by apply negb_false_iff in Hv.
  - intros now'. by rewrite Hls.
  - intros now'. by rewrite Hls.
Qed.

(** X16. Reading twice is reading once: a second [get] of the same pair at
    the same time returns the same result and leaves the service as the
    first left it. *)
Theorem cache_get_repeatable :
  ∀ now namespace identifier (c : Cache T),
    get now namespace identifier (get now namespace identifier c).2 =
    get now namespace identifier c.
Proof.
  intros now namespace identifier c. unfold get.
  pose proof (get_from_storage_again now (generateKey namespace identifier)
                (config c) (memoryCache c) (localStorage c)) as Hst.
  destruct (getFromLocalStorage (config c) now _ (localStorage c))
    as [[localItem|] ls'] eqn:Hget.
  - destruct Hst as (-> & He & Hv).
    destruct (mapGet _ (memoryCache c)) as [memoryItem|] eqn:Hm.
    + destruct (negb (isExpired now memoryItem) && isVersionValid (config c) memoryItem)
        eqn:Hvalid; simpl.
      * by rewrite Hm, Hvalid.
      * by rewrite mapGet_mapSet, He, Hv.
    + simpl. by rewrite mapGet_mapSet, He, Hv.
  - destruct (mapGet _ (memoryCache c)) as [memoryItem|] eqn:Hm.
    + destruct (negb (isExpired now memoryItem) && isVersionValid (config c) memoryItem)
        eqn:Hvalid; simpl.
      * by rewrite Hm, Hvalid.
      * by rewrite Hm, Hvalid, Hst.
    + simpl. by rewrite Hm, Hst.
Qed.

Lemma isExpired_later now now' (item : CacheItem T) :
  isExpired now item = true → now ≤ now' → isExpired now' item = true.
Proof.
  unfold isExpired. intros H Hle.
  destruct (Z.gtb_spec (now - timestamp item) (ttl item)); [|done].
  destruct (Z.gtb_spec (now' - timestamp item) (ttl item)); [done|lia].
Qed.

(** X17. A miss is final: once a [get] missed, a [get] of the same pair at
    any later time misses too and changes nothing, as long as nothing is
    written in between. *)
Theorem cache_miss_is_final :
  ∀ now now' namespace identifier (c : Cache T),
    (get now namespace identifier c).1 = None → now ≤ now' →
    get now' namespace identifier (get now namespace identifier c).2 =
      (None, (get now namespace identifier c).2).
Proof.
  intros now now' namespace identifier c. unfold get.
  pose proof (get_from_storage_again now (generateKey namespace identifier)
                (config c) (memoryCache c) (localStorage c)) as Hst.
  destruct (getFromLocalStorage (config c) now _ (localStorage c))
    as [[localItem|] ls'] eqn:Hget.
  - destruct (mapGet _ (memoryCache c)) as [memoryItem|] eqn:Hm; [|done].
    by destruct (negb (isExpired now memoryItem) && isVersionValid (config c) memoryItem).
  - destruct (mapGet _ (memoryCache c)) as [memoryItem|] eqn:Hm.
    + destruct (negb (isExpired now memoryItem) && isVersionValid (config c) memoryItem)
        eqn:Hvalid; [done|].
      intros _ Hle. simpl. rewrite Hm, Hst.
      apply andb_false_iff in Hvalid as [He|Hv].
      * apply negb_false_iff in He. by rewrite (isExpired_later _ _ _ He Hle).
      * rewrite Hv. by rewrite andb_false_r.
    + intros _ _. simpl. by rewrite Hm, Hst.
Qed.

Lemma generateKey_prefix namespace identifier :
  String.prefix "cache_" (generateKey namespace identifier) = true.
Proof. unfold generateKey. simpl. by destruct (_ +:+ _). Qed.

Lemma prefix_append (a b k : string) :
  String.prefix (a +:+ b) k = true → String.prefix a k = true.
Proof.
  revert k. induction a as [|x a IH]; intros k; [by destruct k|].
  destruct k as [|y k]; [done|]. simpl.
  destruct (Ascii.ascii_dec x y); [apply IH|done].
Qed.

Lemma prefix_of_append (a b : string) : String.prefix a (a +:+ b) = true.
Proof.
  induction a as [|x a IH]; simpl; [by destruct b|].
  by destruct (Ascii.ascii_dec x x).
Qed.

Lemma getFromLocalStorage_other cfg now key k (ls : gmap string (Stored (CacheItem T))) :
  k ≠ key → (getFromLocalStorage cfg now key ls).2 !! k = ls !! k.
Proof.
  intros Hne. unfold getFromLocalStorage.
  destruct (ls !! key) as [[item|]|]; [|done..].
  destruct (negb (isVersionValid cfg item) || isExpired now item); [|done].
  simpl. by apply lookup_delete_ne.
Qed.

Lemma setToLocalStorage_other key item k (ls : gmap string (Stored (CacheItem T))) :
  k ≠ key → (setToLocalStorage quotaExceeded key item ls).2 !! k = ls !! k.
Proof.
  intros Hne. unfold setToLocalStorage.
  destruct (quotaExceeded ls key _); [done|]. simpl. by rewrite lookup_insert_ne.
Qed.

Lemma get_foreign now namespace identifier k (c : Cache T) :
  String.prefix "cache_" k = false →
  localStorage (get now namespace identifier c).2 !! k = localStorage c !! k.
Proof.
  intros Hk.
  assert (k ≠ generateKey namespace identifier) as Hne.
  { intros ->. by rewrite generateKey_prefix in Hk. }
  pose proof (getFromLocalStorage_other (config c) now
                (generateKey namespace identifier) k (localStorage c) Hne) as Hst.
  unfold get.
  destruct (getFromLocalStorage (config c) now _ (localStorage c)) as [[localItem|] ls'].
  - destruct (mapGet _ (memoryCache c)) as [memoryItem|]; [|done].
    by destruct (negb (isExpired now memoryItem) && isVersionValid (config c) memoryItem).
  - destruct (mapGet _ (memoryCache c)) as [memoryItem|]; [|done].
    by destruct (negb (isExpired now memoryItem) && isVersionValid (config c) memoryItem).
Qed.

Lemma call_foreign (c : Cache T) timed k :
  String.prefix "cache_" k = false →
  localStorage (call quotaExceeded c timed) !! k = localStorage c !! k.
Proof.
  intros Hk.
  assert (∀ namespace identifier, k ≠ generateKey namespace identifier) as Hne.
  { intros namespace identifier ->. by rewrite generateKey_prefix in Hk. }
  destruct timed as [now [namespace identifier|namespace identifier
                          |namespace identifier d ttl'|namespace identifier
                          |namespace| |namespace identifier newTTL]]; simpl.
  - by apply get_foreign.
  - unfold has.
    pose proof (get_foreign now namespace identifier k c Hk) as Hget.
    by destruct (get now namespace identifier c) as [[d|] c'].
  - by apply setToLocalStorage_other.
  - by apply lookup_delete_ne.
  - apply lookup_filter_keep. intros v.
    change (String.prefix ("cache_" +:+ namespace +:+ "_") k = false).
    destruct (String.prefix ("cache_" +:+ namespace +:+ "_") k) eqn:Hp; [|done].
    apply prefix_append in Hp. congruence.
  - apply lookup_filter_keep. by intros v.
  - unfold updateTTL.
    destruct (mapGet _ (memoryCache c)) as [memoryItem|].
    + pose proof (setToLocalStorage_other (generateKey namespace identifier)
                    (renewed now newTTL memoryItem) k (localStorage c)
                    (Hne namespace identifier)) as Hset.
      by destruct (setToLocalStorage quotaExceeded _ _ (localStorage c)) as [[e|] ls'].
    + pose proof (getFromLocalStorage_other (config c) now
                    (generateKey namespace identifier) k (localStorage c)
                    (Hne namespace identifier)) as Hst.
      destruct (getFromLocalStorage (config c) now _ (localStorage c))
        as [[localItem|] ls']; simpl in *; [|done].
      pose proof (setToLocalStorage_other (generateKey namespace identifier)
                    (renewed now newTTL localItem) k ls'
                    (Hne namespace identifier)) as Hset.
      destruct (setToLocalStorage quotaExceeded _ _ ls') as [[e|] ls'']; simpl in *;
        congruence.
Qed.

(** X18. Whatever is called on the service, in any order and at any time,
    a [localStorage] key that does not start with [cache_] (the persisted
    cart under [cart-storage], the session id) keeps its value: the
    clean-ups and evictions of the cache never reach it. *)
Theorem cache_leaves_foreign_keys :
  ∀ timedCalls (c : Cache T) k,
    String.prefix "cache_" k = false →
    localStorage (calls quotaExceeded timedCalls c) !! k = localStorage c !! k.
Proof.
  intros timedCalls c k Hk. unfold calls. revert c.
  induction timedCalls as [|timed timedCalls IH]; intros c; simpl; [done|].
  rewrite IH. by apply call_foreign.
Qed.

Lemma mapGet_filter_drop (p : string → bool) key (m : list (string * CacheItem T)) :
  p key = true → mapGet key (List.filter (fun kv => negb (p kv.1)) m) = None.
Proof.
  intros Hp. induction m as [|[k v] m IH]; simpl; [done|].
  destruct (p k) eqn:Hk; simpl; [done|].
  destruct (String.eqb_spec k key) as [->|]; [congruence|done].
Qed.

Lemma mapGet_filter_keep (p : string → bool) key (m : list (string * CacheItem T)) :
  p key = false → mapGet key (List.filter (fun kv => negb (p kv.1)) m) = mapGet key m.
Proof.
  intros Hp. induction m as [|[k v] m IH]; simpl; [done|].
  destruct (p k) eqn:Hk; simpl.
  - destruct (String.eqb_spec k key) as [->|]; [congruence|done].
  - by rewrite IH.
Qed.

Lemma namespace_prefix namespace identifier :
  String.prefix ("cache_" +:+ namespace +:+ "_") (generateKey namespace identifier) = true.
Proof.
  unfold generateKey. simpl.
  induction namespace as [|x namespace IH]; simpl.
  - by destruct identifier.
  - by destruct (Ascii.ascii_dec x x).
Qed.

Lemma get_nothing_held now namespace identifier (c : Cache T) :
  mapGet (generateKey namespace identifier) (memoryCache c) = None →
  localStorage c !! generateKey namespace identifier = None →
  (get now namespace identifier c).1 = None.
Proof.
  intros Hm Hls. unfold get, getFromLocalStorage. by rewrite Hm, Hls.
Qed.

(** X19. After [clearAll] every [get] misses; after [clearNamespace] every
    [get] in that namespace misses, and a [get] of a key that does not
    start with the prefix of the namespace returns what it returned
    before. *)
Theorem cache_clear_then_get :
  ∀ now namespace identifier (c : Cache T),
    (get now namespace identifier (clearAll c)).1 = None ∧
    (get now namespace identifier (clearNamespace namespace c)).1 = None ∧
    ∀ namespace' identifier',
      String.prefix ("cache_" +:+ namespace +:+ "_")
                    (generateKey namespace' identifier') = false →
      (get now namespace' identifier' (clearNamespace namespace c)).1 =
      (get now namespace' identifier' c).1.
Proof.
  intros now namespace identifier c. split; [|split].
  - apply get_nothing_held; simpl; [done|].
    apply lookup_filter_drop. intros v.
    change (String.prefix "cache_" (generateKey namespace identifier) ≠ false).
    by rewrite generateKey_prefix.
  - apply get_nothing_held.
    + apply (mapGet_filter_drop (String.prefix ("cache_" +:+ namespace +:+ "_"))).
      apply namespace_prefix.
    + apply lookup_filter_drop. intros v.
      change (String.prefix ("cache_" +:+ namespace +:+ "_")
                (generateKey namespace identifier) ≠ false).
      by rewrite namespace_prefix.
  - intros namespace' identifier' Hp. apply get_result_local; [done| |].
    + by apply (mapGet_filter_keep (String.prefix ("cache_" +:+ namespace +:+ "_"))).
    + apply lookup_filter_keep. by intros v.
Qed.

(** X20. What [set] wrote survives a page load: a service constructed
    over the same [localStorage] with the same version returns the data
    within the [ttl] and takes the item into its memory tier; one
    constructed with another version misses at any time and deletes the
    entry. *)
Theorem cache_across_reload :
  ∀ t0 now namespace identifier (d : T) ttl' cfg' (c : Cache T),
    quotaExceeded (localStorage c) (generateKey namespace identifier)
      (Json {| data := d; timestamp := t0; ttl := effectiveTTL (config c) ttl';
               version := configVersion (config c) |}) = false →
    (configVersion cfg' = configVersion (config c) →
     now - t0 ≤ effectiveTTL (config c) ttl' →
     (get now namespace identifier
        (reloaded cfg' (set quotaExceeded t0 namespace identifier d ttl' c))).1 = Some d ∧
     mapGet (generateKey namespace identifier)
       (memoryCache
          (get now namespace identifier
             (reloaded cfg' (set quotaExceeded t0 namespace identifier d ttl' c))).2) =
       Some {| data := d; timestamp := t0; ttl := effectiveTTL (config c) ttl';
               version := configVersion (config c) |}) ∧
    (configVersion cfg' ≠ configVersion (config c) →
     (get now namespace identifier
        (reloaded cfg' (set quotaExceeded t0 namespace identifier d ttl' c))).1 = None ∧
     localStorage
       (get now namespace identifier
          (reloaded cfg' (set quotaExceeded t0 namespace identifier d ttl' c))).2
       !! generateKey namespace identifier = None).
Proof.
  intros t0 now namespace identifier d ttl' cfg' c Hq.
  pose proof (set_storage_accepted quotaExceeded t0 namespace identifier d ttl' c Hq)
    as Hls.
  unfold get, reloaded, getFromLocalStorage.
  cbn [memoryCache config localStorage mapGet]. rewrite Hls.
  unfold isVersionValid, isExpired. cbn [version timestamp ttl data].
  split.
  - intros Hv Hfresh. rewrite <- Hv, String.eqb_refl.
    destruct (Z.gtb_spec (now - t0) (effectiveTTL (config c) ttl')); [lia|].
    simpl. by rewrite String.eqb_refl.
  - intros Hv.
    assert (String.eqb (configVersion (config c)) (configVersion cfg') = false) as ->
      by (apply String.eqb_neq; congruence).
    simpl. split; [done|]. apply lookup_delete_eq.
Qed.

(** X21. When the memory tier holds an item under the key, or else
    [localStorage] a valid one, [updateTTL] renews it: the call answers
    [true] when [localStorage] accepts the renewed item and throws a
    [ReferenceError] when it refuses it; in both cases, when the item
    carries the version of the service, a [get] within the new [ttl] of
    the call then returns its data, also when the item of the memory tier
    had expired before the call. *)
Theorem cache_updateTTL_renews :
  ∀ now now' namespace identifier newTTL (c : Cache T) item,
    heldItem now namespace identifier c = Some item →
    isVersionValid (config c) item = true →
    now' - now ≤ newTTL →
    (updateTTL quotaExceeded now namespace identifier newTTL c).1 =
      (if quotaExceeded (localStorage c) (generateKey namespace identifier)
            (Json (renewed now newTTL item))
       then Raised (ReferenceError "DEBUG") else Value true) ∧
    get now' namespace identifier
      (updateTTL quotaExceeded now namespace identifier newTTL c).2 =
      (Some (data item), (updateTTL quotaExceeded now namespace identifier newTTL c).2).
Proof.
  intros now now' namespace identifier newTTL c item Hheld Hv Hfresh.
  assert (∀ c', config c' = config c →
            mapGet (generateKey namespace identifier) (memoryCache c') =
              Some (renewed now newTTL item) →
            get now' namespace identifier c' = (Some (data item), c')) as Hget.
  { intros c' Hcfg Hm. unfold get. rewrite Hm, Hcfg.
    unfold isExpired, isVersionValid in *. simpl.
    destruct (Z.gtb_spec (now' - now) newTTL); [lia|]. simpl. by rewrite Hv. }
  unfold heldItem in Hheld. unfold updateTTL.
  destruct (mapGet _ (memoryCache c)) as [memoryItem|] eqn:Hm.
  - injection Hheld as ->. unfold setToLocalStorage.
    destruct (quotaExceeded (localStorage c) _ _); simpl;
      (split; [done|]); (apply Hget; [done|]); apply mapGet_mapSet.
  - pose proof (get_from_storage_again now (generateKey namespace identifier)
                  (config c) (memoryCache c) (localStorage c)) as Hst.
    destruct (getFromLocalStorage (config c) now _ (localStorage c))
      as [[localItem|] ls']; simpl in Hheld; [|done].
    injection Hheld as ->. destruct Hst as (-> & _ & _).
    unfold setToLocalStorage.
    destruct (quotaExceeded (localStorage c) _ _); simpl;
      (split; [done|]); (apply Hget; [done|]); apply mapGet_mapSet.
Qed.

End CacheCalls.

Lemma cache_miss_is_final_witness :
  CacheService.get 9 "products" "all"
    (CacheService.get 5 "products" "all"
       (CacheService.emptyCache (T:=nat) CacheService.singletonConfig)).2 =
  (None,
   (CacheService.get 5 "products" "all"
      (CacheService.emptyCache (T:=nat) CacheService.singletonConfig)).2).
Proof.
  apply (cache_miss_is_final 5 9 "products" "all"
           (CacheService.emptyCache (T:=nat) CacheService.singletonConfig));
    [reflexivity|lia].
Defined.

Lemma cache_leaves_foreign_keys_witness :
  CacheService.localStorage
    (CacheService.calls (fun _ _ _ => false)
       [(5, CacheService.CallSet "products" "all" 1%nat None);
        (6, CacheService.CallClearAll)]
       (CacheService.reloaded CacheService.singletonConfig
          {| CacheService.config := CacheService.singletonConfig;
             CacheService.memoryCache := [];
             CacheService.localStorage := {[ "cart-storage" := CacheService.Unparsable ]} |}))
    !! "cart-storage" = Some CacheService.Unparsable.
Proof.
  rewrite (cache_leaves_foreign_keys (fun _ _ _ => false)
             [(5, CacheService.CallSet "products" "all" 1%nat None);
              (6, CacheService.CallClearAll)]
             (CacheService.reloaded CacheService.singletonConfig
                {| CacheService.config := CacheService.singletonConfig;
                   CacheService.memoryCache := [];
                   CacheService.localStorage :=
                     {[ "cart-storage" := CacheService.Unparsable ]} |})
             "cart-storage");
    reflexivity.
Defined.

Lemma cache_across_reload_witness :
  (CacheService.get 100 "products" "all"
     (CacheService.reloaded CacheService.singletonConfig
        (CacheService.set (fun _ _ _ => false) 0 "products" "all" 7%nat None
           (CacheService.emptyCache CacheService.singletonConfig)))).1 = Some 7%nat.
Proof.
  destruct (cache_across_reload (fun _ _ _ => false) 0 100 "products" "all" 7%nat None
              CacheService.singletonConfig
              (CacheService.emptyCache CacheService.singletonConfig) eq_refl)
    as [Hsame _].
  apply Hsame; [reflexivity|]. vm_compute. discriminate.
Defined.

(** An item of the memory tier that expired long ago, renewed while
    [localStorage] refuses every write: the call throws, and the item is
    served again. *)
Lemma cache_updateTTL_renews_witness :
  (CacheService.updateTTL (fun _ _ _ => true) 1000 "products" "all" 50
     {| CacheService.config := CacheService.singletonConfig;
        CacheService.memoryCache :=
          [("cache_products_all",
            {| CacheService.data := 7%nat; CacheService.timestamp := 0;
               CacheService.ttl := 10; CacheService.version := "1.0.0" |})];
        CacheService.localStorage := ∅ |}).1 =
    CacheService.Raised (CacheService.ReferenceError "DEBUG") ∧
  (CacheService.get 1020 "products" "all"
     (CacheService.updateTTL (fun _ _ _ => true) 1000 "products" "all" 50
        {| CacheService.config := CacheService.singletonConfig;
           CacheService.memoryCache :=
             [("cache_products_all",
               {| CacheService.data := 7%nat; CacheService.timestamp := 0;
                  CacheService.ttl := 10; CacheService.version := "1.0.0" |})];
           CacheService.localStorage := ∅ |}).2).1 = Some 7%nat.
Proof.
  destruct (cache_updateTTL_renews (fun _ _ _ => true) 1000 1020 "products" "all" 50
              {| CacheService.config := CacheService.singletonConfig;
                 CacheService.memoryCache :=
                   [("cache_products_all",
                     {| CacheService.data := 7%nat; CacheService.timestamp := 0;
                        CacheService.ttl := 10; CacheService.version := "1.0.0" |})];
                 CacheService.localStorage := ∅ |}
              {| CacheService.data := 7%nat; CacheService.timestamp := 0;
                 CacheService.ttl := 10; CacheService.version := "1.0.0" |})
    as [Hanswer Hget]; [reflexivity|reflexivity|lia|].
  split; [exact Hanswer|]. by rewrite Hget.
Defined.

(** ** The in-memory cache: the periodic clean-up *)

Section MemoryCleanup.

Import MemoryCacheService.

Context {T : Type}.

Lemma cleanup_lookup now (cache : gmap string (CacheItem T)) key :
  cleanup now cache !! key =
  match cache !! key with
  | Some item => if now - timestamp item >? ttl item then None else Some item
  | None => None
  end.
Proof.
  unfold cleanup. destruct (cache !! key) as [item|] eqn:Hc.
  - destruct (now - timestamp item >? ttl item) eqn:He.
    + apply eq_None_not_Some. intros [x Hx].
      apply map_lookup_filter_Some in Hx as [Hx HP]. simpl in HP.
      rewrite Hc in Hx. injection Hx as <-. congruence.
    + by apply map_lookup_filter_Some.
  - apply eq_None_not_Some. intros [x Hx].
    apply map_lookup_filter_Some in Hx as [Hx _]. congruence.
Qed.

(** X22. The periodic [cleanup] cannot be observed through [get] or [has]:
    at the time of the clean-up or any later time, both answer on the
    cleaned cache what they answer on the uncleaned one; and [has] answers
    [true] exactly when [get] returns the data (a payload is not [null]),
    leaving the same cache behind. *)
Theorem memory_cleanup_is_unobservable :
  ∀ now now' key (cache : gmap string (CacheItem T)),
    now ≤ now' →
    (get now' key (cleanup now cache)).1 = (get now' key cache).1 ∧
    (has now' key (cleanup now cache)).1 = (has now' key cache).1 ∧
    (has now' key cache).1 = bool_decide (is_Some (get now' key cache).1) ∧
    (has now' key cache).2 = (get now' key cache).2.
Proof.
  intros now now' key cache Hle. unfold get, has. rewrite cleanup_lookup.
  destruct (cache !! key) as [item|]; [|done].
  destruct (Z.gtb_spec (now - timestamp item) (ttl item)) as [Hold|Hfresh].
  - destruct (Z.gtb_spec (now' - timestamp item) (ttl item)); [done|lia].
  - by destruct (Z.gtb_spec (now' - timestamp item) (ttl item)).
Qed.

End MemoryCleanup.

Lemma memory_cleanup_is_unobservable_witness :
  (MemoryCacheService.get 700000 "k"
     (MemoryCacheService.cleanup 600000
        (MemoryCacheService.set 0 "k" 7%nat None ∅))).1 =
  (MemoryCacheService.get 700000 "k" (MemoryCacheService.set 0 "k" 7%nat None ∅)).1.
Proof.
  destruct (memory_cleanup_is_unobservable 600000 700000 "k"
              (MemoryCacheService.set 0 "k" 7%nat None ∅)) as [Hget _]; [lia|].
  apply Hget.
Defined.

(** ** Retrying: where the loops stop *)

Section RetryOutcomes.

Import ProductsAPI.

Context {A : Type}.

Lemma retryLoop_first_success (fn : nat → Attempt A) initialDelay :
  ∀ k remaining attempt lastError tr value,
    (k < remaining)%nat →
    (∀ j, (j < k)%nat → ∃ e, fn (attempt + j)%nat = Failed e) →
    fn (attempt + k)%nat = Resolved value →
    retryLoop fn initialDelay attempt remaining lastError tr =
      (Resolved value,
       {| calls := calls tr + k + 1;
          waits := waits tr ++
                   ((fun a => initialDelay * 2 ^ (Z.of_nat a - 1)) <$> seq attempt k) |}).
Proof.
  induction k as [|k IH]; intros remaining attempt lastError tr value Hk Hfail Hok.
  - destruct remaining as [|remaining]; [lia|]. simpl.
    rewrite Nat.add_0_r in Hok. rewrite Hok. f_equal.
    rewrite app_nil_r. f_equal. lia.
  - destruct remaining as [|remaining]; [lia|]. simpl.
    destruct (Hfail 0%nat ltac:(lia)) as [e He]. rewrite Nat.add_0_r in He.
    rewrite He. destruct remaining as [|remaining]; [lia|].
    rewrite (IH (S remaining) (S attempt) e _ value); [| lia | |].
    + simpl. f_equal. rewrite <- app_assoc. f_equal. lia.
    + intros j Hj. destruct (Hfail (S j) ltac:(lia)) as [e' He'].
      exists e'. by replace (S attempt + j)%nat with (attempt + S j)%nat by lia.
    + by replace (S attempt + k)%nat with (attempt + S k)%nat by lia.
Qed.

Lemma retryLoop_failed (fn : nat → Attempt A) initialDelay attempt remaining
    lastError tr e :
  fn attempt = Failed e →
  retryLoop fn initialDelay attempt (S (S remaining)) lastError tr =
  retryLoop fn initialDelay (S attempt) (S remaining) e
    {| calls := S (calls tr);
       waits := waits tr ++ [initialDelay * 2 ^ (Z.of_nat attempt - 1)] |}.
Proof.
  intros He. change (retryLoop fn initialDelay attempt (S (S remaining)) lastError tr)
    with (match fn attempt with
          | Resolved value =>
              (Resolved value, {| calls := S (calls tr); waits := waits tr |})
          | Failed error =>
              retryLoop fn initialDelay (S attempt) (S remaining) error
                {| calls := S (calls tr);
                   waits := waits tr ++ [initialDelay * 2 ^ (Z.of_nat attempt - 1)] |}
          end).
  by rewrite He.
Qed.

Lemma retryLoop_all_fail (fn : nat → Attempt A) initialDelay :
  ∀ n attempt lastError tr error,
    (∀ j, (j < n)%nat → ∃ e, fn (attempt + j)%nat = Failed e) →
    fn (attempt + n)%nat = Failed error →
    retryLoop fn initialDelay attempt (S n) lastError tr =
      (Failed error,
       {| calls := calls tr + n + 1;
          waits := waits tr ++
                   ((fun a => initialDelay * 2 ^ (Z.of_nat a - 1)) <$> seq attempt n) |}).
Proof.
  induction n as [|n IH]; intros attempt lastError tr error Hfail Hlast.
  - simpl. rewrite Nat.add_0_r in Hlast. rewrite Hlast. f_equal.
    rewrite app_nil_r. f_equal. lia.
  - destruct (Hfail 0%nat ltac:(lia)) as [e He]. rewrite Nat.add_0_r in He.
    rewrite (retryLoop_failed fn initialDelay attempt n lastError tr e He).
    rewrite (IH (S attempt) e _ error); [| |].
    + simpl. f_equal. rewrite <- app_assoc. f_equal. lia.
    + intros j Hj. destruct (Hfail (S j) ltac:(lia)) as [e' He'].
      exists e'. by replace (S attempt + j)%nat with (attempt + S j)%nat by lia.
    + by replace (S attempt + n)%nat with (attempt + S n)%nat by lia.
Qed.

(** X23. [retryWithBackoff] returns the value of the first attempt that
    succeeds: when the attempts before the [k]-th fail and the [k]-th
    (within [maxAttempts]) succeeds, the function was called exactly [k]
    times, and the waits in between were [initialDelay], twice that, four
    times that and so on (before the jitter), one after each failure. *)
Theorem retry_returns_first_success :
  ∀ (fn : nat → Attempt A) maxAttempts initialDelay k value,
    (1 ≤ k ≤ maxAttempts)%nat →
    (∀ j, (1 ≤ j < k)%nat → ∃ e, fn j = Failed e) →
    fn k = Resolved value →
    retryWithBackoff fn maxAttempts initialDelay =
      (Resolved value,
       {| calls := k;
          waits := (fun a => initialDelay * 2 ^ (Z.of_nat a - 1)) <$> seq 1 (k - 1) |}).
Proof.
  intros fn maxAttempts initialDelay k value Hk Hfail Hok.
  unfold retryWithBackoff.
  rewrite (retryLoop_first_success fn initialDelay (k - 1) maxAttempts 1
             ErroDesconhecido _ value).
  - simpl. do 2 f_equal. lia.
  - lia.
  - intros j Hj. apply Hfail. lia.
  - by replace (1 + (k - 1))%nat with k by lia.
Qed.

(** X24. When every attempt fails, [retryWithBackoff] throws the error of
    the last attempt, after exactly [maxAttempts] calls and
    [maxAttempts - 1] waits; no wait follows the last failure. *)
Theorem retry_throws_last_error :
  ∀ (fn : nat → Attempt A) maxAttempts initialDelay error,
    (1 ≤ maxAttempts)%nat →
    (∀ j, (1 ≤ j < maxAttempts)%nat → ∃ e, fn j = Failed e) →
    fn maxAttempts = Failed error →
    retryWithBackoff fn maxAttempts initialDelay =
      (Failed error,
       {| calls := maxAttempts;
          waits := (fun a => initialDelay * 2 ^ (Z.of_nat a - 1))
                     <$> seq 1 (maxAttempts - 1) |}).
Proof.
  intros fn maxAttempts initialDelay error Hmax Hfail Hlast.
  unfold retryWithBackoff. destruct maxAttempts as [|n]; [lia|].
  rewrite (retryLoop_all_fail fn initialDelay n 1 ErroDesconhecido _ error).
  - simpl. do 2 f_equal; [lia|]. by rewrite Nat.sub_0_r.
  - intros j Hj. apply Hfail. lia.
  - done.
Qed.

End RetryOutcomes.

Lemma retry_returns_first_success_witness :
  ProductsAPI.retryWithBackoff
    (fun k => match k with
              | 2%nat => ProductsAPI.Resolved 7%nat
              | _ => ProductsAPI.Failed ProductsAPI.FalhaDeRede
              end) 3 1000 =
  (ProductsAPI.Resolved 7%nat,
   {| ProductsAPI.calls := 2;
      ProductsAPI.waits := (fun a => 1000 * 2 ^ (Z.of_nat a - 1)) <$> seq 1 (2 - 1) |}).
Proof.
  apply (retry_returns_first_success
           (fun k => match k with
                     | 2%nat => ProductsAPI.Resolved 7%nat
                     | _ => ProductsAPI.Failed ProductsAPI.FalhaDeRede
                     end) 3 1000 2 7%nat).
  - lia.
  - intros j Hj. assert (j = 1%nat) as -> by lia. by eexists.
  - reflexivity.
Defined.

Lemma retry_throws_last_error_witness :
  ProductsAPI.retryWithBackoff (A:=nat)
    (fun k => ProductsAPI.Failed (ProductsAPI.ErroDoServidor (500 + Z.of_nat k))) 3 1000 =
  (ProductsAPI.Failed (ProductsAPI.ErroDoServidor 503),
   {| ProductsAPI.calls := 3;
      ProductsAPI.waits := (fun a => 1000 * 2 ^ (Z.of_nat a - 1)) <$> seq 1 (3 - 1) |}).
Proof.
  apply (retry_throws_last_error (A:=nat)
           (fun k => ProductsAPI.Failed (ProductsAPI.ErroDoServidor (500 + Z.of_nat k)))
           3 1000 (ProductsAPI.ErroDoServidor 503)).
  - lia.
  - intros j Hj. by eexists.
  - reflexivity.
Defined.

Section OptimizedRetry.

Import ProductsAPIOptimized.

Context {A : Type}.

Lemma optimized_retryLoop_stops (fn : nat → Attempt A) :
  ∀ k remaining attempt lastError calls,
    (k < remaining)%nat →
    (∀ j, (j < k)%nat → ∃ e, fn (attempt + j)%nat = Failed e ∧ notRetried e = false) →
    (∀ e, fn (attempt + k)%nat = Failed e → notRetried e = true) →
    retryLoop fn attempt remaining lastError calls =
      (Some (fn (attempt + k)%nat), (calls + k + 1)%nat).
Proof.
  induction k as [|k IH]; intros remaining attempt lastError calls Hk Hfail Hstop.
  - destruct remaining as [|remaining]; [lia|]. simpl.
    rewrite Nat.add_0_r in *. destruct (fn attempt) as [value|error] eqn:Hfn.
    + f_equal. lia.
    + rewrite (Hstop error eq_refl). f_equal. lia.
  - destruct remaining as [|remaining]; [lia|]. simpl.
    destruct (Hfail 0%nat ltac:(lia)) as (e & He & Hre). rewrite Nat.add_0_r in He.
    rewrite He, Hre.
    rewrite (IH remaining (S attempt) (Some e) (S calls)); [| lia | |].
    + replace (S attempt + k)%nat with (attempt + S k)%nat by lia. f_equal. lia.
    + intros j Hj. destruct (Hfail (S j) ltac:(lia)) as (e' & He' & Hre').
      exists e'. by replace (S attempt + j)%nat with (attempt + S j)%nat by lia.
    + intros e'. replace (S attempt + k)%nat with (attempt + S k)%nat by lia.
      apply Hstop.
Qed.

Lemma optimized_retryLoop_last (fn : nat → Attempt A) :
  ∀ remaining attempt lastError calls,
    ∃ k, (k < S remaining)%nat ∧
         retryLoop fn attempt (S remaining) lastError calls =
           (Some (fn (attempt + k)%nat), (calls + k + 1)%nat).
Proof.
  induction remaining as [|remaining IH]; intros attempt lastError calls.
  - exists 0%nat. split; [lia|]. simpl. rewrite Nat.add_0_r.
    destruct (fn attempt) as [value|error]; [f_equal; lia|].
    destruct (notRetried error); simpl; f_equal; lia.
  - change (retryLoop fn attempt (S (S remaining)) lastError calls)
      with (match fn attempt with
            | Resolved value => (Some (Resolved value), S calls)
            | Failed error =>
                if notRetried error then (Some (Failed error), S calls)
                else retryLoop fn (S attempt) (S remaining) (Some error) (S calls)
            end).
    destruct (fn attempt) as [value|error] eqn:Hfn.
    + exists 0%nat. split; [lia|]. rewrite Nat.add_0_r, Hfn. f_equal. lia.
    + destruct (notRetried error).
      * exists 0%nat. split; [lia|]. rewrite Nat.add_0_r, Hfn. f_equal. lia.
      * destruct (IH (S attempt) (Some error) (S calls)) as (k & Hk & Hloop).
        exists (S k). split; [lia|]. rewrite Hloop.
        replace (S attempt + k)%nat with (attempt + S k)%nat by lia. f_equal. lia.
Qed.

(** X25. The [retryWithBackoff] of [useProductsAPIOptimized] ends with the
    first attempt that succeeds or fails with an error that is not retried
    (an abort, or an HTTP 4xx other than 408): when the attempts before
    attempt [k] (counted from 0) fail with retried errors, the outcome is
    that of attempt [k], after [k + 1] calls. *)
Theorem optimized_retry_stops_at :
  ∀ (fn : nat → Attempt A) maxRetries k,
    (k ≤ maxRetries)%nat →
    (∀ j, (j < k)%nat → ∃ e, fn j = Failed e ∧ notRetried e = false) →
    (∀ e, fn k = Failed e → notRetried e = true) →
    retryWithBackoff fn maxRetries = (Some (fn k), S k).
Proof.
  intros fn maxRetries k Hk Hfail Hstop. unfold retryWithBackoff.
  rewrite (optimized_retryLoop_stops fn k (S maxRetries) 0 None 0);
    [by rewrite Nat.add_1_r | lia | done | done].
Qed.

(** X26. Whatever the attempts come to, this [retryWithBackoff] makes at
    least one and at most [maxRetries + 1] calls, and its outcome is the
    outcome of the last call it made. *)
Theorem optimized_retry_is_bounded :
  ∀ (fn : nat → Attempt A) maxRetries,
    ∃ k, (k ≤ maxRetries)%nat ∧
         retryWithBackoff fn maxRetries = (Some (fn k), S k).
Proof.
  intros fn maxRetries. unfold retryWithBackoff.
  destruct (optimized_retryLoop_last fn maxRetries 0 None 0) as (k & Hk & Hloop).
  exists k. split; [lia|]. rewrite Hloop. simpl. f_equal. lia.
Qed.

End OptimizedRetry.

Lemma optimized_retry_stops_at_witness :
  ProductsAPIOptimized.retryWithBackoff (A:=nat)
    (fun k => match k with
              | 0%nat => ProductsAPIOptimized.Failed
                           (ProductsAPIOptimized.httpError 503 "Service Unavailable")
              | _ => ProductsAPIOptimized.Failed
                       (ProductsAPIOptimized.httpError 404 "Not Found")
              end) 3 =
  (Some (ProductsAPIOptimized.Failed (ProductsAPIOptimized.httpError 404 "Not Found")),
   2%nat).
Proof.
  apply (optimized_retry_stops_at (A:=nat)
           (fun k => match k with
                     | 0%nat => ProductsAPIOptimized.Failed
                                  (ProductsAPIOptimized.httpError 503 "Service Unavailable")
                     | _ => ProductsAPIOptimized.Failed
                              (ProductsAPIOptimized.httpError 404 "Not Found")
                     end) 3 1).
  - lia.
  - intros j Hj. assert (j = 0%nat) as -> by lia. eexists. split; reflexivity.
  - intros e [= <-]. reflexivity.
Defined.

(** ** Cross-tab synchronisation: what a message can change *)

Section SyncWrites.

Import CartStore CartSync.

Lemma commit_fields now ts new (h : CartState * Refs) :
  _itemCount (commit now ts new h).1 = _itemCount h.1 ∧
  _totalPrice (commit now ts new h).1 = _totalPrice h.1 ∧
  isLoading (commit now ts new h).1 = isLoading h.1.
Proof. unfold commit. by destruct (hasChanges h.1 new). Qed.

Lemma applyMessage_fields now m t :
  _itemCount (store (applyMessage now m t)) = _itemCount (store t) ∧
  _totalPrice (store (applyMessage now m t)) = _totalPrice (store t) ∧
  isLoading (store (applyMessage now m t)) = isLoading (store t).
Proof.
  destruct m as [storage data|newValue|]; simpl; [| |done].
  - unfold debouncedUpdate. destruct (isUpdating _); [done|].
    destruct (_ || _); [done|].
    destruct storage as [[|[newState|]]|]; try done. apply commit_fields.
  - unfold debouncedStorageUpdate. destruct (isUpdating _); [done|].
    destruct newValue as [|[newState|]]; try done.
    destruct (_ || _); [done|]. apply commit_fields.
Qed.

(** X27. No message from another tab, and no sequence of them, changes the
    item count, the total price or the loading flag of the store: a
    synchronised cart takes the items of the sender and keeps the totals it
    had. *)
Theorem sync_never_recomputes_totals :
  ∀ timed t,
    _itemCount (store (applyMessages timed t)) = _itemCount (store t) ∧
    _totalPrice (store (applyMessages timed t)) = _totalPrice (store t) ∧
    isLoading (store (applyMessages timed t)) = isLoading (store t).
Proof.
  intros timed. unfold applyMessages.
  induction timed as [|[now m] timed IH]; intros t; simpl; [done|].
  destruct (IH (applyMessage now m t)) as (-> & -> & ->).
  apply applyMessage_fields.
Qed.

Lemma commit_same now ts new (h : CartState * Refs) :
  hasChanges h.1 new = false → commit now ts new h = h.
Proof. intros Hsame. unfold commit. by rewrite Hsame. Qed.

(** X28. A message that carries the items and the session id the tab
    already holds changes nothing, however recent its timestamp: the store,
    its [lastUpdated] and the recorded timestamps stay, so the echo of an
    update does not set off another one. *)
Theorem sync_same_cart_is_ignored :
  ∀ now m t newState,
    carried m = Some newState →
    hasChanges (store t) newState = false →
    applyMessage now m t = t.
Proof.
  intros now m t newState Hcarried Hsame. destruct t as [st br sr].
  destruct m as [[[|[new|]]|] data|[|[new|]]|]; simpl in Hcarried; try done;
    injection Hcarried as ->; simpl in *.
  - unfold debouncedUpdate. simpl. destruct (isUpdating br); [done|].
    destruct (_ || _); [done|]. by rewrite commit_same.
  - unfold debouncedStorageUpdate. simpl. destruct (isUpdating sr); [done|].
    destruct (_ || _); [done|]. by rewrite commit_same.
Qed.

End SyncWrites.

Lemma sync_same_cart_is_ignored_witness :
  CartSync.applyMessage 9
    (CartSync.StorageEvent
       (CartSync.Parsed
          (Some {| CartSync.storedItems := Some (CartStore.items CartStore.storeWithA);
                   CartSync.storedSessionId := Some "cart_0_abc";
                   CartSync.storedLastUpdated := Some 7 |})))
    CartSync.tabWithA = CartSync.tabWithA.
Proof.
  apply (sync_same_cart_is_ignored 9 _ CartSync.tabWithA
           {| CartSync.storedItems := Some (CartStore.items CartStore.storeWithA);
              CartSync.storedSessionId := Some "cart_0_abc";
              CartSync.storedLastUpdated := Some 7 |});
    reflexivity.
Defined.

(** ** Loading the catalog: cache first, network on demand *)

Section LoadFromCache.

Import CacheService ProductsAPI.

Context {P N : Type} (normalizeProduct : P → N).
Context (quotaExceeded :
  gmap string (Stored (CacheItem (list N))) → string →
  Stored (CacheItem (list N)) → bool).

Lemma get_config now namespace identifier (c : Cache (list N)) :
  config (get now namespace identifier c).2 = config c.
Proof.
  unfold get.
  destruct (getFromLocalStorage (config c) now _ (localStorage c)) as [[localItem|] ls'].
  - destruct (mapGet _ (memoryCache c)) as [memoryItem|]; [|done].
    by destruct (negb (isExpired now memoryItem) && isVersionValid (config c) memoryItem).
  - destruct (mapGet _ (memoryCache c)) as [memoryItem|]; [|done].
    by destruct (negb (isExpired now memoryItem) && isVersionValid (config c) memoryItem).
Qed.

Lemma set_keeps_fallback_key_absent now namespace identifier (d : list N) ttl'
    (c : Cache (list N)) :
  localStorage c !! expiredCacheKey = None →
  localStorage (set quotaExceeded now namespace identifier d ttl' c)
    !! expiredCacheKey = None.
Proof.
  intros H. simpl. rewrite setToLocalStorage_other; [done|].
  intros Heq. by apply (generateKey_not_expiredCacheKey namespace identifier).
Qed.

(** X29. [loadProducts] after a cache miss, with nothing under the key of
    the fallback, and a network that delivers the catalog: when
    [localStorage] accepts the write of the cache the hook shows the
    fetched products without an error; when it refuses it, the exception
    of the cache service reaches the handlers and the hook keeps the
    products it had, with the message of the exception as its error.  In
    both cases a further [loadProducts] within the cache TTL of the write
    shows the fetched products without an error whatever the network does
    (the memory tier serves them), and a [refetch] goes to the network
    and shows what it then sends, or keeps the products on display when the
    write of the cache is refused. *)
Theorem loadProducts_then_cache_then_refetch :
  ∀ cacheTTL now later now2 later2 network network2 (h : Hook (N:=N)) products tr
    products2 tr2,
    (getCachedProducts now (cache h)).1 = None →
    localStorage (cache h) !! expiredCacheKey = None →
    fetchProductsFromAPI normalizeProduct network = (Resolved products, tr) →
    now2 - later ≤ effectiveTTL (config (cache h)) (Some cacheTTL) →
    fetchProductsFromAPI normalizeProduct network2 = (Resolved products2, tr2) →
    (allProducts (loadProducts normalizeProduct quotaExceeded cacheTTL now later
                    network h),
     error (loadProducts normalizeProduct quotaExceeded cacheTTL now later network h)) =
      match setCachedProductsThrown quotaExceeded later products cacheTTL
              (getCachedProducts now (cache h)).2 with
      | None => (products, None)
      | Some thrown => (allProducts h, Some (MensagemDaExcecao thrown))
      end ∧
    (∀ anyNetwork,
       loadProducts normalizeProduct quotaExceeded cacheTTL now2 later2 anyNetwork
         (loadProducts normalizeProduct quotaExceeded cacheTTL now later network h) =
       {| allProducts := products; isLoading := false; error := None;
          cache := cache (loadProducts normalizeProduct quotaExceeded cacheTTL now
                            later network h) |}) ∧
    allProducts
      (refetch normalizeProduct quotaExceeded cacheTTL now2 later2 network2
         (loadProducts normalizeProduct quotaExceeded cacheTTL now later network h)) =
      match setCachedProductsThrown quotaExceeded later2 products2 cacheTTL
              (remove PRODUCTS PRODUCTS_CACHE_KEY
                 (cache (loadProducts normalizeProduct quotaExceeded cacheTTL now later
                           network h))) with
      | None => products2
      | Some _ =>
          allProducts (loadProducts normalizeProduct quotaExceeded cacheTTL now later
                         network h)
      end.
Proof.
  intros cacheTTL now later now2 later2 network network2 h products tr products2 tr2
    Hmiss Habs Hfetch Hfresh Hfetch2.
  pose proof (get_keeps_fallback_key_absent now PRODUCTS PRODUCTS_CACHE_KEY (cache h) Habs)
    as Habs1.
  pose proof (get_config now PRODUCTS PRODUCTS_CACHE_KEY (cache h)) as Hcfg.
  unfold getCachedProducts in *.
  destruct (get now PRODUCTS PRODUCTS_CACHE_KEY (cache h)) as [cached c1] eqn:Hget.
  simpl in Hmiss, Habs1, Hcfg. subst cached.
  pose proof (set_keeps_fallback_key_absent later PRODUCTS PRODUCTS_CACHE_KEY products
                (Some cacheTTL) c1 Habs1) as Habs2.
  assert (∃ shown err,
            loadProducts normalizeProduct quotaExceeded cacheTTL now later network h =
              {| allProducts := shown; isLoading := false; error := err;
                 cache := setCachedProducts quotaExceeded later products cacheTTL c1 |} ∧
            (shown, err) =
              match setCachedProductsThrown quotaExceeded later products cacheTTL c1 with
              | None => (products, None)
              | Some thrown => (allProducts h, Some (MensagemDaExcecao thrown))
              end) as (shown & err & Hload & Hshown).
  { unfold loadProducts, getCachedProducts. rewrite Hget, Hfetch.
    destruct (setCachedProductsThrown quotaExceeded later products cacheTTL c1);
      [|by eexists _, _].
    unfold getExpiredCachedProducts, setCachedProducts. rewrite Habs2.
    by eexists _, _. }
  rewrite Hload. cbn [allProducts error cache]. split; [done|]. split.
  - intros anyNetwork. unfold loadProducts at 1. cbn [cache].
    unfold getCachedProducts, setCachedProducts.
    rewrite get_within_ttl; [done|]. by rewrite Hcfg.
  - unfold refetch, loadProducts. cbn [cache allProducts isLoading error].
    unfold getCachedProducts. rewrite get_after_remove, Hfetch2.
    destruct (setCachedProductsThrown quotaExceeded later2 products2 cacheTTL _);
      [|done].
    unfold getExpiredCachedProducts, setCachedProducts.
    rewrite set_keeps_fallback_key_absent; [done|].
    simpl. rewrite lookup_delete_ne by apply generateKey_not_expiredCacheKey.
    exact Habs2.
Qed.

End LoadFromCache.

(** A [localStorage] that refuses the catalog of two products and accepts
    the one of a single product: the first load keeps the empty list and
    reports the exception, the second shows the two products from the
    memory tier, and the refetch shows the product the network then
    sends. *)
Lemma loadProducts_then_cache_then_refetch_witness :
  let refusesPairs :=
    fun (_ : gmap string (CacheService.Stored (CacheService.CacheItem (list nat))))
        (_ : string) (value : CacheService.Stored (CacheService.CacheItem (list nat))) =>
      match value with
      | CacheService.Json item => (length (CacheService.data item) =? 2)%nat
      | CacheService.Unparsable => false
      end in
  let h :=
    {| ProductsAPI.allProducts := []; ProductsAPI.isLoading := true;
       ProductsAPI.error := None;
       ProductsAPI.cache := CacheService.emptyCache CacheService.singletonConfig |} in
  let h1 :=
    ProductsAPI.loadProducts (fun p : nat => p) refusesPairs 300000 0 10
      (fun _ => ProductsAPI.Response 200 (ProductsAPI.Dados [1%nat; 2%nat])) h in
  (ProductsAPI.allProducts h1, ProductsAPI.error h1) =
    ([], Some (ProductsAPI.MensagemDaExcecao (CacheService.ReferenceError "DEBUG"))) ∧
  ProductsAPI.allProducts
    (ProductsAPI.loadProducts (fun p : nat => p) refusesPairs 300000 1000 1010
       (fun _ => ProductsAPI.Rejected) h1) = [1%nat; 2%nat] ∧
  ProductsAPI.allProducts
    (ProductsAPI.refetch (fun p : nat => p) refusesPairs 300000 1000 1010
       (fun _ => ProductsAPI.Response 200 (ProductsAPI.Dados [3%nat])) h1) = [3%nat].
Proof.
  intros refusesPairs h h1.
  destruct (loadProducts_then_cache_then_refetch (fun p : nat => p) refusesPairs
              300000 0 10 1000 1010
              (fun _ => ProductsAPI.Response 200 (ProductsAPI.Dados [1%nat; 2%nat]))
              (fun _ => ProductsAPI.Response 200 (ProductsAPI.Dados [3%nat]))
              h [1%nat; 2%nat] {| ProductsAPI.calls := 1; ProductsAPI.waits := [] |}
              [3%nat] {| ProductsAPI.calls := 1; ProductsAPI.waits := [] |})
    as (Hfirst & Hcache & Hrefetch);
    [reflexivity | reflexivity | reflexivity | vm_compute; discriminate | reflexivity |].
  split; [exact Hfirst|]. split; [|exact Hrefetch].
  fold h1 in Hcache. by rewrite Hcache.
Defined.

(** ** The memory tier of the cache service: eviction on [set] *)

Section MemoryBound.

Import CacheService.

Context {T : Type}.
Context (quotaExceeded :
  gmap string (Stored (CacheItem T)) → string → Stored (CacheItem T) → bool).

Lemma mapSet_keys key (item : CacheItem T) m :
  (mapSet key item m).*1 = if decide (key ∈ m.*1) then m.*1 else m.*1 ++ [key].
Proof.
  induction m as [|[k v] m IH].
  - done.
  - cbn [mapSet].
    destruct (String.eqb_spec k key) as [->|Hne]; rewrite !fmap_cons; cbn [fst].
    + destruct (decide (key ∈ key :: m.*1)) as [|Hnot]; [done|].
      exfalso. apply Hnot, elem_of_cons. by left.
    + rewrite IH.
      destruct (decide (key ∈ m.*1)) as [Hin|Hnot],
               (decide (key ∈ k :: m.*1)) as [Hin'|Hnot']; try done.
      * exfalso. apply Hnot', elem_of_cons. by right.
      * apply elem_of_cons in Hin' as [->|]; done.
Qed.

Lemma mapSet_NoDup key (item : CacheItem T) m :
  NoDup m.*1 → NoDup (mapSet key item m).*1.
Proof.
  intros Hnd. rewrite mapSet_keys. destruct (decide (key ∈ m.*1)); [done|].
  apply NoDup_app. split; [done|]. split; [|apply NoDup_singleton].
  intros x Hx Hin. apply list_elem_of_singleton in Hin. by subst.
Qed.

Lemma mapSet_length key (item : CacheItem T) m :
  (length (mapSet key item m) ≤ S (length m))%nat.
Proof.
  rewrite <- (length_fmap fst (mapSet key item m)), mapSet_keys.
  destruct (decide (key ∈ m.*1)); rewrite ?length_app, length_fmap; simpl; lia.
Qed.

Lemma elem_of_mapDelete key k (m : list (string * CacheItem T)) :
  k ∈ (mapDelete key m).*1 ↔ k ∈ m.*1 ∧ k ≠ key.
Proof.
  unfold mapDelete. rewrite !list_elem_of_fmap. split.
  - intros ([k' v] & -> & Hin). apply list_elem_of_In, List.filter_In in Hin as [Hin Hp].
    simpl in *. split.
    + exists (k', v). split; [done|]. by apply list_elem_of_In.
    + apply negb_true_iff, String.eqb_neq in Hp. done.
  - intros (([k' v] & -> & Hin) & Hne). exists (k', v). split; [done|].
    apply list_elem_of_In, List.filter_In. split; [by apply list_elem_of_In|].
    simpl in *. by apply negb_true_iff, String.eqb_neq.
Qed.

Lemma mapDelete_NoDup key (m : list (string * CacheItem T)) :
  NoDup m.*1 → NoDup (mapDelete key m).*1.
Proof.
  intros Hnd. eapply sublist_NoDup; [exact Hnd|].
  apply fmap_sublist, filter_sublist.
Qed.

Lemma mapDelete_cons key k (v : CacheItem T) m :
  mapDelete key ((k, v) :: m) =
  if String.eqb k key then mapDelete key m else (k, v) :: mapDelete key m.
Proof. unfold mapDelete. simpl. by destruct (String.eqb k key). Qed.

Lemma mapDelete_absent key (m : list (string * CacheItem T)) :
  key ∉ m.*1 → mapDelete key m = m.
Proof.
  induction m as [|[k v] m IH]; [done|]. rewrite fmap_cons. intros Hnot.
  apply not_elem_of_cons in Hnot as [Hne Hnot]. rewrite mapDelete_cons.
  destruct (String.eqb_spec k key) as [->|_]; [done|]. by rewrite IH.
Qed.

Lemma mapDelete_length key (m : list (string * CacheItem T)) :
  NoDup m.*1 → key ∈ m.*1 → S (length (mapDelete key m)) = length m.
Proof.
  induction m as [|[k v] m IH]; rewrite ?fmap_cons; intros Hnd Hin.
  - by apply elem_of_nil in Hin.
  - apply NoDup_cons in Hnd as [Hk Hnd]. rewrite mapDelete_cons.
    destruct (String.eqb_spec k key) as [->|Hne]; simpl.
    + by rewrite (mapDelete_absent key m Hk).
    + f_equal. apply elem_of_cons in Hin as [->|Hin]; [done|]. by apply IH.
Qed.

Lemma evict_length (entries m : list (string * CacheItem T)) :
  NoDup m.*1 → NoDup entries.*1 → entries.*1 ⊆ m.*1 →
  (length (foldl (fun acc e => mapDelete e.1 acc) m entries) + length entries)%nat =
    length m ∧
  NoDup (foldl (fun acc e => mapDelete e.1 acc) m entries).*1.
Proof.
  revert m. induction entries as [|[k v] entries IH]; intros m Hm He Hsub; simpl.
  - split; [lia|done].
  - apply NoDup_cons in He as [Hk He].
    assert (k ∈ m.*1) as Hin by (apply Hsub, elem_of_cons; by left).
    destruct (IH (mapDelete k m)) as [Hlen Hnd].
    + by apply mapDelete_NoDup.
    + done.
    + intros k' Hk'. apply elem_of_mapDelete. split.
      * apply Hsub. apply elem_of_cons. by right.
      * intros ->. done.
    + split; [|done]. pose proof (mapDelete_length k m Hm Hin). simpl in *. lia.
Qed.

Lemma insertByTimestamp_Permutation (e : string * CacheItem T) l :
  insertByTimestamp e l ≡ₚ e :: l.
Proof.
  induction l as [|y l IH]; simpl; [done|].
  destruct (timestamp e.2 <=? timestamp y.2); [done|].
  rewrite IH. apply Permutation_swap.
Qed.

Lemma sortByTimestamp_Permutation (l : list (string * CacheItem T)) :
  sortByTimestamp l ≡ₚ l.
Proof.
  induction l as [|e l IH]; simpl; [done|].
  rewrite insertByTimestamp_Permutation. by rewrite IH.
Qed.

Lemma manageMemoryCacheSize_length cfg (m : list (string * CacheItem T)) :
  NoDup m.*1 →
  NoDup (manageMemoryCacheSize cfg m).*1 ∧
  (length (manageMemoryCacheSize cfg m) ≤ length m)%nat ∧
  (maxSize cfg ≤ Z.of_nat (length m) →
   (length (manageMemoryCacheSize cfg m) +
    Z.to_nat (maxSize cfg / 4) `min` length m)%nat = length m).
Proof.
  intros Hnd. unfold manageMemoryCacheSize.
  destruct (Z.geb_spec (Z.of_nat (length m)) (maxSize cfg)) as [Hfull|Hroom].
  - pose proof (sortByTimestamp_Permutation m) as Hperm.
    destruct (evict_length
                (take (Z.to_nat (maxSize cfg / 4)) (sortByTimestamp m)) m Hnd)
      as [Hlen Hnd'].
    + eapply sublist_NoDup; [|apply fmap_sublist, sublist_take].
      by rewrite Hperm.
    + intros k Hk. rewrite <- Hperm.
      eapply elem_of_sublist; [exact Hk|]. apply fmap_sublist, sublist_take.
    + rewrite length_take in Hlen.
      rewrite (Permutation_length Hperm) in Hlen.
      split; [done|]. split; [lia|]. intros _. lia.
  - split; [done|]. split; [lia|]. lia.
Qed.

Lemma filter_mapDelete key (p : string * CacheItem T → bool) m :
  List.filter p (mapDelete key m) =
  List.filter (fun kv => negb (String.eqb kv.1 key) && p kv) m.
Proof.
  unfold mapDelete. induction m as [|kv m IH]; [done|]. simpl.
  destruct (String.eqb kv.1 key); simpl; rewrite IH; done.
Qed.

Lemma evict_filter (entries m : list (string * CacheItem T)) :
  foldl (fun acc e => mapDelete e.1 acc) m entries =
  List.filter (fun kv => bool_decide (kv.1 ∉ entries.*1)) m.
Proof.
  revert m. induction entries as [|[k v] entries IH]; intros m; simpl.
  - induction m as [|kv m IHm]; [done|]. cbn [List.filter]. by f_equal.
  - rewrite IH, filter_mapDelete. apply List.filter_ext. intros [k' v']. simpl.
    destruct (String.eqb_spec k' k) as [->|Hne]; simpl.
    + symmetry. apply bool_decide_eq_false_2. intros Hnot. apply Hnot, elem_of_cons. by left.
    + apply bool_decide_ext. rewrite not_elem_of_cons. tauto.
Qed.

Lemma insertByTimestamp_sorted (e : string * CacheItem T) l :
  StronglySorted notNewer l → StronglySorted notNewer (insertByTimestamp e l).
Proof.
  induction 1 as [|y l Hsorted IH Hall]; simpl.
  - repeat constructor.
  - destruct (Z.leb_spec (timestamp e.2) (timestamp y.2)) as [Hle|Hgt].
    + constructor; [by constructor|]. constructor; [done|].
      eapply Forall_impl; [exact Hall|]. unfold notNewer. intros; simpl in *; lia.
    + constructor; [done|]. rewrite insertByTimestamp_Permutation.
      constructor; [|done]. unfold notNewer. lia.
Qed.

Lemma sortByTimestamp_sorted (l : list (string * CacheItem T)) :
  StronglySorted notNewer (sortByTimestamp l).
Proof.
  induction l as [|e l IH]; simpl; [constructor|]. by apply insertByTimestamp_sorted.
Qed.

Lemma sorted_take_drop (l : list (string * CacheItem T)) n x y :
  StronglySorted notNewer l → x ∈ take n l → y ∈ drop n l → notNewer x y.
Proof.
  intros Hsorted. revert n. induction Hsorted as [|z l Hsorted IH Hall]; intros n Hx Hy.
  - rewrite take_nil in Hx. by apply elem_of_nil in Hx.
  - destruct n as [|n]; simpl in *; [by apply elem_of_nil in Hx|].
    apply elem_of_cons in Hx as [->|Hx]; [|by eapply IH].
    eapply Forall_forall; [exact Hall|]. eapply elem_of_sublist; [exact Hy|].
    apply sublist_drop.
Qed.

(** X30. [set] on a memory tier of at most [maxSize] entries (for a
    [maxSize] of at least 4, as the 100 of the singleton).  When the tier is
    full, a quarter of [maxSize] (rounded down) of its entries is evicted
    before the new entry is stored, and the evicted ones are the oldest:
    none of them is newer than an entry that stays.  When the tier is not
    full nothing is evicted.  The entries that stay keep their order, the
    new entry is stored among them under its key, and the tier then has
    at most [maxSize] entries and no key twice. *)
Theorem set_keeps_memory_bounded :
  ∀ now namespace identifier (d : T) ttl' (c : Cache T),
    4 ≤ maxSize (config c) →
    NoDup (memoryCache c).*1 →
    Z.of_nat (length (memoryCache c)) ≤ maxSize (config c) →
    ∃ evicted : list (string * CacheItem T),
      length evicted =
        (if bool_decide (maxSize (config c) ≤ Z.of_nat (length (memoryCache c)))
         then Z.to_nat (maxSize (config c) / 4) else 0%nat) ∧
      NoDup evicted.*1 ∧
      evicted ⊆ memoryCache c ∧
      (∀ e k, e ∈ evicted → k ∈ memoryCache c → k.1 ∉ evicted.*1 →
              timestamp e.2 ≤ timestamp k.2) ∧
      memoryCache (set quotaExceeded now namespace identifier d ttl' c) =
        mapSet (generateKey namespace identifier)
          {| data := d; timestamp := now; ttl := effectiveTTL (config c) ttl';
             version := configVersion (config c) |}
          (List.filter (fun kv => bool_decide (kv.1 ∉ evicted.*1)) (memoryCache c)) ∧
      NoDup (memoryCache (set quotaExceeded now namespace identifier d ttl' c)).*1 ∧
      Z.of_nat (length (memoryCache (set quotaExceeded now namespace identifier d ttl' c)))
        ≤ maxSize (config c).
Proof.
  intros now namespace identifier d ttl' c Hmax Hnd Hlen.
  destruct (manageMemoryCacheSize_length (config c) (memoryCache c) Hnd)
    as (Hnd' & Hle & Hevict).
  pose proof (sortByTimestamp_Permutation (memoryCache c)) as Hperm.
  assert (1 ≤ maxSize (config c) / 4) as Hquarter by (apply Z.div_le_lower_bound; lia).
  assert (maxSize (config c) / 4 ≤ maxSize (config c)) as Hquarter'
    by (apply Z.div_le_upper_bound; lia).
  assert (NoDup (memoryCache (set quotaExceeded now namespace identifier d ttl' c)).*1 ∧
          Z.of_nat (length (memoryCache
                              (set quotaExceeded now namespace identifier d ttl' c)))
            ≤ maxSize (config c)) as Hbound.
  { simpl. split; [by apply mapSet_NoDup|].
    pose proof (mapSet_length (generateKey namespace identifier)
                  {| data := d; timestamp := now; ttl := effectiveTTL (config c) ttl';
                     version := configVersion (config c) |}
                  (manageMemoryCacheSize (config c) (memoryCache c))) as Hset.
    destruct (decide (maxSize (config c) ≤ Z.of_nat (length (memoryCache c))))
      as [Hfull|Hroom]; [|lia].
    specialize (Hevict Hfull). lia. }
  destruct (decide (maxSize (config c) ≤ Z.of_nat (length (memoryCache c))))
    as [Hfull|Hroom].
  - exists (take (Z.to_nat (maxSize (config c) / 4)) (sortByTimestamp (memoryCache c))).
    rewrite bool_decide_eq_true_2 by done.
    split; [|split; [|split; [|split; [|split; [|exact Hbound]]]]].
    + rewrite length_take, (Permutation_length Hperm). lia.
    + eapply sublist_NoDup; [|apply fmap_sublist, sublist_take]. by rewrite Hperm.
    + intros e He. rewrite <- Hperm. eapply elem_of_sublist; [exact He|].
      apply sublist_take.
    + intros e k He Hk Hnot.
      apply (sorted_take_drop (sortByTimestamp (memoryCache c))
               (Z.to_nat (maxSize (config c) / 4)) e k);
        [apply sortByTimestamp_sorted|done|].
      rewrite <- Hperm in Hk.
      rewrite <- (take_drop (Z.to_nat (maxSize (config c) / 4))
                    (sortByTimestamp (memoryCache c))) in Hk.
      apply elem_of_app in Hk as [Hk|Hk]; [|done].
      exfalso. apply Hnot. apply list_elem_of_fmap. by exists k.
    + simpl. unfold manageMemoryCacheSize.
      destruct (Z.geb_spec (Z.of_nat (length (memoryCache c))) (maxSize (config c)));
        [|lia].
      by rewrite evict_filter.
  - exists []. rewrite bool_decide_eq_false_2 by done.
    split; [done|]. split; [constructor|]. split; [apply list_subseteq_nil|].
    split; [intros e k He; by apply elem_of_nil in He|]. split; [|exact Hbound].
    simpl. unfold manageMemoryCacheSize.
    destruct (Z.geb_spec (Z.of_nat (length (memoryCache c))) (maxSize (config c)));
      [lia|].
    f_equal. exact (evict_filter [] (memoryCache c)).
Qed.

End MemoryBound.

Lemma set_keeps_memory_bounded_witness :
  (CacheService.memoryCache
     (CacheService.set (fun _ _ _ => false) 5 "products" "e" 7%nat None
        CacheService.fullTier)).*1 =
    ["cache_products_a"; "cache_products_c"; "cache_products_d"; "cache_products_e"].
Proof.
  destruct (set_keeps_memory_bounded (fun _ _ _ => false) 5 "products" "e" 7%nat None
              CacheService.fullTier)
    as (evicted & Hlen & _ & Hsub & Holdest & -> & _);
    [vm_compute; discriminate | apply (bool_decide_unpack _); by vm_compute
    | vm_compute; discriminate |].
  destruct evicted as [|e [|? ?]]; try discriminate Hlen.
  assert (e ∈ CacheService.memoryCache CacheService.fullTier) as He
    by (apply Hsub, elem_of_cons; by left).
  assert (∀ k, k ∈ CacheService.memoryCache CacheService.fullTier → k.1 ≠ e.1 →
               CacheService.timestamp e.2 ≤ CacheService.timestamp k.2) as Hall.
  { intros k Hk Hne. apply Holdest; [apply elem_of_cons; by left|done|].
    intros Hin. apply list_elem_of_singleton in Hin. done. }
  assert (("cache_products_b",
           {| CacheService.data := 2%nat; CacheService.timestamp := 1;
              CacheService.ttl := 300000; CacheService.version := "1.0.0" |})
            ∈ CacheService.memoryCache CacheService.fullTier) as Hb
    by (apply elem_of_cons; right; apply elem_of_cons; by left).
  simpl in He.
  repeat (apply elem_of_cons in He as [->|He]);
    try (by apply elem_of_nil in He);
    try (specialize (Hall _ Hb); simpl in Hall; exfalso;
         assert (3 ≤ 1 ∨ 4 ≤ 1 ∨ 2 ≤ 1) as Habs
           by (first [left; by apply Hall | right; left; by apply Hall
                     | right; right; by apply Hall]);
         lia).
  reflexivity.
Defined.
